(** * bitpanda-aml: the asynchronous check-orchestration pipeline

    A shallow embedding of the Go packages [domain], [repositories],
    [storage], [token], [rabbitmq], [application] and [transport/http],
    followed by the properties of the pipeline that are proved about them.

    Conventions:
    - a Go [string] is a [string] (a sequence of 8-bit characters);
    - [time.Time] is an instant, a [Z];  [t.After(u)] is [u < t];
    - Go [int] values that are only stored and compared are [Z];
    - a function returning [error] returns [option error] ([None] is [nil]);
      a function returning [(T, error)] returns [result T];
    - every read of the outside world (clock, uuid, provider reply, broker
      reply, file system reply) is an explicit argument of the operation
      that performs it. *)

From Stdlib Require Import ZArith String Ascii List Lia DecimalString DecimalZ.
From stdpp Require Import base option list gmap strings fin_maps.

Local Open Scope string_scope.
Local Open Scope list_scope.
Local Open Scope Z_scope.

(** ** Go errors *)

(** [errors.New] and [fmt.Errorf] without [%w] give an [errorString];
    [fmt.Errorf] with [%w] gives a [wrapError] that remembers the error it
    wraps.  [msg] is what [err.Error()] prints. *)
Inductive error : Type :=
| ErrInvalidAddress
| ErrUnsupportedCurrency
| errorString (msg : string)
| wrapError (msg : string) (inner : error).

(** [ErrInvalidAddress] and [ErrUnsupportedCurrency] are the two package
    variables of [domain/asset.go]; as Go compares them by identity they
    are constructors of their own. *)
Definition Error (e : error) : string :=
  match e with
  | ErrInvalidAddress => "invalid address format"
  | ErrUnsupportedCurrency => "unsupported currency"
  | errorString m => m
  | wrapError m _ => m
  end.

#[global] Instance error_eq_dec : EqDecision error.
Proof. solve_decision. Defined.

(** [errors.Is err target]: [target] is [err] or occurs in its chain. *)
Fixpoint errors_Is (err target : error) : bool :=
  bool_decide (err = target) ||
  match err with
  | wrapError _ inner => errors_Is inner target
  | _ => false
  end.

(** [fmt.Errorf(prefix + ": %w", err)] *)
Definition wrapf (prefix : string) (err : error) : error :=
  wrapError (prefix +:+ ": " +:+ Error err) err.

Inductive result (A : Type) : Type :=
| Ok (a : A)
| Err (e : error).
Arguments Ok {A} a.
Arguments Err {A} e.

(** ** Package domain *)
Module domain.

(** events.go / aml_check.go *)
Inductive AMLCheckStatus : Type :=
| StatusProcessing
| StatusCompleted
| StatusFailed.

#[global] Instance AMLCheckStatus_eq_dec : EqDecision AMLCheckStatus.
Proof. solve_decision. Defined.

(** [type RiskLevel string]: levels also arrive from providers and from
    decoded events, so the type is the string type it is in Go. *)
Definition RiskLevel : Type := string.
Definition RiskLevelLow : RiskLevel := "Low".
Definition RiskLevelMedium : RiskLevel := "Medium".
Definition RiskLevelHigh : RiskLevel := "High".
Definition RiskLevelCritical : RiskLevel := "Critical".

Definition DeriveRiskLevel (score : Z) : RiskLevel :=
  if 80 <=? score then RiskLevelCritical
  else if 60 <=? score then RiskLevelHigh
  else if 30 <=? score then RiskLevelMedium
  else RiskLevelLow.

Record SanctionsIdentification : Type := {
  Category : string;
  Name : string;
  URL : string;
}.

Record SanctionsResult : Type := {
  Hit : bool;
  Identifications : list SanctionsIdentification;
}.

(** [&SanctionsResult{Hit: false, Identifications: []...{}}] *)
Definition emptySanctions : SanctionsResult :=
  {| Hit := false; Identifications := [] |}.

Record AMLCheck : Type := {
  ID : string;
  Address : string;
  Currency : string;
  Status : AMLCheckStatus;
  RiskScore : Z;
  RiskLevelOf : RiskLevel;
  Categories : list string;
  Sanctions : option SanctionsResult;   (* *SanctionsResult, nil = None *)
  ReportKey : string;
  ErrorMessage : string;
  CreatedAt : Z;
  UpdatedAt : Z;
  ExpiresAt : Z;
}.

(** [NewAMLCheck]: [id] is the value of [uuid.New().String()], [now] the
    value of [time.Now().UTC()]. *)
Definition NewAMLCheck (id : string) (now : Z)
    (address currency : string) (ttl : Z) : AMLCheck :=
  {| ID := id;
     Address := address;
     Currency := currency;
     Status := StatusProcessing;
     RiskScore := 0;
     RiskLevelOf := "";
     Categories := [];
     Sanctions := Some emptySanctions;
     ReportKey := "";
     ErrorMessage := "";
     CreatedAt := now;
     UpdatedAt := now;
     ExpiresAt := now + ttl |}.

(** [c.MarkCompleted(...)], with [now] the clock read inside it.  The
    method has a pointer receiver: the function gives the new contents of
    the object the receiver points to. *)
Definition MarkCompleted (riskScore : Z) (riskLevel : RiskLevel)
    (categories : list string) (sanctions : option SanctionsResult)
    (reportKey : string) (now : Z) (c : AMLCheck) : AMLCheck :=
  {| ID := ID c;
     Address := Address c;
     Currency := Currency c;
     Status := StatusCompleted;
     RiskScore := riskScore;
     RiskLevelOf := riskLevel;
     Categories := categories;
     Sanctions := sanctions;
     ReportKey := reportKey;
     ErrorMessage := ErrorMessage c;
     CreatedAt := CreatedAt c;
     UpdatedAt := now;
     ExpiresAt := ExpiresAt c |}.

Definition MarkFailed (errorMessage : string) (now : Z) (c : AMLCheck)
    : AMLCheck :=
  {| ID := ID c;
     Address := Address c;
     Currency := Currency c;
     Status := StatusFailed;
     RiskScore := RiskScore c;
     RiskLevelOf := RiskLevelOf c;
     Categories := Categories c;
     Sanctions := Sanctions c;
     ReportKey := ReportKey c;
     ErrorMessage := errorMessage;
     CreatedAt := CreatedAt c;
     UpdatedAt := now;
     ExpiresAt := ExpiresAt c |}.

(** [time.Now().UTC().After(c.ExpiresAt)] *)
Definition IsExpired (now : Z) (c : AMLCheck) : bool :=
  ExpiresAt c <? now.

(** The terminal state the report step leaves: Completed, with the
    result and the report key. *)
Definition completedWith (score : Z) (level : RiskLevel)
    (cats : list string) (sanc : option SanctionsResult) (key : string)
    (c : AMLCheck) : Prop :=
  Status c = StatusCompleted ∧ RiskScore c = score ∧ RiskLevelOf c = level
  ∧ Categories c = cats ∧ Sanctions c = sanc ∧ ReportKey c = key.

Definition terminal (s : AMLCheckStatus) : bool :=
  match s with
  | StatusProcessing => false
  | StatusCompleted | StatusFailed => true
  end.

(** *** events.go *)

Definition EventAMLCheckRequested : string := "aml.check.requested".
Definition EventAMLCheckCompleted : string := "aml.check.completed".
Definition EventAMLReportReady : string := "aml.report.ready".
Definition EventAMLCheckFailed : string := "aml.check.failed".

(** The payload of an event ([Payload any]) is one of the four payload
    structs. *)
Inductive Payload : Type :=
| AMLCheckRequestedPayload (CheckID Address Currency : string)
| AMLCheckCompletedPayload (CheckID : string) (RiskScore : Z)
    (RiskLevel : RiskLevel) (Categories : list string)
    (Sanctions : option SanctionsResult)
| AMLReportReadyPayload (CheckID ReportKey : string)
| AMLCheckFailedPayload (CheckID ErrorMessage : string).

Record Event : Type := {
  EventID : string;
  Type_ : string;
  Timestamp : Z;
  EventPayload : Payload;
}.

(** [NewEvent]: [id] is [time.Now().Format("20060102150405.000000")] and
    [now] is the second clock read, [time.Now().UTC()]. *)
Definition NewEvent (id : string) (now : Z) (eventType : string)
    (payload : Payload) : Event :=
  {| EventID := id; Type_ := eventType; Timestamp := now;
     EventPayload := payload |}.

(** *** ports.go *)

Record AMLResult : Type := {
  ResRiskScore : Z;
  ResRiskLevel : RiskLevel;
  ResCategories : list string;
}.

(** *** asset.go *)

(** The functions of Go's [strings] package that follow Unicode rather than
    bytes are taken as given. *)
Class GoStrings : Type := {
  ToUpper : string -> string;
  ToLower : string -> string;
  TrimSpace : string -> string;
}.

(** The three functions on ASCII text, where they agree with Go's: letters
    change case by 32, and the white space is tab, line feed, vertical
    tab, form feed, carriage return and space. *)
Definition upper (c : ascii) : ascii :=
  let n := N_of_ascii c in
  if (N.leb 97 n && N.leb n 122)%N then ascii_of_N (n - 32) else c.

Definition lower (c : ascii) : ascii :=
  let n := N_of_ascii c in
  if (N.leb 65 n && N.leb n 90)%N then ascii_of_N (n + 32) else c.

Fixpoint mapChars (f : ascii -> ascii) (s : string) : string :=
  match s with
  | EmptyString => EmptyString
  | String c s' => String (f c) (mapChars f s')
  end.

Definition isSpace (c : ascii) : bool :=
  let n := N_of_ascii c in
  ((N.leb 9 n && N.leb n 13) || N.eqb n 32)%N.

Fixpoint trimLeft (s : string) : string :=
  match s with
  | EmptyString => EmptyString
  | String c s' => if isSpace c then trimLeft s' else s
  end.

Fixpoint trimRight (s : string) : string :=
  match s with
  | EmptyString => EmptyString
  | String c s' =>
      match trimRight s' with
      | EmptyString => if isSpace c then EmptyString else String c EmptyString
      | t => String c t
      end
  end.

Definition asciiStrings : GoStrings :=
  {| ToUpper := mapChars upper;
     ToLower := mapChars lower;
     TrimSpace s := trimRight (trimLeft s) |}.

Definition in_range (lo hi c : ascii) : bool :=
  (N.leb (N_of_ascii lo) (N_of_ascii c)) && (N.leb (N_of_ascii c) (N_of_ascii hi)).

(** The character classes of the three address patterns. *)
Definition base58_char (c : ascii) : bool :=
  in_range "a" "k" c || in_range "m" "z" c || in_range "A" "H" c
  || in_range "J" "N" c || in_range "P" "Z" c || in_range "1" "9" c.

Definition bech32_char (c : ascii) : bool :=
  in_range "a" "z" c || in_range "0" "9" c.

Definition hex_char (c : ascii) : bool :=
  in_range "a" "f" c || in_range "A" "F" c || in_range "0" "9" c.

Fixpoint all_chars (p : ascii -> bool) (s : string) : bool :=
  match s with
  | EmptyString => true
  | String c s' => p c && all_chars p s'
  end.

(** A character that is not white space. *)
Definition plainChar (c : ascii) : bool := negb (isSpace c).

Definition len (s : string) : Z := Z.of_nat (String.length s).


(** [strings.HasPrefix] *)
Definition HasPrefix (s pre : string) : bool := String.prefix pre s.

(** [^[13][a-km-zA-HJ-NP-Z1-9]{25,34}$] *)
Definition match_legacy (address : string) : bool :=
  match address with
  | String c rest =>
      (Ascii.eqb c "1" || Ascii.eqb c "3")
      && all_chars base58_char rest
      && (25 <=? len rest) && (len rest <=? 34)
  | EmptyString => false
  end.

(** [^bc1[a-z0-9]{39,59}$] *)
Definition match_segwit (address : string) : bool :=
  match address with
  | String "b" (String "c" (String "1" rest)) =>
      all_chars bech32_char rest && (39 <=? len rest) && (len rest <=? 59)
  | _ => false
  end.

(** [^0x[a-fA-F0-9]{40}$] *)
Definition match_eth (address : string) : bool :=
  match address with
  | String "0" (String "x" rest) =>
      all_chars hex_char rest && (len rest =? 40)
  | _ => false
  end.

Inductive Asset : Type :=
| Bitcoin
| Ethereum
| USDT.

Definition Symbol (a : Asset) : string :=
  match a with
  | Bitcoin => "BTC"
  | Ethereum => "ETH"
  | USDT => "USDT"
  end.

Definition Chain (a : Asset) : string :=
  match a with
  | Bitcoin => "bitcoin"
  | Ethereum | USDT => "ethereum"
  end.

Definition Bitcoin_ValidateAddress (address : string) : option error :=
  if String.eqb address "" then Some ErrInvalidAddress
  else if (HasPrefix address "1" || HasPrefix address "3")
          && (26 <=? len address) && (len address <=? 35)
          && match_legacy address then None
  else if HasPrefix address "bc1"
          && (42 <=? len address) && (len address <=? 62)
          && match_segwit address then None
  else Some ErrInvalidAddress.

Definition Ethereum_ValidateAddress (address : string) : option error :=
  if String.eqb address "" then Some ErrInvalidAddress
  else if negb (match_eth address) then Some ErrInvalidAddress
  else None.

Definition ValidateAddress (a : Asset) (address : string) : option error :=
  match a with
  | Bitcoin => Bitcoin_ValidateAddress address
  | Ethereum => Ethereum_ValidateAddress address
  | USDT => Ethereum_ValidateAddress address
  end.

Definition NormalizeAddress `{GoStrings} (a : Asset) (address : string)
    : string :=
  match a with
  | Bitcoin => TrimSpace address
  | Ethereum | USDT => ToLower (TrimSpace address)
  end.

(** [DefaultAssetRegistry]: the map from symbol to asset. *)
Definition register (asset : Asset) (assets : gmap string Asset)
    : gmap string Asset :=
  <[Symbol asset := asset]> assets.

Definition NewDefaultAssetRegistry : gmap string Asset :=
  register USDT (register Ethereum (register Bitcoin ∅)).

Definition AssetRegistry_Get `{GoStrings} (assets : gmap string Asset)
    (symbol : string) : result Asset :=
  match assets !! ToUpper symbol with
  | Some asset => Ok asset
  | None =>
      Err (wrapError ("unsupported currency: " +:+ symbol)
             ErrUnsupportedCurrency)
  end.

End domain.

(** ** Package repositories: memory_check_repository.go *)
Module repositories.
Import domain.

(** [MemoryCheckRepository] is its [checks] map; every method runs under
    the repository's lock, so each is one atomic step on the map.  The map
    holds pointers: a record handed out by [Get] is the stored one. *)
Abbreviation Registry := (gmap string AMLCheck).

Definition NewMemoryCheckRepository : Registry := ∅.

Definition Create (check : AMLCheck) (r : Registry)
    : option error * Registry :=
  match r !! ID check with
  | Some _ => (Some (errorString "check already exists"), r)
  | None => (None, <[ID check := check]> r)
  end.

(** [Get] answers [(nil, nil)] for an unknown id: [None], and no error. *)
Definition Get (checkID : string) (r : Registry) : result (option AMLCheck) :=
  Ok (r !! checkID).

Definition Update (check : AMLCheck) (r : Registry)
    : option error * Registry :=
  match r !! ID check with
  | None => (Some (errorString "check not found"), r)
  | Some _ => (None, <[ID check := check]> r)
  end.

(** One iteration of the sweep: [if now.After(check.ExpiresAt)] the entry
    is deleted and counted. *)
Definition sweep (now : Z) (id : string) (check : AMLCheck)
    (acc : Registry * Z) : Registry * Z :=
  if ExpiresAt check <? now then (delete id acc.1, acc.2 + 1) else acc.

(** [CleanupExpired]: the [range] loop visits every entry of the map once
    ([map_fold]); the error result is always [nil] and is left out. *)
Definition CleanupExpired (now : Z) (r : Registry) : Z * Registry :=
  let acc := map_fold (sweep now) (r, 0) r in (acc.2, acc.1).

(** An entry of the map is past its expiry at [now]. *)
Definition expiredAt (now : Z) (entry : string * AMLCheck) : Prop :=
  ExpiresAt entry.2 < now.

#[global] Instance expiredAt_dec now entry : Decision (expiredAt now entry).
Proof. unfold expiredAt. apply _. Defined.

(** A record for the examples: only the id and the expiry vary. *)
Definition sample (id : string) (expiresAt : Z) : AMLCheck :=
  {| ID := id; Address := "bc1q"; Currency := "BTC";
     Status := StatusProcessing; RiskScore := 0; RiskLevelOf := "";
     Categories := []; Sanctions := Some emptySanctions; ReportKey := "";
     ErrorMessage := ""; CreatedAt := 0; UpdatedAt := 0;
     ExpiresAt := expiresAt |}.

(** Every record is stored under its own id. *)
Definition keyed (r : Registry) : Prop :=
  ∀ id c, r !! id = Some c → ID c = id.

End repositories.

(** ** Go's time package: the civil date of an instant

    Instants count nanoseconds from the epoch, in UTC.  [Date] is [Year],
    [Month] and [Day] of an instant in the proleptic Gregorian calendar,
    and [FormatRFC3339] is [t.Format(time.RFC3339)] of a UTC instant with
    a year of four digits. *)
Module gotime.

Definition Second : Z := 1000000000.
Definition Day : Z := 86400 * Second.

(** The date of the day [days] days after the first of January 1970. *)
Definition civil (days : Z) : Z * Z * Z :=
  let z := days + 719468 in
  let era := z / 146097 in
  let doe := z - era * 146097 in
  let yoe := (doe - doe / 1460 + doe / 36524 - doe / 146096) / 365 in
  let doy := doe - (365 * yoe + yoe / 4 - yoe / 100) in
  let mp := (5 * doy + 2) / 153 in
  let d := doy - (153 * mp + 2) / 5 + 1 in
  let m := if mp <? 10 then mp + 3 else mp - 9 in
  let y := yoe + era * 400 + (if m <=? 2 then 1 else 0) in
  (y, m, d).

Definition Date (t : Z) : Z * Z * Z := civil (t / Day).

(** The hour, minute and second of the day. *)
Definition Clock (t : Z) : Z * Z * Z :=
  let s := (t / Second) mod 86400 in
  (s / 3600, (s / 60) mod 60, s mod 60).

(** [%d], and [%02d] and [%04d] of a number that is not negative. *)
Definition digits (z : Z) : string := NilZero.string_of_int (Z.to_int z).

Definition pad2 (z : Z) : string :=
  if (0 <=? z) && (z <? 10) then "0" +:+ digits z else digits z.

Definition pad4 (z : Z) : string :=
  if (0 <=? z) && (z <? 10) then "000" +:+ digits z
  else if (0 <=? z) && (z <? 100) then "00" +:+ digits z
  else if (0 <=? z) && (z <? 1000) then "0" +:+ digits z
  else digits z.

Definition FormatRFC3339 (t : Z) : string :=
  let '(y, m, d) := Date t in
  let '(hh, mm, ss) := Clock t in
  pad4 y +:+ "-" +:+ pad2 m +:+ "-" +:+ pad2 d +:+ "T"
  +:+ pad2 hh +:+ ":" +:+ pad2 mm +:+ ":" +:+ pad2 ss +:+ "Z".

End gotime.

(** ** Package storage: local_storage.go and minio_storage.go *)
Module storage.

(** A write that failed: the error, and what the write left behind.  For
    [os.WriteFile], which opens the file with [O_TRUNC] and then writes,
    [written] is the number of bytes that reached the file, and [None]
    when the file could not be opened and is as it was.  For [PutObject],
    which stores an object whole or not at all, [written] says whether the
    object was stored although an error came back. *)
Record WriteFailure : Type := {
  writeError : error;
  written : option nat;
}.

(** The files under [basePath] and the [metadata] map (key to expiry). *)
Record LocalStorage : Type := {
  files : gmap string string;
  metadata : gmap string Z;
}.

(** [Put]: [writeErr] is the reply of [os.WriteFile], [now] the clock.
    The model is of keys that are file names of their own in the storage
    directory, as the report step makes them ([<check id>.pdf]): the file
    of a key is looked up under the key, and the copy of the metadata
    that [saveMetadata] keeps in [.metadata.json] is not part of it.  A
    write that fails returns before the metadata is touched, and leaves
    the file with the bytes that were written. *)
Definition Put (writeErr : option WriteFailure) (now : Z)
    (key data : string) (ttl : Z) (s : LocalStorage)
    : option error * LocalStorage :=
  match writeErr with
  | Some failure =>
      (Some (wrapf "failed to write file" (writeError failure)),
       {| files := match written failure with
                   | None => files s
                   | Some n => <[key := substring 0 n data]> (files s)
                   end;
          metadata := metadata s |})
  | None =>
      (None, {| files := <[key := data]> (files s);
                metadata := <[key := now + ttl]> (metadata s) |})
  end.

(** [Get]: [now] is the clock and [readErr] the error of [os.ReadFile]
    when it fails on a file that is there; a file that is not there is an
    error of [os.ReadFile] as well. *)
Definition Get (readErr : option error) (now : Z) (key : string)
    (s : LocalStorage) : result string :=
  match metadata s !! key with
  | None => Err (errorString "report not found")
  | Some expiresAt =>
      if expiresAt <? now then Err (errorString "report expired")
      else
        match readErr, files s !! key with
        | Some e, _ => Err (wrapf "failed to read file" e)
        | None, None =>
            Err (wrapf "failed to read file"
                   (errorString "no such file or directory"))
        | None, Some data => Ok data
        end
  end.

(** [PresignGet]: the empty URL tells the caller to stream instead. *)
Definition PresignGet (key : string) (expires : Z) : result string := Ok "".

(** One iteration of the sweep of the reports: [removeReply key] is the
    error of [os.Remove] for that file, if any; the entry of the metadata
    is deleted and counted whatever [os.Remove] said. *)
Definition sweepReport (removeReply : string -> option error) (now : Z)
    (key : string) (expiresAt : Z) (acc : LocalStorage * Z)
    : LocalStorage * Z :=
  if expiresAt <? now then
    ({| files := if removeReply key is Some _ then files acc.1
                 else delete key (files acc.1);
        metadata := delete key (metadata acc.1) |}, acc.2 + 1)
  else acc.

Definition CleanupExpired (removeReply : string -> option error) (now : Z)
    (s : LocalStorage) : Z * LocalStorage :=
  let acc := map_fold (sweepReport removeReply now) (s, 0) (metadata s) in
  (acc.2, acc.1).

(** Every report that has an entry in the metadata has its file. *)
Definition backed (s : LocalStorage) : Prop :=
  dom (metadata s) ⊆ dom (files s).

(** An entry of the metadata whose expiry is before [now]. *)
Definition due (now : Z) (entry : string * Z) : Prop := entry.2 < now.

#[global] Instance due_dec now entry : Decision (due now entry).
Proof. unfold due. apply _. Defined.

(** *** minio_storage.go *)

(** An object of the bucket, as [PutObject] is asked to store it. *)
Record Object : Type := {
  ObjData : string;
  ObjContentType : string;
  ObjUserMetadata : gmap string string;
}.

(** The bucket: object keys to objects. *)
Record MinIOStorage : Type := {
  objects : gmap string Object;
}.

(** [fmt.Sprintf("reports/%d/%02d/%02d/%s", now.Year(), now.Month(),
    now.Day(), key)] *)
Definition objectKey (now : Z) (key : string) : string :=
  let '(y, m, d) := gotime.Date now in
  "reports/" +:+ gotime.digits y +:+ "/" +:+ gotime.pad2 m +:+ "/"
  +:+ gotime.pad2 d +:+ "/" +:+ key.

(** [MinIOStorage.Put]: [putErr] is the reply of [PutObject], [now] the
    clock read at the start. *)
Definition MinIOStorage_Put (putErr : option WriteFailure) (now : Z)
    (key data : string) (ttl : Z) (s : MinIOStorage)
    : option error * MinIOStorage :=
  let object :=
    {| ObjData := data;
       ObjContentType := "application/pdf";
       ObjUserMetadata :=
         {["expire-at" := gotime.FormatRFC3339 (now + ttl)]} |} in
  let stored := {| objects := <[objectKey now key := object]> (objects s) |} in
  match putErr with
  | Some failure =>
      (Some (wrapf "failed to put object" (writeError failure)),
       if written failure is Some _ then stored else s)
  | None => (None, stored)
  end.

End storage.

(** ** Go's encoding/base64: [base64.URLEncoding] *)
Module base64.

(** The URL alphabet of RFC 4648; [=] pads the last quantum. *)
Definition encodeURL : string :=
  "ABCDEFGHIJKLMNOPQRSTUVWXYZabcdefghijklmnopqrstuvwxyz0123456789-_".
Definition padChar : ascii := "="%char.

(** A six-bit group, most significant bit first. *)
Record sextet : Type := Sextet { s5 : bool; s4 : bool; s3 : bool;
                                 s2 : bool; s1 : bool; s0 : bool }.

Definition bit (b : bool) (w : nat) : nat := if b then w else 0%nat.

Definition sextet_index (x : sextet) : nat :=
  (bit (s5 x) 32 + bit (s4 x) 16 + bit (s3 x) 8
   + bit (s2 x) 4 + bit (s1 x) 2 + bit (s0 x) 1)%nat.

Definition index_sextet (n : nat) : sextet :=
  Sextet (Nat.testbit n 5) (Nat.testbit n 4) (Nat.testbit n 3)
         (Nat.testbit n 2) (Nat.testbit n 1) (Nat.testbit n 0).

Definition encodeChar (x : sextet) : ascii :=
  match String.get (sextet_index x) encodeURL with
  | Some c => c
  | None => padChar
  end.

Fixpoint index_of (c : ascii) (s : string) (i : nat) : option nat :=
  match s with
  | EmptyString => None
  | String d s' => if Ascii.eqb c d then Some i else index_of c s' (S i)
  end.

(** The decode map: the position of a character in the alphabet. *)
Definition decodeChar (c : ascii) : option sextet :=
  index_sextet <$> index_of c encodeURL 0.

(** The three encodings of a quantum of three, two and one bytes. *)
Definition encode3 (a b c : ascii) : string :=
  match a, b, c with
  | Ascii a0 a1 a2 a3 a4 a5 a6 a7, Ascii b0 b1 b2 b3 b4 b5 b6 b7,
    Ascii c0 c1 c2 c3 c4 c5 c6 c7 =>
      String (encodeChar (Sextet a7 a6 a5 a4 a3 a2))
     (String (encodeChar (Sextet a1 a0 b7 b6 b5 b4))
     (String (encodeChar (Sextet b3 b2 b1 b0 c7 c6))
     (String (encodeChar (Sextet c5 c4 c3 c2 c1 c0)) EmptyString)))
  end.

Definition encode2 (a b : ascii) : string :=
  match a, b with
  | Ascii a0 a1 a2 a3 a4 a5 a6 a7, Ascii b0 b1 b2 b3 b4 b5 b6 b7 =>
      String (encodeChar (Sextet a7 a6 a5 a4 a3 a2))
     (String (encodeChar (Sextet a1 a0 b7 b6 b5 b4))
     (String (encodeChar (Sextet b3 b2 b1 b0 false false))
     (String padChar EmptyString)))
  end.

Definition encode1 (a : ascii) : string :=
  match a with
  | Ascii a0 a1 a2 a3 a4 a5 a6 a7 =>
      String (encodeChar (Sextet a7 a6 a5 a4 a3 a2))
     (String (encodeChar (Sextet a1 a0 false false false false))
     (String padChar (String padChar EmptyString)))
  end.

Fixpoint EncodeToString (src : string) : string :=
  match src with
  | EmptyString => EmptyString
  | String a EmptyString => encode1 a
  | String a (String b EmptyString) => encode2 a b
  | String a (String b (String c rest)) =>
      encode3 a b c +:+ EncodeToString rest
  end.

Definition byte1 (x y : sextet) : ascii :=
  Ascii (s4 y) (s5 y) (s0 x) (s1 x) (s2 x) (s3 x) (s4 x) (s5 x).
Definition byte2 (y z : sextet) : ascii :=
  Ascii (s2 z) (s3 z) (s4 z) (s5 z) (s0 y) (s1 y) (s2 y) (s3 y).
Definition byte3 (z w : sextet) : ascii :=
  Ascii (s0 w) (s1 w) (s2 w) (s3 w) (s4 w) (s5 w) (s0 z) (s1 z).

(** The decoder skips carriage returns and line feeds wherever they are. *)
Definition is_newline (c : ascii) : bool :=
  Ascii.eqb c "010"%char || Ascii.eqb c "013"%char.

Fixpoint stripNewlines (s : string) : string :=
  match s with
  | EmptyString => EmptyString
  | String c s' =>
      if is_newline c then stripNewlines s' else String c (stripNewlines s')
  end.

(** Quantum by quantum; padding is accepted in the last quantum only, and
    the bits a padded quantum leaves over are not checked (the encoding is
    not the strict one). *)
Fixpoint decodeQuanta (s : string) : option string :=
  match s with
  | EmptyString => Some EmptyString
  | String c1 (String c2 (String c3 (String c4 rest))) =>
      x ← decodeChar c1;
      y ← decodeChar c2;
      if Ascii.eqb c3 padChar then
        if Ascii.eqb c4 padChar && String.eqb rest "" then
          Some (String (byte1 x y) EmptyString)
        else None
      else
        z ← decodeChar c3;
        if Ascii.eqb c4 padChar then
          if String.eqb rest "" then
            Some (String (byte1 x y) (String (byte2 y z) EmptyString))
          else None
        else
          w ← decodeChar c4;
          tail ← decodeQuanta rest;
          Some (String (byte1 x y) (String (byte2 y z)
                 (String (byte3 z w) tail)))
  | _ => None
  end.

Definition DecodeString (s : string) : option string :=
  decodeQuanta (stripNewlines s).

End base64.

(** ** Package token: hmac.go *)
Module token.
Import base64.

(** Go's crypto/hmac with crypto/sha256 is taken as given:
    [hmacSHA256 key message] is the 32-byte tag [mac.Sum(nil)] after
    [mac.Write(message)]. *)
Class GoCrypto : Type := {
  hmacSHA256 : string -> string -> string;
}.

Record HMACToken : Type := { secret : string }.

Definition NewHMACToken (secret : string) : HMACToken :=
  {| secret := secret |}.

(** Instants and durations count nanoseconds; [t.Unix()] is the number of
    whole seconds, rounded down. *)
Definition Second : Z := 1000000000.
Definition Hour : Z := 3600 * Second.
Definition Unix (t : Z) : Z := t / Second.

Definition int64 (z : Z) : Prop := - 2 ^ 63 <= z < 2 ^ 63.

(** [%d] of an [int64]. *)
Definition formatInt (z : Z) : string := NilZero.string_of_int (Z.to_int z).

(** [strconv.ParseInt(s, 10, 64)]: an optional sign, then one or more
    decimal digits, the value within [int64]. *)
Definition ParseInt (s : string) : option Z :=
  match s with
  | EmptyString => None
  | String c rest =>
      let '(neg, digits) :=
        if Ascii.eqb c "+" then (false, rest)
        else if Ascii.eqb c "-" then (true, rest)
        else (false, s) in
      u ← NilZero.uint_of_string digits;
      let v := if neg then - Z.of_uint u else Z.of_uint u in
      if (- 2 ^ 63 <=? v) && (v <? 2 ^ 63) then Some v else None
  end.

(** The character [sep] occurs in [s]. *)
Fixpoint has (sep : ascii) (s : string) : bool :=
  match s with
  | EmptyString => false
  | String c s' => Ascii.eqb c sep || has sep s'
  end.

(** [strings.SplitN(s, sep, 2)] for a one-character separator: the text
    before and after the first separator, [None] when there is none (the
    result then has one part, not two). *)
Fixpoint SplitN2 (s : string) (sep : ascii) : option (string * string) :=
  match s with
  | EmptyString => None
  | String c s' =>
      if Ascii.eqb c sep then Some (EmptyString, s')
      else '(before, after) ← SplitN2 s' sep; Some (String c before, after)
  end.

Definition Sign `{GoCrypto} (h : HMACToken) (now : Z) (key : string)
    (expires : Z) : string :=
  let expiresAt := Unix (now + expires) in
  let payload := key +:+ ":" +:+ formatInt expiresAt in
  let encodedPayload := EncodeToString payload in
  let signature := EncodeToString (hmacSHA256 (secret h) encodedPayload) in
  encodedPayload +:+ "." +:+ signature.

Definition Verify `{GoCrypto} (h : HMACToken) (now : Z) (token : string)
    : result string :=
  match SplitN2 token "." with
  | None => Err (errorString "invalid token format")
  | Some (encodedPayload, providedSig) =>
      let expectedSig :=
        EncodeToString (hmacSHA256 (secret h) encodedPayload) in
      if negb (String.eqb providedSig expectedSig) then
        Err (errorString "invalid token signature")
      else
        match DecodeString encodedPayload with
        | None =>
            Err (wrapf "invalid token encoding"
                   (errorString "illegal base64 data"))
        | Some payload =>
            match SplitN2 payload ":" with
            | None => Err (errorString "invalid token payload")
            | Some (key, expiry) =>
                match ParseInt expiry with
                | None => Err (errorString "invalid expiration time")
                | Some expiresAt =>
                    if expiresAt <? Unix now then
                      Err (errorString "token expired")
                    else Ok key
                end
            end
        end
  end.

(** A stand-in for the tag function, to run the definitions: the tag is
    the key followed by the message. *)
Definition concatMAC : GoCrypto := {| hmacSHA256 k m := k +:+ m |}.

(** The characters a token is made of: they stand for themselves in a
    segment of a URL path. *)
Definition tokenChar (c : ascii) : bool :=
  domain.in_range "A" "Z" c || domain.in_range "a" "z" c
  || domain.in_range "0" "9" c || Ascii.eqb c "-" || Ascii.eqb c "_"
  || Ascii.eqb c "=" || Ascii.eqb c ".".

End token.

(** ** Package rabbitmq: the retry and dead-letter protocol *)
Module rabbitmq.

Definition ExchangeName : string := "aml.events".
Definition DLQExchangeName : string := "aml.dlq".
Definition MaxRetries : Z := 3.

(** The values of an [amqp.Table] that occur here, by dynamic type. *)
Inductive HeaderValue : Type :=
| VInt32 (n : Z)
| VInt64 (n : Z)
| VString (s : string)
| VTime (t : Z).

Abbreviation Table := (gmap string HeaderValue).

(** [amqp.Delivery], the fields the consumer reads.  [Headers] is [None]
    for a nil table. *)
Record Delivery : Type := {
  ContentType : string;
  Body : string;
  RoutingKey : string;
  Headers : option Table;
  Timestamp : Z;
}.

(** [amqp.Publishing] as the bus fills it in ([DeliveryMode] is always
    [amqp.Persistent]); a header table is [None] when the field is left
    out. *)
Record Publishing : Type := {
  PubContentType : string;
  PubBody : string;
  PubHeaders : option Table;
}.

(** One call of [channel.PublishWithContext] and what the broker said. *)
Record PublishCall : Type := {
  Exchange : string;
  Key : string;
  Msg : Publishing;
  Reply : option error;
}.

(** How the delivery was settled: [msg.Ack(false)] or
    [msg.Nack(false, requeue)]. *)
Inductive Settlement : Type :=
| Ack
| Nack (requeue : bool).

(** [int32] arithmetic wraps around. *)
Definition wrap32 (z : Z) : Z := (z + 2 ^ 31) mod 2 ^ 32 - 2 ^ 31.
Definition int32 (z : Z) : Prop := - 2 ^ 31 <= z < 2 ^ 31.

(** The retry counter of a delivery: header [x-retry-count] when it is
    there and holds an [int32], otherwise 0. *)
Definition retryCountOf (msg : Delivery) : Z :=
  match Headers msg with
  | Some headers =>
      match headers !! "x-retry-count" with
      | Some (VInt32 count) => count
      | _ => 0
      end
  | None => 0
  end.

Definition dlqHeaders (queueName : string) (msg : Delivery)
    (retryCount : Z) (err : error) : Table :=
  <["x-original-queue" := VString queueName]>
  (<["x-original-routing" := VString (RoutingKey msg)]>
  (<["x-retry-count" := VInt32 retryCount]>
  (<["x-last-error" := VString (Error err)]>
  (<["x-failed-timestamp" := VTime (Timestamp msg)]> ∅)))).

(** The publish to the dead-letter exchange: the message as it came,
    annotated. *)
Definition deadLetter (queueName : string) (msg : Delivery)
    (retryCount : Z) (err : error) (brokerReply : option error)
    : PublishCall :=
  {| Exchange := DLQExchangeName;
     Key := "";
     Msg := {| PubContentType := ContentType msg;
               PubBody := Body msg;
               PubHeaders := Some (dlqHeaders queueName msg retryCount err) |};
     Reply := brokerReply |}.

(** The publish that sends the message round again, with its counter. *)
Definition republish (msg : Delivery) (retryCount : Z)
    (brokerReply : option error) : PublishCall :=
  {| Exchange := ExchangeName;
     Key := RoutingKey msg;
     Msg := {| PubContentType := ContentType msg;
               PubBody := Body msg;
               PubHeaders :=
                 Some {["x-retry-count" := VInt32 retryCount]} |};
     Reply := brokerReply |}.

(** The body of the consumer loop for one delivery: [handled] is what
    [handler(msg.Body)] returned, [brokerReply] what the broker answers to
    the publish the consumer makes (if it makes one).  The result is the
    publish calls made, in order, and the settlement of the delivery. *)
Definition consume (queueName : string) (handled : option error)
    (brokerReply : option error) (msg : Delivery)
    : list PublishCall * Settlement :=
  match handled with
  | None => ([], Ack)
  | Some err =>
      let retryCount := retryCountOf msg in
      if MaxRetries <=? retryCount then
        ([deadLetter queueName msg retryCount err brokerReply],
         if brokerReply is Some _ then Nack false else Ack)
      else
        let retryCount := wrap32 (retryCount + 1) in
        ([republish msg retryCount brokerReply],
         if brokerReply is Some _ then Nack true else Ack)
  end.

(** *** The broker, as far as one subscribed queue sees it

    The queue's ready messages in order, the messages that reached the
    dead-letter queue, and the settlements so far.  The queue is bound to
    [routingKeys] on [ExchangeName] (none of the keys of this system holds
    a wildcard, so a key matches when it is one of them) and its
    dead-letter queue to the fanout exchange [DLQExchangeName]. *)
Record Broker : Type := {
  ready : list Delivery;
  deadLetters : list Publishing;
  settled : list (Delivery * Settlement);
}.

(** The delivery a queue hands out for an accepted publishing: the
    publishing sets no timestamp, so the delivery carries the zero time. *)
Definition deliver (key : string) (m : Publishing) : Delivery :=
  {| ContentType := PubContentType m;
     Body := PubBody m;
     RoutingKey := key;
     Headers := PubHeaders m;
     Timestamp := 0 |}.

Definition route (routingKeys : list string) (call : PublishCall)
    (b : Broker) : Broker :=
  match Reply call with
  | Some _ => b
  | None =>
      if String.eqb (Exchange call) DLQExchangeName then
        {| ready := ready b;
           deadLetters := deadLetters b ++ [Msg call];
           settled := settled b |}
      else if String.eqb (Exchange call) ExchangeName
              && bool_decide (Key call ∈ routingKeys) then
        {| ready := ready b ++ [deliver (Key call) (Msg call)];
           deadLetters := deadLetters b;
           settled := settled b |}
      else b
  end.

Definition settle (msg : Delivery) (how : Settlement) (b : Broker)
    : Broker :=
  {| ready := match how with
              | Nack true => msg :: ready b
              | _ => ready b
              end;
     deadLetters := deadLetters b;
     settled := settled b ++ [(msg, how)] |}.

(** One turn of the loop: the head of the queue is delivered (prefetch 1),
    the handler runs, the consumer publishes and settles. *)
Definition turn (queueName : string) (routingKeys : list string)
    (handled : option error) (brokerReply : option error) (b : Broker)
    : Broker :=
  match ready b with
  | [] => b
  | msg :: rest =>
      let '(calls, how) := consume queueName handled brokerReply msg in
      let b' := {| ready := rest; deadLetters := deadLetters b;
                   settled := settled b |} in
      settle msg how (foldl (λ acc call, route routingKeys call acc) b' calls)
  end.

(** The loop for a list of handler results, the broker accepting every
    publish. *)
Fixpoint turns (queueName : string) (routingKeys : list string)
    (results : list (option error)) (b : Broker) : Broker :=
  match results with
  | [] => b
  | handled :: results' =>
      turns queueName routingKeys results'
        (turn queueName routingKeys handled None b)
  end.

(** A message as [RabbitMQBus.Publish] sends it: no headers. *)
Definition fresh (key body : string) : Delivery :=
  {| ContentType := "application/json"; Body := body; RoutingKey := key;
     Headers := None; Timestamp := 0 |}.

(** The same message on its [n]-th round. *)
Definition retried (key body : string) (n : Z) : Delivery :=
  {| ContentType := "application/json"; Body := body; RoutingKey := key;
     Headers := Some {["x-retry-count" := VInt32 n]}; Timestamp := 0 |}.

(** A queue that holds one message and has settled nothing yet. *)
Definition holding (msg : Delivery) : Broker :=
  {| ready := [msg]; deadLetters := []; settled := [] |}.

(** The deliveries a message can still get before it is dead-lettered, and
    their sum over a queue. *)
Definition attemptsLeft (msg : Delivery) : Z :=
  MaxRetries + 1 - retryCountOf msg.

Definition attempts (msgs : list Delivery) : Z :=
  foldr (λ msg acc, attemptsLeft msg + acc) 0 msgs.

(** A message of the queue bound to [routingKeys] whose counter, if it has
    one, was set by this bus. *)
Definition inRounds (routingKeys : list string) (msg : Delivery) : Prop :=
  0 <= retryCountOf msg <= MaxRetries ∧ RoutingKey msg ∈ routingKeys.

(** The retry counter a dead letter carries. *)
Definition deadLetterCount (m : Publishing) : option HeaderValue :=
  PubHeaders m ≫= λ headers, headers !! "x-retry-count".

End rabbitmq.

(** ** Package application: the use cases *)
Module application.
Import domain.

(** [GeneratePDF] renders with the gofpdf library and stamps the clock on
    the page; the rendering is taken as given, as a function of its
    arguments and of the clock. *)
Class PDFRenderer : Type := {
  GeneratePDF : string -> string -> Z -> RiskLevel -> list string ->
                option SanctionsResult -> string -> Z -> result string;
}.

(** One call of [MessageBus.Publish] and the error it returned. *)
Record Published : Type := {
  PubKey : string;
  PubEvent : Event;
  PubReply : option error;
}.

(** The report storage the deployment is wired with, as [main] chooses it:
    the bucket when [OBJECT_STORAGE_ENABLED] is set, the local directory
    otherwise. *)
Class Config : Type := {
  objectStorageEnabled : bool;
}.

Definition localConfig : Config := {| objectStorageEnabled := false |}.
Definition minioConfig : Config := {| objectStorageEnabled := true |}.

(** What the use cases act on: the check repository, the report storage
    (the local directory and the bucket; the one that is not wired stays
    as it is) and the calls made on the message bus. *)
Record World : Type := {
  repo : gmap string AMLCheck;
  reports : storage.LocalStorage;
  bucket : storage.MinIOStorage;
  bus : list Published;
}.

(** What one execution of a use case reads from outside: the uuid and the
    clock at each place the code reads it, and the replies of the
    providers, of the file system, of the bus and of the billing hook. *)
Record Env : Type := {
  uuid : string;
  nowCreate : Z;
  nowRender : Z;
  nowPut : Z;
  nowMark : Z;
  eventID : string;
  nowEvent : Z;
  amlReply : result AMLResult;
  sanctionsReply : result SanctionsResult;
  writeReply : option storage.WriteFailure;
  publishReply : option error;
  billingReply : option error;
}.

(** The use cases thread the world and stop at the first error they
    return; what was changed before the error stays changed. *)
Definition M (A : Type) : Type := World -> result A * World.

#[global] Instance M_ret : MRet M := λ A a w, (Ok a, w).
#[global] Instance M_bind : MBind M := λ A B f m w,
  match m w with
  | (Ok a, w') => f a w'
  | (Err e, w') => (Err e, w')
  end.

Definition fail {A : Type} (e : error) : M A := λ w, (Err e, w).

(** [if err := call; err != nil { return fmt.Errorf(prefix+": %w", err) }] *)
Definition orWrap (prefix : string) (call : World -> option error * World)
    : M unit := λ w,
  match call w with
  | (None, w') => (Ok tt, w')
  | (Some e, w') => (Err (wrapf prefix e), w')
  end.

(** [x, err := call; if err != nil { return fmt.Errorf(prefix+": %w", err) }] *)
Definition wrapErr {A : Type} (prefix : string) (call : M A) : M A := λ w,
  match call w with
  | (Err e, w') => (Err (wrapf prefix e), w')
  | (Ok a, w') => (Ok a, w')
  end.

Definition repository_Get (checkID : string) : M (option AMLCheck) := λ w,
  (repositories.Get checkID (repo w), w).

Definition repository_Create (check : AMLCheck) (w : World)
    : option error * World :=
  let '(err, r) := repositories.Create check (repo w) in
  (err, {| repo := r; reports := reports w; bucket := bucket w;
          bus := bus w |}).

Definition repository_Update (check : AMLCheck) (w : World)
    : option error * World :=
  let '(err, r) := repositories.Update check (repo w) in
  (err, {| repo := r; reports := reports w; bucket := bucket w;
          bus := bus w |}).

(** A method with a pointer receiver called on the record that [Get]
    handed out: the record stored under [checkID] changes in place. *)
Definition mutate (checkID : string) (f : AMLCheck -> AMLCheck) : M unit :=
  λ w, (Ok tt, {| repo := alter f checkID (repo w);
                  reports := reports w; bucket := bucket w;
                  bus := bus w |}).

(** [u.reportStorage.Put]: the call goes to the adapter that is wired. *)
Definition reportStorage_Put `{Config} (env : Env) (key data : string)
    (ttl : Z) (w : World) : option error * World :=
  if objectStorageEnabled then
    let '(err, s) :=
      storage.MinIOStorage_Put (writeReply env) (nowPut env) key data ttl
        (bucket w) in
    (err, {| repo := repo w; reports := reports w; bucket := s;
             bus := bus w |})
  else
    let '(err, s) :=
      storage.Put (writeReply env) (nowPut env) key data ttl (reports w) in
    (err, {| repo := repo w; reports := s; bucket := bucket w;
             bus := bus w |}).

Definition messageBus_Publish (env : Env) (routingKey : string)
    (event : Event) (w : World) : option error * World :=
  (publishReply env,
   {| repo := repo w; reports := reports w; bucket := bucket w;
      bus := bus w ++ [{| PubKey := routingKey; PubEvent := event;
                          PubReply := publishReply env |}] |}).

(** The billing hook acts outside the world of the use cases. *)
Definition billingHook_OnCheckCompleted (env : Env) (check : AMLCheck)
    (w : World) : option error * World :=
  (billingReply env, w).

(** [if err := call; err != nil { log }]: the error is dropped. *)
Definition logErr (call : World -> option error * World) : M unit := λ w,
  (Ok tt, (call w).2).

(** *** handle_check_failed.go *)
Definition HandleCheckFailed_Execute (env : Env)
    (checkID errorMessage : string) : M unit :=
  check ← wrapErr "failed to get check" (repository_Get checkID);
  match check with
  | None => fail (errorString "check not found")
  | Some c =>
      mutate checkID (MarkFailed errorMessage (nowMark env));;
      orWrap "failed to update check"
        (repository_Update (MarkFailed errorMessage (nowMark env) c))
  end.

(** *** generate_report.go *)
(** [len(pdfData) < 1024 || string(pdfData[:4]) != "%PDF"] *)
Definition invalidPDF (pdfData : string) : bool :=
  (len pdfData <? 1024) || negb (String.eqb (substring 0 4 pdfData) "%PDF").

Definition GenerateReport_Execute `{PDFRenderer} `{Config} (reportTTL : Z)
    (env : Env) (checkID : string) (riskScore : Z) (riskLevel : RiskLevel)
    (categories : list string) (sanctions : option SanctionsResult)
    : M unit :=
  check ← wrapErr "failed to get check" (repository_Get checkID);
  match check with
  | None => fail (errorString "check not found")
  | Some c =>
      match GeneratePDF (Address c) (Currency c) riskScore riskLevel
              categories sanctions checkID (nowRender env) with
      | Err e => fail (wrapf "failed to generate pdf" e)
      | Ok pdfData =>
          if invalidPDF pdfData then
            fail (errorString "invalid pdf generated")
          else
            let reportKey := checkID +:+ ".pdf" in
            let mark := MarkCompleted riskScore riskLevel categories
                          sanctions reportKey (nowMark env) in
            orWrap "failed to store report"
              (reportStorage_Put env reportKey pdfData reportTTL);;
            mutate checkID mark;;
            orWrap "failed to update check" (repository_Update (mark c));;
            let event := NewEvent (eventID env) (nowEvent env)
                           EventAMLReportReady
                           (AMLReportReadyPayload checkID reportKey) in
            logErr (messageBus_Publish env EventAMLReportReady event);;
            logErr (billingHook_OnCheckCompleted env (mark c));;
            mret tt
      end
  end.

(** *** process_aml_check.go *)
Definition publishFailedEvent (env : Env) (checkID errorMessage : string)
    : M unit :=
  let event := NewEvent (eventID env) (nowEvent env) EventAMLCheckFailed
                 (AMLCheckFailedPayload checkID errorMessage) in
  orWrap "failed to publish failed event"
    (messageBus_Publish env EventAMLCheckFailed event);;
  fail (errorString errorMessage).

Definition ProcessAMLCheck_Execute (env : Env)
    (checkID address currency : string) : M unit :=
  match amlReply env with
  | Err err =>
      publishFailedEvent env checkID ("AML check failed: " +:+ Error err)
  | Ok amlResult =>
      let sanctionsResult :=
        match sanctionsReply env with
        | Err _ => emptySanctions
        | Ok r => r
        end in
      let event := NewEvent (eventID env) (nowEvent env)
                     EventAMLCheckCompleted
                     (AMLCheckCompletedPayload checkID
                        (ResRiskScore amlResult) (ResRiskLevel amlResult)
                        (ResCategories amlResult) (Some sanctionsResult)) in
      orWrap "failed to publish completed event"
        (messageBus_Publish env EventAMLCheckCompleted event)
  end.

(** *** check_address.go: the intake step *)
Definition CheckAddress_Execute `{GoStrings} (assets : gmap string Asset)
    (checkTTL : Z) (env : Env) (address currency : string) : M string :=
  match AssetRegistry_Get assets currency with
  | Err err => fail err
  | Ok asset =>
      let normalizedAddress := NormalizeAddress asset address in
      match ValidateAddress asset normalizedAddress with
      | Some err => fail (wrapf "invalid address" err)
      | None =>
          let check := NewAMLCheck (uuid env) (nowCreate env)
                         normalizedAddress (Symbol asset) checkTTL in
          orWrap "failed to create check" (repository_Create check);;
          let event := NewEvent (eventID env) (nowEvent env)
                         EventAMLCheckRequested
                         (AMLCheckRequestedPayload (ID check)
                            normalizedAddress (Symbol asset)) in
          orWrap "failed to publish event"
            (messageBus_Publish env EventAMLCheckRequested event);;
          mret (ID check)
      end
  end.

(** A rendering for the examples: a page of the right signature and
    size, whatever is asked. *)
Fixpoint filler (n : nat) : string :=
  match n with
  | O => EmptyString
  | S n' => String "x" (filler n')
  end.

Definition stubRenderer : PDFRenderer :=
  {| GeneratePDF _ _ _ _ _ _ _ _ := Ok ("%PDF" +:+ filler 1020) |}.

(** An execution in which everything outside answers well. *)
Definition quietEnv : Env :=
  {| uuid := "c-1"; nowCreate := 10; nowRender := 20; nowPut := 21;
     nowMark := 22; eventID := "e-1"; nowEvent := 23;
     amlReply := Ok {| ResRiskScore := 85; ResRiskLevel := "Critical";
                       ResCategories := ["Darknet"; "Mixer"] |};
     sanctionsReply := Ok emptySanctions;
     writeReply := None; publishReply := None; billingReply := None |}.

(** An execution a day later. *)
Definition nextDayEnv : Env :=
  {| uuid := "c-2"; nowCreate := gotime.Day + 10;
     nowRender := gotime.Day + 20; nowPut := gotime.Day + 21;
     nowMark := gotime.Day + 22; eventID := "e-2";
     nowEvent := gotime.Day + 23;
     amlReply := Ok {| ResRiskScore := 85; ResRiskLevel := "Critical";
                       ResCategories := ["Darknet"; "Mixer"] |};
     sanctionsReply := Ok emptySanctions;
     writeReply := None; publishReply := None; billingReply := None |}.

(** An execution in which the disk is full: the file is opened, and
    truncated, and nothing is written. *)
Definition diskFullEnv : Env :=
  {| uuid := "c-1"; nowCreate := 10; nowRender := 20; nowPut := 21;
     nowMark := 22; eventID := "e-1"; nowEvent := 23;
     amlReply := Ok {| ResRiskScore := 85; ResRiskLevel := "Critical";
                       ResCategories := ["Darknet"; "Mixer"] |};
     sanctionsReply := Ok emptySanctions;
     writeReply :=
       Some {| storage.writeError := errorString "no space left on device";
               storage.written := Some 0%nat |};
     publishReply := None; billingReply := None |}.

Definition emptyWorld : World :=
  {| repo := ∅;
     reports := {| storage.files := ∅; storage.metadata := ∅ |};
     bucket := {| storage.objects := ∅ |};
     bus := [] |}.

(** The world in which intake has stored one check, ["c-1"]. *)
Definition oneCheck : World :=
  {| repo := {[ "c-1" := NewAMLCheck "c-1" 10 "bc1q" "BTC" 1000 ]};
     reports := {| storage.files := ∅; storage.metadata := ∅ |};
     bucket := {| storage.objects := ∅ |};
     bus := [] |}.

(** The check ["c-1"] after the report step: Completed, expiring at 1010. *)
Definition doneCheck : AMLCheck :=
  MarkCompleted 85 "Critical" ["Darknet"; "Mixer"] (Some emptySanctions)
    "c-1.pdf" 22 (NewAMLCheck "c-1" 10 "bc1q" "BTC" 1000).

Definition doneWorld : World :=
  {| repo := {[ "c-1" := doneCheck ]};
     reports := {| storage.files := ∅; storage.metadata := ∅ |};
     bucket := {| storage.objects := ∅ |};
     bus := [] |}.

(** *** The operations on the world

    What changes the world of the use cases: the four use cases that
    write, and the two sweeps of the cleanup loops. *)
Inductive Operation : Type :=
| Intake (env : Env) (address currency : string)
| RiskStep (env : Env) (checkID address currency : string)
| ReportStep (env : Env) (checkID : string) (riskScore : Z)
    (riskLevel : RiskLevel) (categories : list string)
    (sanctions : option SanctionsResult)
| FailureStep (env : Env) (checkID errorMessage : string)
| SweepChecks (now : Z)
| SweepReports (removeReply : string -> option error) (now : Z).

Definition isSweep (op : Operation) : bool :=
  match op with
  | SweepChecks _ | SweepReports _ _ => true
  | _ => false
  end.

Definition perform `{GoStrings} `{PDFRenderer} `{Config}
    (assets : gmap string Asset) (checkTTL reportTTL : Z) (w : World)
    (op : Operation) : World :=
  match op with
  | Intake env address currency =>
      (CheckAddress_Execute assets checkTTL env address currency w).2
  | RiskStep env checkID address currency =>
      (ProcessAMLCheck_Execute env checkID address currency w).2
  | ReportStep env checkID riskScore riskLevel categories sanctions =>
      (GenerateReport_Execute reportTTL env checkID riskScore riskLevel
         categories sanctions w).2
  | FailureStep env checkID errorMessage =>
      (HandleCheckFailed_Execute env checkID errorMessage w).2
  | SweepChecks now =>
      {| repo := (repositories.CleanupExpired now (repo w)).2;
         reports := reports w; bucket := bucket w; bus := bus w |}
  | SweepReports removeReply now =>
      {| repo := repo w;
         reports := (storage.CleanupExpired removeReply now (reports w)).2;
         bucket := bucket w; bus := bus w |}
  end.

(** What a record is a record of: its id, the address and the currency,
    and when it was created and when it expires. *)
Definition sameIdentity (c c' : AMLCheck) : Prop :=
  ID c' = ID c ∧ Address c' = Address c ∧ Currency c' = Currency c
  ∧ CreatedAt c' = CreatedAt c ∧ ExpiresAt c' = ExpiresAt c.

(** *** get_check_status.go *)
Definition GetCheckStatus_Execute (now : Z) (checkID : string)
    : M AMLCheck :=
  check ← wrapErr "failed to get check" (repository_Get checkID);
  match check with
  | None => fail (errorString "check not found")
  | Some c =>
      if IsExpired now c then fail (errorString "check expired")
      else mret c
  end.

End application.

(** ** Package http: handlers.go and dto.go *)
Module http.
Import domain application token.

Record CheckAddressRequest : Type := {
  ReqAddress : string;
  ReqCurrency : string;
}.

Record SanctionsIdentificationDTO : Type := {
  DTOCategory : string;
  DTOName : string;
  DTOURL : string;
}.

Record SanctionsResponseDTO : Type := {
  DTOHit : bool;
  DTOIdentifications : list SanctionsIdentificationDTO;
}.

(** The three JSON bodies the handlers write. *)
Inductive ResponseBody : Type :=
| CheckAddressResponse (Status : string) (RiskScore : Z)
    (RiskLevel : string) (Categories : list string)
    (Sanctions : SanctionsResponseDTO) (PDFURL : string)
| CheckAddressAcceptedResponse (Status Message PollURL : string)
| ErrorResponse (Error : string).

Record Response : Type := {
  StatusCode : Z;
  Written : ResponseBody;
}.

Definition StatusOK : Z := 200.
Definition StatusAccepted : Z := 202.
Definition StatusBadRequest : Z := 400.
Definition StatusNotFound : Z := 404.
Definition StatusGone : Z := 410.
Definition StatusInternalServerError : Z := 500.
Definition StatusBadGateway : Z := 502.

Definition ToSanctionsDTO (sanctions : option SanctionsResult)
    : SanctionsResponseDTO :=
  match sanctions with
  | None => {| DTOHit := false; DTOIdentifications := [] |}
  | Some r =>
      {| DTOHit := Hit r;
         DTOIdentifications :=
           (λ ident, {| DTOCategory := Category ident;
                        DTOName := Name ident;
                        DTOURL := URL ident |}) <$> Identifications r |}
  end.

(** The handlers' configuration; the two use cases they hold are given by
    the asset registry and the check lifetime. *)
Record Handlers : Type := {
  assetRegistry : gmap string Asset;
  checkTTL : Z;
  tokenProvider : HMACToken;
  checkWaitSeconds : Z;
  apiURL : string;
}.

Definition respondJSON (status : Z) (data : ResponseBody) : Response :=
  {| StatusCode := status; Written := data |}.

Definition respondError (status : Z) (message : string) : Response :=
  respondJSON status (ErrorResponse message).

(** [signNow] is the clock read by [Sign]. *)
Definition respondCheckResult `{GoCrypto} (h : Handlers) (signNow : Z)
    (check : AMLCheck) : Response :=
  let token := Sign (tokenProvider h) signNow (ReportKey check)
                 (24 * Hour) in
  let pdfURL := apiURL h +:+ "/v1/report/" +:+ token in
  respondJSON StatusOK
    (CheckAddressResponse "success" (RiskScore check) (RiskLevelOf check)
       (Categories check) (ToSanctionsDTO (Sanctions check)) pdfURL).

Definition pollURL (h : Handlers) (checkID : string) : string :=
  apiURL h +:+ "/v1/check-address/" +:+ checkID.

(** One firing of the ticker that the [select] takes: the state of the
    system at that moment (the workers run beside the handler) and the
    clock as the status use case and [Sign] read it. *)
Record Tick : Type := {
  tickWorld : World;
  tickNow : Z;
  tickSignNow : Z;
}.

(** The bounded wait of [CheckAddress]: [ticks] are the ticker firings
    taken before [ctx.Done()] is; when they are used up the deadline has
    passed. *)
Fixpoint awaitCompletion `{GoCrypto} (h : Handlers) (checkID : string)
    (ticks : list Tick) : Response :=
  match ticks with
  | [] =>
      respondJSON StatusAccepted
        (CheckAddressAcceptedResponse "processing"
           "Check is being processed. Use the poll_url to check status."
           (pollURL h checkID))
  | t :: ticks' =>
      match (GetCheckStatus_Execute (tickNow t) checkID (tickWorld t)).1 with
      | Err _ => awaitCompletion h checkID ticks'
      | Ok check =>
          match Status check with
          | StatusCompleted => respondCheckResult h (tickSignNow t) check
          | StatusFailed =>
              respondError StatusBadGateway
                ("AML check failed: " +:+ ErrorMessage check)
          | StatusProcessing => awaitCompletion h checkID ticks'
          end
      end
  end.

(** A poll that lets the wait go on: the status use case failed, or the
    check it returned is still in Processing. *)
Definition pending (checkID : string) (t : Tick) : bool :=
  match (GetCheckStatus_Execute (tickNow t) checkID (tickWorld t)).1 with
  | Err _ => true
  | Ok check => bool_decide (Status check = StatusProcessing)
  end.

Definition accepted (h : Handlers) (checkID message : string) : Response :=
  respondJSON StatusAccepted
    (CheckAddressAcceptedResponse "processing" message (pollURL h checkID)).

(** Handlers for the examples. *)
Definition localHandlers : Handlers :=
  {| assetRegistry := NewDefaultAssetRegistry; checkTTL := 1000;
     tokenProvider := NewHMACToken "secret"; checkWaitSeconds := 20;
     apiURL := "http://localhost:8080" |}.

(** The request as the JSON decoder and the validator leave it. *)
Inductive Decoded : Type :=
| BadBody
| Invalid (why : string)
| Valid (req : CheckAddressRequest).

(** [CheckAddress]: the response, and the world as intake leaves it. *)
Definition CheckAddress `{GoStrings} `{GoCrypto} (h : Handlers) (env : Env)
    (decoded : Decoded) (ticks : list Tick) (w : World)
    : Response * World :=
  match decoded with
  | BadBody => (respondError StatusBadRequest "invalid request body", w)
  | Invalid why =>
      (respondError StatusBadRequest ("validation failed: " +:+ why), w)
  | Valid req =>
      match CheckAddress_Execute (assetRegistry h) (checkTTL h) env
              (ReqAddress req) (ReqCurrency req) w with
      | (Err err, w') =>
          if errors_Is err ErrInvalidAddress
             || errors_Is err ErrUnsupportedCurrency
          then (respondError StatusBadRequest (Error err), w')
          else (respondError StatusInternalServerError
                  "failed to initiate check", w')
      | (Ok checkID, w') => (awaitCompletion h checkID ticks, w')
      end
  end.

(** [strings.Contains] *)
Fixpoint Contains (s substr : string) : bool :=
  String.prefix substr s
  || match s with
     | EmptyString => false
     | String _ s' => Contains s' substr
     end.

(** [GetCheckStatus]: [checkID] is the [check_id] parameter of the route. *)
Definition GetCheckStatus `{GoCrypto} (h : Handlers) (now signNow : Z)
    (checkID : string) (w : World) : Response :=
  if String.eqb checkID "" then
    respondError StatusBadRequest "check_id is required"
  else
    match (GetCheckStatus_Execute now checkID w).1 with
    | Err err =>
        if Contains (Error err) "not found" then
          respondError StatusNotFound "check not found"
        else if Contains (Error err) "expired" then
          respondError StatusGone "check expired"
        else
          respondError StatusInternalServerError
            "failed to get check status"
    | Ok check =>
        match Status check with
        | StatusProcessing =>
            respondJSON StatusAccepted
              (CheckAddressAcceptedResponse "processing"
                 "Check is being processed." (pollURL h checkID))
        | StatusFailed =>
            respondError StatusInternalServerError
              ("check failed: " +:+ ErrorMessage check)
        | StatusCompleted => respondCheckResult h signNow check
        end
    end.

Definition StatusFound : Z := 302.

(** What [GetReport] writes: a redirect, the report itself, or one of the
    JSON error bodies. *)
Inductive ReportResponse : Type :=
| Redirected (location : string)
| Streamed (filename data : string)
| Refused (r : Response).

(** [GetReport]: [tokenStr] is the [token] parameter of the route,
    [verifyNow] and [getNow] the clock as [Verify] and the storage read
    it, [readErr] the error of reading the file, if any. *)
Definition GetReport `{GoCrypto} (h : Handlers) (verifyNow getNow : Z)
    (readErr : option error) (tokenStr : string)
    (s : storage.LocalStorage) : ReportResponse :=
  if String.eqb tokenStr "" then
    Refused (respondError StatusBadRequest "token is required")
  else
    match Verify (tokenProvider h) verifyNow tokenStr with
    | Err err =>
        if Contains (Error err) "expired" then
          Refused (respondError StatusGone "report link expired")
        else Refused (respondError StatusBadRequest "invalid token")
    | Ok reportKey =>
        let stream :=
          match storage.Get readErr getNow reportKey s with
          | Err err =>
              if Contains (Error err) "not found" then
                Refused (respondError StatusNotFound "report not found")
              else if Contains (Error err) "expired" then
                Refused (respondError StatusGone "report expired")
              else
                Refused (respondError StatusInternalServerError
                           "failed to get report")
          | Ok data => Streamed reportKey data
          end in
        match storage.PresignGet reportKey (5 * 60 * Second) with
        | Ok presignedURL =>
            if negb (String.eqb presignedURL "") then Redirected presignedURL
            else stream
        | Err _ => stream
        end
    end.

End http.

(** ** Package providers *)
Module providers.
Import domain.

(** *** mock_aml.go *)
Definition MockAMLProvider_CheckAddress (address currency : string)
    : result AMLResult :=
  let score := 10 + len address mod 80 in
  let riskLevel := DeriveRiskLevel score in
  let categories :=
    (if 60 <=? score then ["High Risk Exchange"] else [])
    ++ (if 80 <=? score then ["Darknet"; "Mixer"] else []) in
  Ok {| ResRiskScore := score; ResRiskLevel := riskLevel;
        ResCategories := categories |}.

(** What the HTTP client brought back: the status, the body as
    [io.ReadAll] reads it, and the body as the JSON decoder reads it. *)
Record HTTPResponse (A : Type) : Type := {
  RespStatus : Z;
  RespBody : string;
  RespDecoded : result A;
}.
Arguments RespStatus {A} _.
Arguments RespBody {A} _.
Arguments RespDecoded {A} _.




(** *** amlbot.go *)
Record AMLBotResponse : Type := {
  BotRiskScore : Z;
  BotRiskLevel : string;
  BotCategories : list string;
}.

Definition AMLBotProvider_CheckAddress (requestErr : option error)
    (reply : result (HTTPResponse AMLBotResponse))
    (address currency : string) : result AMLResult :=
  match requestErr with
  | Some err => Err (wrapf "failed to create request" err)
  | None =>
      match reply with
      | Err err => Err (wrapf "failed to execute request" err)
      | Ok resp =>
          if negb (RespStatus resp =? 200) then
            Err (errorString ("amlbot returned status "
                              +:+ token.formatInt (RespStatus resp)
                              +:+ ": " +:+ RespBody resp))
          else
            match RespDecoded resp with
            | Err err => Err (wrapf "failed to decode response" err)
            | Ok amlbotResp =>
                let riskLevel :=
                  if String.eqb (BotRiskLevel amlbotResp) ""
                  then DeriveRiskLevel (BotRiskScore amlbotResp)
                  else BotRiskLevel amlbotResp in
                Ok {| ResRiskScore := BotRiskScore amlbotResp;
                      ResRiskLevel := riskLevel;
                      ResCategories := BotCategories amlbotResp |}
            end
      end
  end.

End providers.

(** ** Package workers *)
Module workers.
Import domain application.

(** An event as [json.Unmarshal] leaves it in a [domain.Event]: the
    payload is still untyped. *)
Record Envelope (P : Type) : Type := {
  EnvID : string;
  EnvType : string;
  EnvTimestamp : Z;
  EnvPayload : P;
}.
Arguments EnvID {P} _.
Arguments EnvType {P} _.
Arguments EnvTimestamp {P} _.
Arguments EnvPayload {P} _.

(** Go's encoding/json is taken as given: decoding a body into an event,
    and passing an untyped payload through [json.Marshal] and
    [json.Unmarshal] into one of the payload structs (either step can
    fail, and the handlers return the error of the one that did). *)
Class GoJSON : Type := {
  RawPayload : Type;
  UnmarshalEvent : string -> result (Envelope RawPayload);
  decodeRequested : RawPayload -> result (string * string * string);
  decodeCompleted :
    RawPayload ->
    result (string * Z * RiskLevel * list string * option SanctionsResult);
  decodeFailed : RawPayload -> result (string * string);
}.

Definition QueueAMLRequests : string := "q_aml_requests".
Definition QueueReportJobs : string := "q_report_jobs".

(** The routing keys the two workers subscribe with. *)
Definition AMLWorker_routingKeys : list string := [EventAMLCheckRequested].
Definition ReportWorker_routingKeys : list string :=
  [EventAMLCheckCompleted; EventAMLCheckFailed].

(** *** aml_worker.go *)
Definition handleAMLCheckRequested `{GoJSON} (env : Env)
    (event : Envelope RawPayload) : M unit :=
  match decodeRequested (EnvPayload event) with
  | Err err => fail err
  | Ok (checkID, address, currency) =>
      ProcessAMLCheck_Execute env checkID address currency
  end.

Definition AMLWorker_handleMessage `{GoJSON} (env : Env) (body : string)
    : M unit :=
  match UnmarshalEvent body with
  | Err err => fail err
  | Ok event =>
      if String.eqb (EnvType event) EventAMLCheckRequested
      then handleAMLCheckRequested env event
      else mret tt
  end.

(** *** report_worker.go *)
Definition handleAMLCheckCompleted `{GoJSON} `{PDFRenderer} `{Config}
    (reportTTL : Z) (env : Env) (event : Envelope RawPayload) : M unit :=
  match decodeCompleted (EnvPayload event) with
  | Err err => fail err
  | Ok (checkID, riskScore, riskLevel, categories, sanctions) =>
      GenerateReport_Execute reportTTL env checkID riskScore riskLevel
        categories sanctions
  end.

Definition handleAMLCheckFailed `{GoJSON} (env : Env)
    (event : Envelope RawPayload) : M unit :=
  match decodeFailed (EnvPayload event) with
  | Err err => fail err
  | Ok (checkID, errorMessage) =>
      HandleCheckFailed_Execute env checkID errorMessage
  end.

Definition ReportWorker_handleMessage `{GoJSON} `{PDFRenderer} `{Config}
    (reportTTL : Z) (env : Env) (body : string) : M unit :=
  match UnmarshalEvent body with
  | Err err => fail err
  | Ok event =>
      if String.eqb (EnvType event) EventAMLCheckCompleted
      then handleAMLCheckCompleted reportTTL env event
      else if String.eqb (EnvType event) EventAMLCheckFailed
      then handleAMLCheckFailed env event
      else mret tt
  end.

(** *** A worker behind its queue

    One turn of the consumer loop of [Subscribe] with the handler a worker
    subscribed: the handler runs on the body of the head of the queue, in
    the world as it is, and its error (if any) decides how the delivery is
    settled.  What the handler publishes goes to the bus log of the world;
    none of it is routed to the worker's own queue, whose keys are the
    event types it consumes, not the ones it emits. *)
Definition errorOf (r : result unit) : option error :=
  match r with
  | Ok _ => None
  | Err e => Some e
  end.

Definition serve (queueName : string) (routingKeys : list string)
    (handler : string -> M unit) (brokerReply : option error)
    (s : rabbitmq.Broker * World) : rabbitmq.Broker * World :=
  match rabbitmq.ready s.1 with
  | [] => s
  | msg :: _ =>
      let out := handler (rabbitmq.Body msg) s.2 in
      (rabbitmq.turn queueName routingKeys (errorOf out.1) brokerReply s.1,
       out.2)
  end.

(** The loop for a list of handlers (one per turn, each with the replies
    of the outside world of its turn), the broker accepting. *)
Fixpoint serves (queueName : string) (routingKeys : list string)
    (handlers : list (string -> M unit)) (s : rabbitmq.Broker * World)
    : rabbitmq.Broker * World :=
  match handlers with
  | [] => s
  | handler :: handlers' =>
      serves queueName routingKeys handlers'
        (serve queueName routingKeys handler None s)
  end.

(** The event the risk worker publishes in a turn whose risk provider
    failed with [err]. *)
Definition failedEvent (checkID : string) (env : Env) (err : error)
    (p : Published) : Prop :=
  PubKey p = EventAMLCheckFailed
  ∧ EventID (PubEvent p) = eventID env
  ∧ Type_ (PubEvent p) = EventAMLCheckFailed
  ∧ Timestamp (PubEvent p) = nowEvent env
  ∧ EventPayload (PubEvent p)
    = AMLCheckFailedPayload checkID ("AML check failed: " +:+ Error err)
  ∧ PubReply p = publishReply env.

(** A stand-in for the decoder, to run the definitions: it knows the
    request for check ["c-1"] and the result for check ["c-9"], and takes
    every other body for broken. *)
Definition sampleJSON : GoJSON :=
  {| RawPayload := Payload;
     UnmarshalEvent body :=
       if String.eqb body "requested c-1" then
         Ok {| EnvID := "e-0"; EnvType := EventAMLCheckRequested;
               EnvTimestamp := 11;
               EnvPayload := AMLCheckRequestedPayload "c-1" "bc1q" "BTC" |}
       else if String.eqb body "completed c-9" then
         Ok {| EnvID := "e-9"; EnvType := EventAMLCheckCompleted;
               EnvTimestamp := 12;
               EnvPayload :=
                 AMLCheckCompletedPayload "c-9" 85 "Critical" [] None |}
       else Err (errorString "unexpected end of JSON input");
     decodeRequested p :=
       match p with
       | AMLCheckRequestedPayload checkID address currency =>
           Ok (checkID, address, currency)
       | _ => Err (errorString "json: cannot unmarshal")
       end;
     decodeCompleted p :=
       match p with
       | AMLCheckCompletedPayload checkID score level cats sanc =>
           Ok (checkID, score, level, cats, sanc)
       | _ => Err (errorString "json: cannot unmarshal")
       end;
     decodeFailed p :=
       match p with
       | AMLCheckFailedPayload checkID msg => Ok (checkID, msg)
       | _ => Err (errorString "json: cannot unmarshal")
       end |}.

(** An execution in which the risk provider is down. *)
Definition outageEnv : Env :=
  {| uuid := "c-1"; nowCreate := 10; nowRender := 20; nowPut := 21;
     nowMark := 22; eventID := "e-1"; nowEvent := 23;
     amlReply := Err (errorString "connection refused");
     sanctionsReply := Ok emptySanctions;
     writeReply := None; publishReply := None; billingReply := None |}.

End workers.

(** ** Properties *)

Import domain repositories application.

(** *** The risk level *)
Section DeriveRiskLevelProps.

(** C9: the risk level is a function of the score alone, with the bands
    below 30 Low, 30..59 Medium, 60..79 High, 80 and above Critical; each
    boundary belongs to the band above it. *)
Theorem DeriveRiskLevel_bands (score : Z) :
  DeriveRiskLevel score =
    (if decide (score < 30) then RiskLevelLow
     else if decide (score <= 59) then RiskLevelMedium
     else if decide (score <= 79) then RiskLevelHigh
     else RiskLevelCritical)
  /\ DeriveRiskLevel 30 = RiskLevelMedium
  /\ DeriveRiskLevel 60 = RiskLevelHigh
  /\ DeriveRiskLevel 80 = RiskLevelCritical
  /\ DeriveRiskLevel 29 = RiskLevelLow
  /\ DeriveRiskLevel 59 = RiskLevelMedium
  /\ DeriveRiskLevel 79 = RiskLevelHigh.
Proof.
  split; [| repeat split; reflexivity].
  unfold DeriveRiskLevel.
  repeat case_decide; repeat (case_match; try lia); reflexivity.
Qed.

End DeriveRiskLevelProps.

(** *** The check registry *)
Section RegistryProps.

Lemma difference_insert_delete (m1 m2 : Registry) i x :
  m1 ∖ <[i:=x]> m2 = delete i (m1 ∖ m2).
Proof.
  apply map_eq. intros j.
  destruct (decide (i = j)) as [->|Hne].
  - rewrite lookup_delete_eq. apply lookup_difference_None.
    right. rewrite lookup_insert_eq. eauto.
  - rewrite lookup_delete_ne by done.
    rewrite !lookup_difference, lookup_insert_ne by done. done.
Qed.

(** The loop of the sweep, from any accumulator: the entries of [m] that
    are past their expiry are taken out and counted. *)
Lemma sweep_fold now (base : Registry) (k : Z) (m : Registry) :
  map_fold (sweep now) (base, k) m
  = (base ∖ filter (expiredAt now) m,
     k + Z.of_nat (size (filter (expiredAt now) m))).
Proof.
  apply (map_fold_weak_ind
           (λ acc m, acc = (base ∖ filter (expiredAt now) m,
                            k + Z.of_nat (size (filter (expiredAt now) m))))).
  - rewrite map_filter_empty, map_difference_empty, map_size_empty.
    f_equal. lia.
  - intros i x m' acc Hi ->. unfold sweep. simpl.
    destruct (Z.ltb_spec (ExpiresAt x) now) as [Hlt|Hge].
    + rewrite map_filter_insert_True by exact Hlt.
      rewrite difference_insert_delete.
      rewrite map_size_insert_None
        by (apply map_lookup_filter_None; left; exact Hi).
      f_equal. lia.
    + rewrite map_filter_insert_not'; [done | | ].
      * unfold expiredAt. simpl. lia.
      * intros y Hy. congruence.
Qed.

Lemma difference_filter (P : string * AMLCheck → Prop)
    `{!∀ e, Decision (P e)} (r : Registry) :
  r ∖ filter P r = filter (λ e, ¬ P e) r.
Proof.
  apply map_eq. intros i. rewrite lookup_difference.
  destruct (r !! i) as [c|] eqn:Hc.
  - destruct (decide (P (i, c))) as [HP|HP].
    + rewrite (proj2 (map_lookup_filter_Some P r i c)) by done.
      symmetry. apply map_lookup_filter_None. right. intros c' Hc'.
      rewrite Hc in Hc'. injection Hc' as <-. tauto.
    + rewrite (proj2 (map_lookup_filter_None P r i)).
      * symmetry. by apply map_lookup_filter_Some.
      * right. intros c' Hc'. rewrite Hc in Hc'. by injection Hc' as <-.
  - destruct (filter P r !! i); symmetry;
      apply map_lookup_filter_None; by left.
Qed.

(** Every operation of the registry keeps each record under its own id. *)
Lemma keyed_preserved (check : AMLCheck) (now : Z) (r : Registry) :
  keyed r →
  keyed (Create check r).2 ∧ keyed (Update check r).2
  ∧ keyed (CleanupExpired now r).2.
Proof.
  intros Hr. unfold Create, Update. repeat split.
  - destruct (r !! ID check); simpl; [done |].
    intros id c [[<- <-]|[_ Hc]]%lookup_insert_Some; eauto.
  - destruct (r !! ID check); simpl; [| done].
    intros id c [[<- <-]|[_ Hc]]%lookup_insert_Some; eauto.
  - unfold CleanupExpired. rewrite sweep_fold. simpl.
    intros id c [Hc _]%lookup_difference_Some. eauto.
Qed.

(** C4, as the code has it: [CleanupExpired now] removes exactly the
    records whose expiry is strictly before [now], keeps every other record
    as it was (so a record that expires at [now] itself stays), and returns
    the number of records it removed. *)
Theorem CleanupExpired_strict (now : Z) (r : Registry) :
  CleanupExpired now r
  = (Z.of_nat (size (filter (expiredAt now) r)),
     filter (λ entry, ¬ expiredAt now entry) r)
  ∧ (∀ id, (CleanupExpired now r).2 !! id
           = c ← r !! id; if ExpiresAt c <? now then None else Some c)
  ∧ (CleanupExpired now r).1
    = Z.of_nat (size r) - Z.of_nat (size (CleanupExpired now r).2).
Proof.
  assert (Heq : CleanupExpired now r
                = (Z.of_nat (size (filter (expiredAt now) r)),
                   filter (λ entry, ¬ expiredAt now entry) r)).
  { unfold CleanupExpired. rewrite sweep_fold. simpl.
    by rewrite difference_filter. }
  split; [exact Heq | split].
  - intros id. rewrite Heq. simpl. rewrite map_lookup_filter.
    destruct (r !! id) as [c|]; simpl; [| done].
    unfold expiredAt. simpl.
    destruct (Z.ltb_spec (ExpiresAt c) now); case_guard; (done || lia).
  - rewrite Heq. simpl.
    assert (Hsize : size r
                    = (size (filter (expiredAt now) r)
                       + size (filter (λ e, ¬ expiredAt now e) r))%nat).
    { rewrite <- (map_filter_union_complement (expiredAt now) r) at 1.
      apply map_size_disj_union, map_disjoint_filter_complement. }
    lia.
Qed.

(** C4, as it is written, fails at the boundary: a sweep at the very
    instant a record expires removes nothing and returns 0. *)
Lemma CleanupExpired_boundary_kept :
  CleanupExpired 100 {[ "a" := sample "a" 100 ]}
  = (0, {[ "a" := sample "a" 100 ]})
  ∧ ExpiresAt (sample "a" 100) <= 100.
Proof. split; [| simpl; lia]. unfold CleanupExpired. by rewrite map_fold_singleton. Qed.

(** C10: [Create] and [Update] leave the record under every other id as it
    was; a [Create] that fails (the id is taken) and an [Update] that fails
    (the id is absent) leave the whole map as it was, and these are the
    only failures. *)
Theorem registry_frame (check : AMLCheck) (r : Registry) (id : string) :
  id ≠ ID check →
  (Create check r).2 !! id = r !! id
  ∧ (Update check r).2 !! id = r !! id
  ∧ match (Create check r).1 with
    | Some _ => (Create check r).2 = r ∧ is_Some (r !! ID check)
    | None => r !! ID check = None
    end
  ∧ match (Update check r).1 with
    | Some _ => (Update check r).2 = r ∧ r !! ID check = None
    | None => is_Some (r !! ID check)
    end.
Proof.
  intros Hne. unfold Create, Update.
  destruct (r !! ID check) as [c|] eqn:Hc; simpl;
    rewrite ?lookup_insert_ne by done; eauto.
Qed.

Lemma registry_frame_witness :
  "b" ≠ ID (sample "a" 5)
  ∧ (Create (sample "a" 5) {[ "b" := sample "b" 7 ]}).2 !! "b"
    = Some (sample "b" 7).
Proof.
  assert (Hne : "b" ≠ ID (sample "a" 5)) by (simpl; discriminate).
  split; [exact Hne |].
  rewrite (proj1 (registry_frame (sample "a" 5) {[ "b" := sample "b" 7 ]}
                    "b" Hne)).
  apply lookup_singleton_eq.
Defined.

End RegistryProps.

(** *** The lifecycle of a check *)
Section LifecycleProps.
Context `{PDFRenderer} `{Config}.

Ltac run :=
  unfold GenerateReport_Execute, HandleCheckFailed_Execute,
    GetCheckStatus_Execute, mbind, M_bind, mret, M_ret, fail, wrapErr,
    orWrap, logErr, mutate, repository_Get, repository_Update,
    messageBus_Publish, billingHook_OnCheckCompleted,
    repositories.Get, repositories.Update; simpl.

(** The registry after the failure handler: nothing, or the record under
    [checkID] marked in place and stored again under its own id. *)
Lemma HandleCheckFailed_repo env checkID msg w :
  let w' := (HandleCheckFailed_Execute env checkID msg w).2 in
  reports w' = reports w ∧ bus w' = bus w ∧
  match repo w !! checkID with
  | None => repo w' = repo w
  | Some c =>
      let c' := MarkFailed msg (nowMark env) c in
      repo w' = alter (MarkFailed msg (nowMark env)) checkID (repo w)
      ∨ repo w' = <[ID c := c']>
                    (alter (MarkFailed msg (nowMark env)) checkID (repo w))
  end.
Proof.
  run. destruct (repo w !! checkID) as [c|] eqn:Hc; simpl; [| done].
  repeat case_match; simplify_eq/=; auto.
Qed.

(** What the call of the storage port does to the world: the adapter that
    is wired takes the write, and nothing else changes. *)
Lemma reportStorage_Put_world env key data ttl (w : World) :
  let put := reportStorage_Put env key data ttl w in
  repo put.2 = repo w ∧ bus put.2 = bus w
  ∧ if objectStorageEnabled then
      reports put.2 = reports w
      ∧ (put.1, bucket put.2)
        = storage.MinIOStorage_Put (writeReply env) (nowPut env) key data ttl
            (bucket w)
    else
      bucket put.2 = bucket w
      ∧ (put.1, reports put.2)
        = storage.Put (writeReply env) (nowPut env) key data ttl (reports w).
Proof.
  unfold reportStorage_Put. destruct objectStorageEnabled.
  - by destruct (storage.MinIOStorage_Put _ _ _ _ _ _).
  - by destruct (storage.Put _ _ _ _ _ _).
Qed.

(** The world after the report step, whatever its result: untouched when
    the step stops before the write; as the write left it when the write
    fails; and otherwise the report written and the record under [checkID]
    marked in place (and stored again under its own id). *)
Lemma GenerateReport_world ttl env checkID score level cats sanc w :
  let out := GenerateReport_Execute ttl env checkID score level cats sanc w in
  let key := checkID +:+ ".pdf" in
  let mark := MarkCompleted score level cats sanc key (nowMark env) in
  (out.1 ≠ Ok tt ∧ out.2 = w)
  ∨ ∃ c pdfData,
      let put := reportStorage_Put env key pdfData ttl w in
      repo w !! checkID = Some c
      ∧ GeneratePDF (Address c) (Currency c) score level cats sanc checkID
          (nowRender env) = Ok pdfData
      ∧ invalidPDF pdfData = false
      ∧ reports out.2 = reports put.2 ∧ bucket out.2 = bucket put.2
      ∧ ((out.1 ≠ Ok tt ∧ is_Some put.1 ∧ repo out.2 = repo w
          ∧ bus out.2 = bus w)
         ∨ (out.1 ≠ Ok tt ∧ put.1 = None
            ∧ repo out.2 = alter mark checkID (repo w)
            ∧ bus out.2 = bus w)
         ∨ (out.1 = Ok tt ∧ put.1 = None
            ∧ is_Some (alter mark checkID (repo w) !! ID c)
            ∧ repo out.2 = <[ID c := mark c]> (alter mark checkID (repo w))
            ∧ bus out.2
              = (bus w ++ [{| PubKey := EventAMLReportReady;
                              PubEvent :=
                                NewEvent (eventID env) (nowEvent env)
                                  EventAMLReportReady
                                  (AMLReportReadyPayload checkID key);
                              PubReply := publishReply env |}])%list)).
Proof.
  run. destruct (repo w !! checkID) as [c|] eqn:Hc; simpl; [| by left].
  destruct (GeneratePDF _ _ _ _ _ _ _ _) as [pdfData|e] eqn:Hpdf; simpl;
    [| by left].
  destruct (invalidPDF pdfData) eqn:Hvalid; simpl; [by left |].
  right. exists c, pdfData.
  destruct (reportStorage_Put_world env (checkID +:+ ".pdf") pdfData ttl w)
    as (Hrepo & Hbus & _).
  destruct (reportStorage_Put env (checkID +:+ ".pdf") pdfData ttl w)
    as [[e|] w'] eqn:Hput; simpl in *.
  { split; [done |]. split; [done |]. split; [done |]. split; [done |].
    split; [done |]. left. eauto. }
  rewrite Hrepo, Hbus.
  destruct (alter _ checkID (repo w) !! ID c) eqn:Hup; simpl;
    (split; [done | split; [done | split; [done | split; [done |]]]]);
    (split; [done |]); right; [right | left]; eauto.
Qed.

(** Marking in place keeps every id of the registry. *)
Lemma alter_insert_dom (f : AMLCheck → AMLCheck) id id' c' (r : Registry) :
  is_Some (alter f id r !! id') →
  dom (<[id' := c']> (alter f id r)) = dom r.
Proof.
  intros Hin. rewrite dom_insert_lookup_L by done. apply dom_alter_L.
Qed.

Lemma lookup_alter_terminal (f : AMLCheck → AMLCheck) checkID id c
    (r : Registry) :
  (∀ x, terminal (Status (f x)) = true) →
  r !! id = Some c → terminal (Status c) = true →
  ∃ c', alter f checkID r !! id = Some c' ∧ terminal (Status c') = true.
Proof.
  intros Hf Hc Ht. destruct (decide (checkID = id)) as [->|Hne].
  - exists (f c). by rewrite lookup_alter_eq, Hc.
  - exists c. by rewrite lookup_alter_ne.
Qed.

Lemma lookup_insert_terminal id' c' id (r : Registry) :
  terminal (Status c') = true →
  (∃ c, r !! id = Some c ∧ terminal (Status c) = true) →
  ∃ c, <[id' := c']> r !! id = Some c ∧ terminal (Status c) = true.
Proof.
  intros Ht Hr. destruct (decide (id' = id)) as [->|Hne].
  - exists c'. by rewrite lookup_insert_eq.
  - by rewrite lookup_insert_ne.
Qed.

(** C2, as the code has it: [MarkCompleted] sets Completed and
    [MarkFailed] sets Failed whatever the status was, so a check leaves
    Processing only for Completed or Failed; and no step of the workers
    brings a terminal record back to Processing: after the failure handler
    and after the report step a record that was terminal is terminal, and
    the risk-assessment worker does not write to the registry at all. *)
Theorem status_stays_terminal ttl env checkID msg score level cats sanc key
    now address currency (w : World) (id : string) (c : AMLCheck) :
  repo w !! id = Some c →
  terminal (Status c) = true →
  (∃ c', repo (HandleCheckFailed_Execute env checkID msg w).2 !! id = Some c'
         ∧ terminal (Status c') = true)
  ∧ (∃ c', repo (GenerateReport_Execute ttl env checkID score level cats
                   sanc w).2 !! id = Some c'
           ∧ terminal (Status c') = true)
  ∧ repo (ProcessAMLCheck_Execute env checkID address currency w).2 = repo w
  ∧ (∀ x, Status (MarkCompleted score level cats sanc key now x)
          = StatusCompleted
          ∧ Status (MarkFailed msg now x) = StatusFailed).
Proof.
  intros Hc Ht. split; [| split; [| split]]; [| | | done].
  3: { unfold ProcessAMLCheck_Execute, publishFailedEvent, mbind, M_bind,
         fail, orWrap, messageBus_Publish. simpl.
       by destruct (amlReply env), (publishReply env). }
  - destruct (HandleCheckFailed_repo env checkID msg w) as (_ & _ & Hrepo).
    destruct (repo w !! checkID) as [c0|] eqn:Hc0.
    + destruct Hrepo as [-> | ->].
      * by eapply lookup_alter_terminal.
      * apply lookup_insert_terminal; [done |].
        by eapply lookup_alter_terminal.
    + rewrite Hrepo. eauto.
  - destruct (GenerateReport_world ttl env checkID score level cats sanc w)
      as [(_ & ->)
         | (c0 & pdf & Hc0 & _ & _ & _ & _
            & [(_ & _ & -> & _) | [(_ & _ & -> & _) | (_ & _ & _ & -> & _)]])].
    + eauto.
    + eauto.
    + by eapply lookup_alter_terminal.
    + apply lookup_insert_terminal; [done |].
      by eapply lookup_alter_terminal.
Qed.

Lemma lookup_marked (f : AMLCheck → AMLCheck) checkID c (r : Registry) :
  r !! checkID = Some c →
  alter f checkID r !! checkID = Some (f c)
  ∧ <[ID c := f c]> (alter f checkID r) !! checkID = Some (f c).
Proof.
  intros Hc.
  assert (Ha : alter f checkID r !! checkID = Some (f c))
    by (by rewrite lookup_alter_eq, Hc).
  split; [done |].
  destruct (decide (ID c = checkID)) as [->|Hne].
  - by rewrite lookup_insert_eq.
  - by rewrite lookup_insert_ne.
Qed.

Lemma union_absorb_elem (X : gset string) (k : string) :
  k ∈ X → X ∪ {[k]} = X.
Proof.
  intros Hk. rewrite union_comm_L. apply subseteq_union_1_L.
  by apply singleton_subseteq_l.
Qed.

(** The keys of the storage after a call of the port: the local directory
    keeps its files and may gain the file of the key; the bucket keeps its
    objects and may gain the object named by the key and the date. *)
Lemma reportStorage_Put_keys env key data ttl (w : World) :
  let put := reportStorage_Put env key data ttl w in
  if objectStorageEnabled then
    reports put.2 = reports w
    ∧ (dom (storage.objects (bucket put.2)) = dom (storage.objects (bucket w))
       ∨ dom (storage.objects (bucket put.2))
         = dom (storage.objects (bucket w))
           ∪ {[storage.objectKey (nowPut env) key]})
    ∧ (put.1 = None →
       dom (storage.objects (bucket put.2))
       = dom (storage.objects (bucket w))
         ∪ {[storage.objectKey (nowPut env) key]})
  else
    bucket put.2 = bucket w
    ∧ (dom (storage.files (reports put.2)) = dom (storage.files (reports w))
       ∨ dom (storage.files (reports put.2))
         = dom (storage.files (reports w)) ∪ {[key]})
    ∧ (dom (storage.metadata (reports put.2))
       = dom (storage.metadata (reports w))
       ∨ put.1 = None
         ∧ dom (storage.metadata (reports put.2))
           = dom (storage.metadata (reports w)) ∪ {[key]})
    ∧ (put.1 = None →
       dom (storage.files (reports put.2))
       = dom (storage.files (reports w)) ∪ {[key]}).
Proof.
  intros put.
  pose proof (reportStorage_Put_world env key data ttl w) as (_ & _ & Hput).
  fold put in Hput. destruct objectStorageEnabled.
  - destruct Hput as [Hrep Hput]. split; [done |].
    unfold storage.MinIOStorage_Put in Hput.
    destruct (writeReply env) as [failure|]; injection Hput as Herr Hb;
      rewrite Hb, Herr.
    + destruct (storage.written failure); simpl;
        (split; [| done]); [right | left]; [| done].
      rewrite dom_insert_L. apply union_comm_L.
    + simpl. rewrite dom_insert_L, union_comm_L. split; [by right | done].
  - destruct Hput as [Hb Hput]. split; [done |].
    unfold storage.Put in Hput.
    destruct (writeReply env) as [failure|]; injection Hput as Herr Hrep;
      rewrite Hrep, Herr; simpl.
    + split; [| split; [by left | done]].
      destruct (storage.written failure); [right | by left].
      rewrite dom_insert_L. apply union_comm_L.
    + rewrite !dom_insert_L, !(union_comm_L {[key]}).
      split; [by right |]. split; [by right | done].
Qed.

(** C3, as the code has it.  When the report step has succeeded for a
    [check.completed] event, handling the same event again (whether the
    second run succeeds or fails on the way) leaves the record Completed
    with the same score, level, categories, sanctions and report key
    [checkID.pdf], adds no record, and every [report.ready] event carries
    that key.  With the local directory wired both runs write the file
    [checkID.pdf] and the second run adds no file and no entry.  With the
    bucket wired the object is named by the date of the write and the key:
    the second run adds at most the object of its own date, and none when
    both runs are on the same day. *)
Theorem report_replay_idempotent ttl env1 env2 checkID score level cats sanc
    (w : World) :
  let key := checkID +:+ ".pdf" in
  let run1 := GenerateReport_Execute ttl env1 checkID score level cats sanc w in
  let run2 := GenerateReport_Execute ttl env2 checkID score level cats sanc
                run1.2 in
  run1.1 = Ok tt →
  (∃ c1 c2, repo run1.2 !! checkID = Some c1
            ∧ repo run2.2 !! checkID = Some c2
            ∧ completedWith score level cats sanc key c1
            ∧ completedWith score level cats sanc key c2)
  ∧ dom (repo run2.2) = dom (repo run1.2)
  ∧ dom (repo run1.2) = dom (repo w)
  ∧ (if objectStorageEnabled then
       reports run2.2 = reports w
       ∧ dom (storage.objects (bucket run1.2))
         = dom (storage.objects (bucket w))
           ∪ {[storage.objectKey (nowPut env1) key]}
       ∧ dom (storage.objects (bucket run2.2))
         ⊆ dom (storage.objects (bucket run1.2))
           ∪ {[storage.objectKey (nowPut env2) key]}
       ∧ dom (storage.objects (bucket run1.2))
         ⊆ dom (storage.objects (bucket run2.2))
       ∧ (gotime.Date (nowPut env2) = gotime.Date (nowPut env1) →
          dom (storage.objects (bucket run2.2))
          = dom (storage.objects (bucket run1.2)))
     else
       bucket run2.2 = bucket w
       ∧ dom (storage.files (reports run1.2))
         = dom (storage.files (reports w)) ∪ {[key]}
       ∧ dom (storage.files (reports run2.2))
         = dom (storage.files (reports run1.2))
       ∧ dom (storage.metadata (reports run2.2))
         = dom (storage.metadata (reports run1.2)))
  ∧ (∀ p, p ∈ bus run2.2 →
          p ∈ bus w
          ∨ (PubKey p = EventAMLReportReady
             ∧ Type_ (PubEvent p) = EventAMLReportReady
             ∧ EventPayload (PubEvent p)
               = AMLReportReadyPayload checkID key)).
Proof.
  intros key run1 run2 Hok.
  destruct (GenerateReport_world ttl env1 checkID score level cats sanc w)
    as [(Hne & _)
       | (c & pdf & Hc & _ & _ & Hrep1 & Hbk1
          & [(Hne & _) | [(Hne & _) | (_ & Hput1 & Hin1 & Hrepo1 & Hbus1)]])];
    try (exfalso; exact (Hne Hok)).
  fold run1 key in Hrep1, Hbk1, Hrepo1, Hbus1, Hin1, Hput1.
  set (mark1 := MarkCompleted score level cats sanc key (nowMark env1)) in *.
  destruct (lookup_marked mark1 checkID c (repo w) Hc) as [Ha1 Hc1].
  rewrite <- Hrepo1 in Hc1.
  assert (Hdom1 : dom (repo run1.2) = dom (repo w))
    by (rewrite Hrepo1; by apply alter_insert_dom).
  assert (Hdone : ∀ now x, completedWith score level cats sanc key
                    (MarkCompleted score level cats sanc key now x))
    by (intros; repeat split).
  assert (Hready : ∀ env (p : Published),
             p = {| PubKey := EventAMLReportReady;
                    PubEvent := NewEvent (eventID env) (nowEvent env)
                                  EventAMLReportReady
                                  (AMLReportReadyPayload checkID key);
                    PubReply := publishReply env |} →
             PubKey p = EventAMLReportReady
             ∧ Type_ (PubEvent p) = EventAMLReportReady
             ∧ EventPayload (PubEvent p)
               = AMLReportReadyPayload checkID key)
    by (by intros env p ->).
  pose proof (reportStorage_Put_keys env1 key pdf ttl w) as Hkeys1.
  (* the registry and the bus after the second run *)
  assert (Hsecond :
            (∃ c2, repo run2.2 !! checkID = Some c2
                   ∧ completedWith score level cats sanc key c2)
            ∧ dom (repo run2.2) = dom (repo run1.2)
            ∧ (∀ p, p ∈ bus run2.2 →
                 p ∈ bus run1.2
                 ∨ (PubKey p = EventAMLReportReady
                    ∧ Type_ (PubEvent p) = EventAMLReportReady
                    ∧ EventPayload (PubEvent p)
                      = AMLReportReadyPayload checkID key))
            ∧ ∃ pdf2,
                (run2.2 = run1.2
                 ∨ let put2 := reportStorage_Put env2 key pdf2 ttl run1.2 in
                   reports run2.2 = reports put2.2
                   ∧ bucket run2.2 = bucket put2.2)).
  { destruct (GenerateReport_world ttl env2 checkID score level cats sanc
                run1.2)
      as [(_ & Hsame)
         | (c1 & pdf2 & Hc1' & _ & _ & Hrep2 & Hbk2 & Hcase)].
    - fold run2 in Hsame. rewrite Hsame.
      split; [eauto |]. split; [done |]. split; [by left |].
      exists pdf. by left.
    - fold run2 key in Hrep2, Hbk2, Hcase.
      rewrite Hc1 in Hc1'. injection Hc1' as <-.
      set (mark2 := MarkCompleted score level cats sanc key (nowMark env2))
        in *.
      destruct (lookup_marked mark2 checkID (mark1 c) (repo run1.2) Hc1)
        as [Ha2 Hi2].
      assert (Hst : ∃ pdf2,
                 run2.2 = run1.2
                 ∨ let put2 := reportStorage_Put env2 key pdf2 ttl run1.2 in
                   reports run2.2 = reports put2.2
                   ∧ bucket run2.2 = bucket put2.2)
        by (exists pdf2; by right).
      destruct Hcase as [(_ & _ & -> & ->)
                        | [(_ & _ & -> & ->) | (_ & _ & Hin2 & -> & ->)]].
      + split; [eauto |]. split; [done |]. split; [by left | done].
      + split; [eauto |]. split; [apply dom_alter_L |].
        split; [by left | done].
      + split; [eauto |]. split; [by apply alter_insert_dom |].
        split; [| done].
        intros p Hp. apply elem_of_app in Hp as [Hp|Hp]; [by left | right].
        apply list_elem_of_singleton in Hp. by apply (Hready env2). }
  destruct Hsecond as ((c2 & Hc2 & Hdone2) & Hdom2 & Hbus2 & pdf2 & Hst2).
  split; [exists (mark1 c), c2; eauto |].
  split; [done |]. split; [done |]. split.
  - (* the storage *)
    pose proof (reportStorage_Put_world env1 key pdf ttl w) as (_ & _ & Hw1).
    assert (Hkeys2 := reportStorage_Put_keys env2 key pdf2 ttl run1.2).
    destruct objectStorageEnabled.
    + destruct Hkeys1 as (Hr1 & _ & Hadd1). specialize (Hadd1 Hput1).
      rewrite <- Hrep1 in Hr1. rewrite <- Hbk1 in Hadd1.
      destruct Hst2 as [Hsame | [Hr2 Hb2]].
      * rewrite Hsame, Hr1. split; [done |]. split; [done |].
        split; [apply union_subseteq_l |]. split; [done | done].
      * destruct Hkeys2 as (Hr2' & Hadd2 & _).
        rewrite <- Hr2 in Hr2'. rewrite <- Hb2 in Hadd2.
        rewrite Hr2', Hr1. split; [done |]. split; [done |].
        split; [destruct Hadd2 as [-> | ->];
                  [apply union_subseteq_l | done] |].
        split; [destruct Hadd2 as [-> | ->];
                  [done | apply union_subseteq_l] |].
        intros Hday. destruct Hadd2 as [-> | ->]; [done |].
        assert (Hobj : storage.objectKey (nowPut env2) key
                       = storage.objectKey (nowPut env1) key)
          by (unfold storage.objectKey; by rewrite Hday).
        rewrite Hobj. apply union_absorb_elem. rewrite Hadd1.
        apply elem_of_union_r. by apply elem_of_singleton.
    + destruct Hkeys1 as (Hb1 & _ & _ & Hadd1). specialize (Hadd1 Hput1).
      rewrite <- Hbk1 in Hb1. rewrite <- Hrep1 in Hadd1.
      assert (Hmeta1 : key ∈ dom (storage.metadata (reports run1.2))).
      { rewrite Hrep1. destruct Hw1 as [_ Hw1]. rewrite Hput1 in Hw1.
        unfold storage.Put in Hw1.
        destruct (writeReply env1); [done |]. injection Hw1 as ->.
        simpl. rewrite dom_insert_L.
        apply elem_of_union_l. by apply elem_of_singleton. }
      assert (Hfile1 : key ∈ dom (storage.files (reports run1.2))).
      { rewrite Hadd1. apply elem_of_union_r. by apply elem_of_singleton. }
      destruct Hst2 as [Hsame | [Hr2 Hb2]].
      * rewrite Hsame, Hb1. done.
      * destruct Hkeys2 as (Hb2' & Hf2 & Hm2 & _).
        rewrite <- Hb2 in Hb2'. rewrite <- Hr2 in Hf2, Hm2.
        rewrite Hb2', Hb1. split; [done |]. split; [done |]. split.
        -- destruct Hf2 as [-> | ->]; [done |]. by apply union_absorb_elem.
        -- destruct Hm2 as [-> | [_ ->]]; [done |].
           by apply union_absorb_elem.
  - intros p Hp. apply Hbus2 in Hp as [Hp|Hp]; [| by right].
    rewrite Hbus1 in Hp. apply elem_of_app in Hp as [Hp|Hp];
      [by left | right].
    apply list_elem_of_singleton in Hp. by apply (Hready env1).
Qed.

End LifecycleProps.

(** The failure handler run on a check that the report step has
    completed. *)
Lemma status_stays_terminal_witness :
  repo doneWorld !! "c-1" = Some doneCheck
  ∧ terminal (Status doneCheck) = true
  ∧ ∃ c', repo (HandleCheckFailed_Execute quietEnv "c-1" "late" doneWorld).2
            !! "c-1" = Some c'
          ∧ terminal (Status c') = true.
Proof.
  assert (Hc : repo doneWorld !! "c-1" = Some doneCheck) by reflexivity.
  assert (Ht : terminal (Status doneCheck) = true) by reflexivity.
  split; [exact Hc | split; [exact Ht |]].
  exact (proj1 (status_stays_terminal (H:=stubRenderer) (H0:=localConfig) 0
                  quietEnv "c-1" "late" 0 "" [] None "" 0 "" "" doneWorld
                  "c-1" doneCheck Hc Ht)).
Defined.

(** C2, as it is written, fails: a record that is Completed becomes Failed
    when [MarkFailed] is called on it, and the failure handler does call it
    on whatever record it finds. *)
Lemma completed_then_failed :
  Status doneCheck = StatusCompleted
  ∧ repo doneWorld !! "c-1" = Some doneCheck
  ∧ Status (MarkFailed "late" 30 doneCheck) = StatusFailed
  ∧ Status <$> repo (HandleCheckFailed_Execute quietEnv "c-1" "late"
                       doneWorld).2 !! "c-1"
    = Some StatusFailed.
Proof. repeat split. Qed.

(** Replaying the event of check ["c-1"] on the world intake left, with
    the local directory wired. *)
Lemma report_replay_idempotent_witness :
  let run1 := GenerateReport_Execute (H:=stubRenderer) (H0:=localConfig) 1000
                quietEnv "c-1" 85 "Critical" [] None oneCheck in
  let run2 := GenerateReport_Execute (H:=stubRenderer) (H0:=localConfig) 1000
                quietEnv "c-1" 85 "Critical" [] None run1.2 in
  run1.1 = Ok tt
  ∧ dom (storage.files (reports run2.2)) = dom (storage.files (reports run1.2)).
Proof.
  intros run1 run2.
  assert (Hok : run1.1 = Ok tt) by (vm_compute; reflexivity).
  split; [exact Hok |].
  exact (proj1 (proj2 (proj2 (proj1 (proj2 (proj2 (proj2
           (report_replay_idempotent (H:=stubRenderer) (H0:=localConfig) 1000
              quietEnv quietEnv "c-1" 85 "Critical" [] None oneCheck
              Hok)))))))).
Defined.

(** C3, as it is written, fails twice.  When the first run fails (here the
    disk is full) the record is still Processing after it and Completed
    after the second run, so the record is not in the same state after the
    two runs.  And with the bucket wired, a second run on the next day
    stores a second object, under another name: both runs succeed and the
    bucket holds the report of the first of January and that of the
    second. *)
Lemma report_replay_not_as_stated :
  let failed := GenerateReport_Execute (H:=stubRenderer) (H0:=localConfig)
                  1000 diskFullEnv "c-1" 85 "Critical" [] None oneCheck in
  let retried := GenerateReport_Execute (H:=stubRenderer) (H0:=localConfig)
                   1000 quietEnv "c-1" 85 "Critical" [] None failed.2 in
  let first := GenerateReport_Execute (H:=stubRenderer) (H0:=minioConfig)
                 1000 quietEnv "c-1" 85 "Critical" [] None oneCheck in
  let second := GenerateReport_Execute (H:=stubRenderer) (H0:=minioConfig)
                  1000 nextDayEnv "c-1" 85 "Critical" [] None first.2 in
  (failed.1 = Err (wrapf "failed to store report"
                     (wrapf "failed to write file"
                        (errorString "no space left on device")))
   ∧ Status <$> repo failed.2 !! "c-1" = Some StatusProcessing
   ∧ retried.1 = Ok tt
   ∧ Status <$> repo retried.2 !! "c-1" = Some StatusCompleted)
  ∧ (first.1 = Ok tt ∧ second.1 = Ok tt
     ∧ ReportKey <$> repo second.2 !! "c-1" = Some "c-1.pdf"
     ∧ storage.objectKey (nowPut quietEnv) "c-1.pdf"
       = "reports/1970/01/01/c-1.pdf"
     ∧ storage.objectKey (nowPut nextDayEnv) "c-1.pdf"
       = "reports/1970/01/02/c-1.pdf"
     ∧ is_Some (storage.objects (bucket second.2)
                  !! "reports/1970/01/01/c-1.pdf")
     ∧ is_Some (storage.objects (bucket second.2)
                  !! "reports/1970/01/02/c-1.pdf")
     ∧ storage.objects (bucket first.2) !! "reports/1970/01/02/c-1.pdf"
       = None).
Proof.
  intros failed retried first second.
  split; [repeat split |].
  repeat split; try reflexivity; vm_compute; eauto.
Qed.

(** *** The risk-assessment worker and the intake step *)
Section WorkerProps.

(** C5: when the risk provider fails, the worker makes one publish, under
    the key [check.failed], of an event of type [check.failed] whose
    payload is the check id and the message "AML check failed: " followed
    by the provider's error, and none of a [check.completed] event; when
    the risk provider answers, it makes one publish, under the key
    [check.completed], of an event of type [check.completed] whose payload
    carries the provider's score, level and categories, and the sanctions
    result in it is the provider's or, when the sanctions provider fails,
    the empty result (no hit, no identifications).  The registry and the
    report storage are not touched. *)
Theorem risk_worker_outcomes env checkID address currency (w : World) :
  let out := ProcessAMLCheck_Execute env checkID address currency w in
  repo out.2 = repo w ∧ reports out.2 = reports w
  ∧ bucket out.2 = bucket w
  ∧ ∃ p,
      bus out.2 = bus w ++ [p]
      ∧ EventID (PubEvent p) = eventID env
      ∧ Timestamp (PubEvent p) = nowEvent env
      ∧ PubReply p = publishReply env
      ∧ match amlReply env with
        | Err err =>
            PubKey p = "aml.check.failed"
            ∧ Type_ (PubEvent p) = "aml.check.failed"
            ∧ EventPayload (PubEvent p)
              = AMLCheckFailedPayload checkID
                  ("AML check failed: " +:+ Error err)
            ∧ PubKey p ≠ EventAMLCheckCompleted
            ∧ Type_ (PubEvent p) ≠ EventAMLCheckCompleted
            ∧ out.1 ≠ Ok tt
        | Ok res =>
            PubKey p = "aml.check.completed"
            ∧ Type_ (PubEvent p) = "aml.check.completed"
            ∧ EventPayload (PubEvent p)
              = AMLCheckCompletedPayload checkID (ResRiskScore res)
                  (ResRiskLevel res) (ResCategories res)
                  (Some match sanctionsReply env with
                        | Err _ => {| Hit := false; Identifications := [] |}
                        | Ok found => found
                        end)
            ∧ (out.1 = Ok tt ∨ publishReply env ≠ None)
        end.
Proof.
  unfold ProcessAMLCheck_Execute, publishFailedEvent, mbind, M_bind, fail,
    orWrap, messageBus_Publish. simpl.
  destruct (amlReply env) as [res|err]; simpl;
    destruct (publishReply env) as [e|] eqn:Hpub; simpl;
    (split; [done |]); (split; [done |]); (split; [done |]);
    eexists; (split; [reflexivity |]); simpl; rewrite ?Hpub;
    repeat split; eauto; discriminate.
Qed.

Context `{GoStrings}.

Lemma CheckAddress_Execute_unsupported ttl env address currency (w : World) :
  NewDefaultAssetRegistry !! ToUpper currency = None →
  CheckAddress_Execute NewDefaultAssetRegistry ttl env address currency w
  = (Err (wrapError ("unsupported currency: " +:+ currency)
            ErrUnsupportedCurrency), w).
Proof.
  intros Hnone. unfold CheckAddress_Execute, AssetRegistry_Get.
  by rewrite Hnone.
Qed.

(** C8: for a currency symbol that, in upper case, is no key of the asset
    registry, intake returns an error that is [ErrUnsupportedCurrency]
    (wrapped, with the symbol in the message) and the world is as it was:
    no record is created and nothing is published. *)
Theorem intake_unsupported_currency ttl env address currency (w : World) :
  NewDefaultAssetRegistry !! ToUpper currency = None →
  ∃ err,
    CheckAddress_Execute NewDefaultAssetRegistry ttl env address currency w
    = (Err err, w)
    ∧ errors_Is err ErrUnsupportedCurrency = true
    ∧ Error err = "unsupported currency: " +:+ currency.
Proof.
  intros Hnone. eexists.
  rewrite CheckAddress_Execute_unsupported by done. repeat split.
Qed.

End WorkerProps.

(** The handler answers such a request with 400 and the error's text, and
    never starts to wait. *)
Lemma CheckAddress_unsupported_currency `{GoStrings} `{token.GoCrypto}
    h env req ticks (w : World) :
  http.assetRegistry h = NewDefaultAssetRegistry →
  NewDefaultAssetRegistry !! ToUpper (http.ReqCurrency req) = None →
  http.CheckAddress h env (http.Valid req) ticks w
  = (http.respondError http.StatusBadRequest
       ("unsupported currency: " +:+ http.ReqCurrency req), w).
Proof.
  intros Hreg Hnone. unfold http.CheckAddress. rewrite Hreg.
  by rewrite CheckAddress_Execute_unsupported.
Qed.

(** The symbol ["XRP"] is not supported. *)
Lemma intake_unsupported_currency_witness :
  NewDefaultAssetRegistry !! ToUpper (GoStrings:=asciiStrings) "XRP" = None
  ∧ ∃ err,
      CheckAddress_Execute (H:=asciiStrings) NewDefaultAssetRegistry 1000
        quietEnv "rN7n7otQDd6FczFgLdSqtcsAUxDkw6fzRH" "XRP" oneCheck
      = (Err err, oneCheck)
      ∧ errors_Is err ErrUnsupportedCurrency = true
      ∧ Error err = "unsupported currency: XRP".
Proof.
  assert (Hnone : NewDefaultAssetRegistry
                    !! ToUpper (GoStrings:=asciiStrings) "XRP" = None)
    by (vm_compute; reflexivity).
  split; [exact Hnone |].
  exact (intake_unsupported_currency (H:=asciiStrings) 1000 quietEnv
           "rN7n7otQDd6FczFgLdSqtcsAUxDkw6fzRH" "XRP" oneCheck Hnone).
Defined.

(** *** The event bus *)
Section BusProps.
Import rabbitmq.

Lemma wrap32_succ (c : Z) : int32 c → c < MaxRetries → wrap32 (c + 1) = c + 1.
Proof.
  unfold int32, wrap32, MaxRetries. intros Hc Hlt.
  rewrite Z.mod_small by lia. lia.
Qed.

Lemma int32_small (z : Z) : 0 ≤ z ≤ 3 → int32 z.
Proof. unfold int32. change (2 ^ 31) with 2147483648. lia. Qed.

Lemma retryCountOf_retried key body n : retryCountOf (retried key body n) = n.
Proof. unfold retryCountOf. simpl. by rewrite lookup_singleton_eq. Qed.

Lemma turn_failed queueName routingKeys err msg rest dl st :
  int32 (retryCountOf msg) → retryCountOf msg < MaxRetries →
  RoutingKey msg ∈ routingKeys →
  turn queueName routingKeys (Some err) None
    {| ready := msg :: rest; deadLetters := dl; settled := st |}
  = {| ready := rest ++ [deliver (RoutingKey msg)
                           (Msg (republish msg (retryCountOf msg + 1) None))];
       deadLetters := dl;
       settled := st ++ [(msg, Ack)] |}.
Proof.
  intros Hc Hlt Hkey. unfold turn, consume. simpl.
  destruct (Z.leb_spec MaxRetries (retryCountOf msg)) as [Hge|_]; [lia |].
  rewrite wrap32_succ by done. simpl. unfold route. simpl.
  by rewrite bool_decide_true.
Qed.

Lemma turn_dead_letter queueName routingKeys err msg rest dl st :
  MaxRetries ≤ retryCountOf msg →
  turn queueName routingKeys (Some err) None
    {| ready := msg :: rest; deadLetters := dl; settled := st |}
  = {| ready := rest;
       deadLetters :=
         dl ++ [Msg (deadLetter queueName msg (retryCountOf msg) err None)];
       settled := st ++ [(msg, Ack)] |}.
Proof.
  intros Hge. unfold turn, consume. simpl.
  destruct (Z.leb_spec MaxRetries (retryCountOf msg)) as [_|Hlt]; [| lia].
  reflexivity.
Qed.

Lemma turn_handled queueName routingKeys msg rest dl st :
  turn queueName routingKeys None None
    {| ready := msg :: rest; deadLetters := dl; settled := st |}
  = {| ready := rest; deadLetters := dl; settled := st ++ [(msg, Ack)] |}.
Proof. reflexivity. Qed.

(** Three failures take a fresh message through its rounds 1, 2 and 3. *)
Lemma three_failures queueName routingKeys key body e1 e2 e3 :
  key ∈ routingKeys →
  turns queueName routingKeys [Some e1; Some e2; Some e3]
    (holding (fresh key body))
  = {| ready := [retried key body 3];
       deadLetters := [];
       settled := [(fresh key body, Ack); (retried key body 1, Ack);
                   (retried key body 2, Ack)] |}.
Proof.
  intros Hkey. unfold holding. simpl.
  rewrite turn_failed; [| by apply int32_small | done | done].
  change (deliver _ _) with (retried key body 1). simpl.
  rewrite turn_failed;
    [| rewrite retryCountOf_retried; apply int32_small; lia
     | rewrite retryCountOf_retried; unfold MaxRetries; lia | done].
  rewrite retryCountOf_retried.
  change (deliver _ _) with (retried key body 2). simpl.
  rewrite turn_failed;
    [| rewrite retryCountOf_retried; apply int32_small; lia
     | rewrite retryCountOf_retried; unfold MaxRetries; lia | done].
  rewrite retryCountOf_retried.
  change (deliver _ _) with (retried key body 3). reflexivity.
Qed.

Lemma turns_app queueName routingKeys rs1 rs2 b :
  turns queueName routingKeys (rs1 ++ rs2) b
  = turns queueName routingKeys rs2 (turns queueName routingKeys rs1 b).
Proof. revert b. induction rs1 as [|r rs1 IH]; intros b; simpl; auto. Qed.

(** C1, as the code has it.  A delivery whose handler succeeds is
    acknowledged and nothing is published.  When the handler fails on a
    delivery with counter [c] (header [x-retry-count], 0 without it) the
    consumer makes one publish, with the content type and the body of the
    delivery.  For [c] at least 3 it goes to the dead-letter exchange with
    an empty routing key, and its headers are the original queue, the
    original routing key, the counter [c] itself, the handler's error and
    the delivery's timestamp.  For [c] below 3 it goes to the events
    exchange under the routing key of the delivery, and its only header is
    the counter [c + 1].  The delivery is acknowledged when the broker
    accepted that publish, and rejected otherwise (requeued only on the
    retry path).  With a broker that accepts, a fresh message whose
    handler fails three times and then succeeds is acknowledged with no
    dead letter, and one whose handler fails four times leaves exactly one
    dead letter, which carries the body, the queue, the routing key, the
    counter 3 and the fourth error. *)
Theorem retry_then_dead_letter queueName routingKeys err brokerReply msg
    key body e1 e2 e3 e4 :
  int32 (retryCountOf msg) →
  key ∈ routingKeys →
  let c := retryCountOf msg in
  let failed := consume queueName (Some err) brokerReply msg in
  let acked := [(fresh key body, Ack); (retried key body 1, Ack);
                (retried key body 2, Ack); (retried key body 3, Ack)] in
  consume queueName None brokerReply msg = ([], Ack)
  ∧ (∃ call,
       failed.1 = [call]
       ∧ Reply call = brokerReply
       ∧ PubContentType (Msg call) = ContentType msg
       ∧ PubBody (Msg call) = Body msg
       ∧ if decide (MaxRetries ≤ c) then
           Exchange call = "aml.dlq" ∧ Key call = ""
           ∧ PubHeaders (Msg call)
             = Some (<["x-original-queue" := VString queueName]>
                     (<["x-original-routing" := VString (RoutingKey msg)]>
                     (<["x-retry-count" := VInt32 c]>
                     (<["x-last-error" := VString (Error err)]>
                     (<["x-failed-timestamp" := VTime (Timestamp msg)]>
                        ∅)))))
           ∧ failed.2 = (if brokerReply is Some _ then Nack false else Ack)
         else
           Exchange call = "aml.events" ∧ Key call = RoutingKey msg
           ∧ PubHeaders (Msg call)
             = Some {["x-retry-count" := VInt32 (c + 1)]}
           ∧ failed.2 = (if brokerReply is Some _ then Nack true else Ack))
  ∧ turns queueName routingKeys [Some e1; Some e2; Some e3; None]
      (holding (fresh key body))
    = {| ready := []; deadLetters := []; settled := acked |}
  ∧ ∃ letter headers,
      turns queueName routingKeys [Some e1; Some e2; Some e3; Some e4]
        (holding (fresh key body))
      = {| ready := []; deadLetters := [letter]; settled := acked |}
      ∧ PubContentType letter = "application/json"
      ∧ PubBody letter = body
      ∧ PubHeaders letter = Some headers
      ∧ headers !! "x-original-queue" = Some (VString queueName)
      ∧ headers !! "x-original-routing" = Some (VString key)
      ∧ headers !! "x-retry-count" = Some (VInt32 3)
      ∧ headers !! "x-last-error" = Some (VString (Error e4))
      ∧ headers !! "x-failed-timestamp" = Some (VTime 0).
Proof.
  intros Hc Hkey c failed acked. split; [done |]. split; [| split].
  - unfold failed, consume. fold c.
    destruct (Z.leb_spec MaxRetries c) as [Hge|Hlt]; case_decide; try lia;
      eexists; (split; [reflexivity |]); simpl.
    + by repeat split.
    + rewrite wrap32_succ by done. by repeat split.
  - change [Some e1; Some e2; Some e3; None]
      with ([Some e1; Some e2; Some e3] ++ [None : option error]).
    rewrite turns_app, three_failures by done. reflexivity.
  - change [Some e1; Some e2; Some e3; Some e4]
      with ([Some e1; Some e2; Some e3] ++ [Some e4]).
    rewrite turns_app, three_failures by done. simpl.
    rewrite turn_dead_letter
      by (rewrite retryCountOf_retried; unfold MaxRetries; lia).
    rewrite retryCountOf_retried.
    eexists _, _. split; [reflexivity |]. simpl.
    split; [done |]. split; [done |]. split; [reflexivity |].
    unfold dlqHeaders. simpl. repeat split; by simplify_map_eq.
Qed.

End BusProps.

(** A delivery on its second round fails once more and is sent round. *)
Lemma retry_then_dead_letter_witness :
  let msg := rabbitmq.retried "aml.check.completed" "{}" 2 in
  rabbitmq.int32 (rabbitmq.retryCountOf msg)
  ∧ "aml.check.completed" ∈ ["aml.check.completed"; "aml.check.failed"]
  ∧ ∃ call,
      (rabbitmq.consume "q_report_jobs" (Some (errorString "boom")) None
         msg).1 = [call]
      ∧ rabbitmq.Exchange call = "aml.events"
      ∧ rabbitmq.Key call = "aml.check.completed"
      ∧ rabbitmq.PubBody (rabbitmq.Msg call) = "{}"
      ∧ rabbitmq.PubHeaders (rabbitmq.Msg call)
        = Some {["x-retry-count" := rabbitmq.VInt32 3]}.
Proof.
  intros msg.
  assert (Hc : rabbitmq.int32 (rabbitmq.retryCountOf msg))
    by (unfold msg; rewrite retryCountOf_retried; apply int32_small; lia).
  assert (Hkey : "aml.check.completed"
                 ∈ ["aml.check.completed"; "aml.check.failed"])
    by (apply list_elem_of_here).
  split; [exact Hc | split; [exact Hkey |]].
  destruct (proj1 (proj2
              (retry_then_dead_letter "q_report_jobs" _ (errorString "boom")
                 None msg "aml.check.completed" "{}" (errorString "1")
                 (errorString "2") (errorString "3") (errorString "4")
                 Hc Hkey)))
    as (call & Hcall & _ & _ & Hbody & Hpath).
  exists call. split; [exact Hcall |].
  destruct Hpath as (Hex & Hk & Hh & _).
  split; [exact Hex |]. split; [exact Hk |]. split; [exact Hbody |].
  exact Hh.
Defined.

(** C1, as it is written, fails twice.  A delivery that arrives with
    counter 5 is dead-lettered with counter 5, not 3; and when the broker
    refuses the dead-letter publish the delivery is rejected, not
    acknowledged, and no dead letter exists. *)
Lemma dead_letter_not_as_stated :
  let boom := errorString "boom" in
  let late := rabbitmq.retried "aml.check.completed" "{}" 5 in
  let last := rabbitmq.retried "aml.check.completed" "{}" 3 in
  (∃ call,
     (rabbitmq.consume "q_report_jobs" (Some boom) None late).1 = [call]
     ∧ rabbitmq.Exchange call = "aml.dlq"
     ∧ (rabbitmq.PubHeaders (rabbitmq.Msg call)
          ≫= λ t, t !! "x-retry-count")
       = Some (rabbitmq.VInt32 5)
     ∧ 5 ≠ rabbitmq.MaxRetries)
  ∧ (∃ call,
       (rabbitmq.consume "q_report_jobs" (Some boom)
          (Some (errorString "channel closed")) last).1 = [call]
       ∧ rabbitmq.Exchange call = "aml.dlq"
       ∧ rabbitmq.Reply call = Some (errorString "channel closed"))
  ∧ (rabbitmq.consume "q_report_jobs" (Some boom)
       (Some (errorString "channel closed")) last).2
    = rabbitmq.Nack false
  ∧ rabbitmq.deadLetters
      (rabbitmq.turn "q_report_jobs" ["aml.check.completed"] (Some boom)
         (Some (errorString "channel closed")) (rabbitmq.holding last))
    = [].
Proof.
  intros boom late last. split; [| split; [| split]].
  - eexists. split; [reflexivity |]. repeat split; vm_compute; congruence.
  - eexists. split; [reflexivity |]. by repeat split.
  - reflexivity.
  - reflexivity.
Qed.

(** *** The signed report token *)
Section Base64Props.
Import base64 token.

Lemma decodeChar_encodeChar x : decodeChar (encodeChar x) = Some x.
Proof. destruct x as [[] [] [] [] [] []]; reflexivity. Qed.

(** No character of the alphabet is the padding, a line break or a dot. *)
Lemma encodeChar_plain x :
  Ascii.eqb (encodeChar x) padChar = false
  ∧ is_newline (encodeChar x) = false
  ∧ Ascii.eqb (encodeChar x) "." = false.
Proof. destruct x as [[] [] [] [] [] []]; repeat split. Qed.

(** Strings taken three characters at a time. *)
Lemma string_ind3 (P : string → Prop) :
  P EmptyString →
  (∀ a, P (String a EmptyString)) →
  (∀ a b, P (String a (String b EmptyString))) →
  (∀ a b c s, P s → P (String a (String b (String c s)))) →
  ∀ s, P s.
Proof.
  intros H0 H1 H2 H3 s.
  assert (Hall : P s ∧ (∀ a, P (String a s))
                 ∧ (∀ a b, P (String a (String b s)))).
  { induction s as [|c s (IH0 & IH1 & IH2)]; [by auto |].
    split; [apply IH1 | split; [intros a; apply IH2 |]].
    intros a b. by apply H3. }
  apply Hall.
Qed.

#[local] Opaque encodeChar decodeChar.

Lemma decodeQuanta_encode s : decodeQuanta (EncodeToString s) = Some s.
Proof.
  induction s as [| a | a b | a b c s IH] using string_ind3.
  - reflexivity.
  - destruct a as [a0 a1 a2 a3 a4 a5 a6 a7]. simpl.
    by rewrite !decodeChar_encodeChar.
  - destruct a as [a0 a1 a2 a3 a4 a5 a6 a7], b as [b0 b1 b2 b3 b4 b5 b6 b7].
    simpl. rewrite !decodeChar_encodeChar. simpl.
    by rewrite (proj1 (encodeChar_plain _)).
  - destruct a as [a0 a1 a2 a3 a4 a5 a6 a7], b as [b0 b1 b2 b3 b4 b5 b6 b7],
      c as [c0 c1 c2 c3 c4 c5 c6 c7].
    simpl. rewrite !decodeChar_encodeChar. simpl.
    rewrite !(proj1 (encodeChar_plain _)). simpl.
    change ("" +:+ EncodeToString s) with (EncodeToString s).
    by rewrite IH.
Qed.

Lemma has_append sep s t : has sep (s +:+ t) = has sep s || has sep t.
Proof.
  induction s as [|c s IH]; [done |].
  change (String c s +:+ t) with (String c (s +:+ t)). simpl.
  rewrite IH. by destruct (Ascii.eqb c sep).
Qed.

Lemma EncodeToString_no_dot s : has "." (EncodeToString s) = false.
Proof.
  induction s as [| a | a b | a b c s IH] using string_ind3.
  - reflexivity.
  - destruct a as [a0 a1 a2 a3 a4 a5 a6 a7]. simpl.
    by rewrite !(proj2 (proj2 (encodeChar_plain _))).
  - destruct a as [a0 a1 a2 a3 a4 a5 a6 a7], b as [b0 b1 b2 b3 b4 b5 b6 b7].
    simpl. by rewrite !(proj2 (proj2 (encodeChar_plain _))).
  - change (EncodeToString (String a (String b (String c s))))
      with (encode3 a b c +:+ EncodeToString s).
    rewrite has_append, IH.
    destruct a as [a0 a1 a2 a3 a4 a5 a6 a7], b as [b0 b1 b2 b3 b4 b5 b6 b7],
      c as [c0 c1 c2 c3 c4 c5 c6 c7].
    simpl. by rewrite !(proj2 (proj2 (encodeChar_plain _))).
Qed.

Lemma stripNewlines_append s t :
  stripNewlines (s +:+ t) = stripNewlines s +:+ stripNewlines t.
Proof.
  induction s as [|c s IH]; [done |].
  change (String c s +:+ t) with (String c (s +:+ t)). simpl.
  rewrite IH. by destruct (is_newline c).
Qed.

Lemma stripNewlines_encode s :
  stripNewlines (EncodeToString s) = EncodeToString s.
Proof.
  induction s as [| a | a b | a b c s IH] using string_ind3.
  - reflexivity.
  - destruct a as [a0 a1 a2 a3 a4 a5 a6 a7]. simpl.
    by rewrite !(proj1 (proj2 (encodeChar_plain _))).
  - destruct a as [a0 a1 a2 a3 a4 a5 a6 a7], b as [b0 b1 b2 b3 b4 b5 b6 b7].
    simpl. by rewrite !(proj1 (proj2 (encodeChar_plain _))).
  - change (EncodeToString (String a (String b (String c s))))
      with (encode3 a b c +:+ EncodeToString s).
    rewrite stripNewlines_append, IH. f_equal.
    destruct a as [a0 a1 a2 a3 a4 a5 a6 a7], b as [b0 b1 b2 b3 b4 b5 b6 b7],
      c as [c0 c1 c2 c3 c4 c5 c6 c7].
    simpl. by rewrite !(proj1 (proj2 (encodeChar_plain _))).
Qed.

(** Decoding what was encoded gives the bytes back. *)
Lemma DecodeString_EncodeToString s :
  DecodeString (EncodeToString s) = Some s.
Proof.
  unfold DecodeString. by rewrite stripNewlines_encode, decodeQuanta_encode.
Qed.

End Base64Props.

Section TokenProps.
Import base64 token.
Context `{GoCrypto}.

Lemma SplitN2_append sep s t :
  has sep s = false → SplitN2 (s +:+ String sep t) sep = Some (s, t).
Proof.
  induction s as [|c s IH]; simpl; intros Hs.
  - by rewrite Ascii.eqb_refl.
  - apply orb_false_iff in Hs as [Hc Hs]. rewrite Hc, IH by done. done.
Qed.

(** What [SplitN2] returns are the two sides of the first separator. *)
Lemma SplitN2_Some sep s before after :
  SplitN2 s sep = Some (before, after) →
  s = before +:+ String sep after ∧ has sep before = false.
Proof.
  revert before. induction s as [|c s IH]; simpl; intros before; [done |].
  destruct (Ascii.eqb_spec c sep) as [->|Hne].
  - by intros [= <- <-].
  - destruct (SplitN2 s sep) as [[b a]|] eqn:Hs; simpl; [| done].
    intros [= <- <-]. destruct (IH b eq_refl) as [-> Hb].
    split; [done |]. simpl. rewrite Hb.
    by destruct (Ascii.eqb_spec c sep).
Qed.

(** A printed number starts with a digit. *)
Lemma string_of_uint_head d :
  ∃ c rest, NilZero.string_of_uint d = String c rest
            ∧ Ascii.eqb c "+" = false ∧ Ascii.eqb c "-" = false.
Proof. destruct d; simpl; eauto. Qed.

Lemma uint_of_string_of_uint d :
  NilZero.uint_of_string (NilZero.string_of_uint d)
  = Some (match d with Decimal.Nil => Decimal.D0 Decimal.Nil | _ => d end).
Proof.
  destruct d; [reflexivity | ..];
    (unfold NilZero.string_of_uint, NilZero.uint_of_string;
     rewrite NilEmpty.usu; reflexivity).
Qed.

Lemma ParseInt_formatInt z : int64 z → ParseInt (formatInt z) = Some z.
Proof.
  unfold int64, formatInt. intros Hz.
  pose proof (DecimalZ.of_to z) as Hback.
  destruct (Z.to_int z) as [d|d] eqn:Hd; simpl in *.
  - destruct (string_of_uint_head d) as (c & rest & Hs & Hplus & Hminus).
    unfold ParseInt. rewrite Hs, Hplus, Hminus, <- Hs.
    rewrite uint_of_string_of_uint. simpl.
    assert (Hv : Z.of_uint match d with
                           | Decimal.Nil => Decimal.D0 Decimal.Nil
                           | _ => d
                           end = z) by (by destruct d).
    rewrite Hv.
    destruct (Z.leb_spec (- 2 ^ 63) z); [| lia].
    destruct (Z.ltb_spec z (2 ^ 63)); [done | lia].
  - unfold ParseInt. simpl.
    rewrite uint_of_string_of_uint. simpl.
    assert (Hv : - Z.of_uint match d with
                             | Decimal.Nil => Decimal.D0 Decimal.Nil
                             | _ => d
                             end = z) by (by destruct d).
    rewrite Hv.
    destruct (Z.leb_spec (- 2 ^ 63) z); [| lia].
    destruct (Z.ltb_spec z (2 ^ 63)); [done | lia].
Qed.

Lemma Unix_mono t u : t ≤ u → Unix t ≤ Unix u.
Proof. intros. unfold Unix, Second. apply Z.div_le_mono; lia. Qed.

(** What [Verify] does with a token that [Sign] made. *)
Lemma Verify_Sign h now later key expires :
  has ":" key = false →
  int64 (Unix (now + expires)) →
  Verify h later (Sign h now key expires)
  = if Unix (now + expires) <? Unix later
    then Err (errorString "token expired") else Ok key.
Proof.
  intros Hkey Hrange. unfold Sign, Verify.
  change ("." +:+ ?x) with (String "." x).
  rewrite SplitN2_append by apply EncodeToString_no_dot.
  rewrite String.eqb_refl. simpl.
  rewrite DecodeString_EncodeToString.
  change (":" +:+ ?x) with (String ":" x).
  rewrite SplitN2_append by done.
  by rewrite ParseInt_formatInt.
Qed.

(** C7, as the code has it.  For a report key without a colon, a token
    made by [Sign] verifies to that key up to its expiry and is rejected as
    expired after it.  Any token whose tag is not the keyed tag of its
    payload is rejected, and a token that is accepted has the right tag
    and an embedded expiry that is not in the past. *)
Theorem token_round_trip h now later key expires token :
  has ":" key = false →
  int64 (Unix (now + expires)) →
  (later ≤ now + expires → Verify h later (Sign h now key expires) = Ok key)
  ∧ (Unix (now + expires) < Unix later →
     Verify h later (Sign h now key expires)
     = Err (errorString "token expired"))
  ∧ (∀ payload tag,
       SplitN2 token "." = Some (payload, tag) →
       tag ≠ EncodeToString (hmacSHA256 (secret h) payload) →
       Verify h later token = Err (errorString "invalid token signature"))
  ∧ (SplitN2 token "." = None →
     Verify h later token = Err (errorString "invalid token format"))
  ∧ (∀ payload text k expiry e,
       token = payload +:+ "."
               +:+ EncodeToString (hmacSHA256 (secret h) payload) →
       has "." payload = false →
       DecodeString payload = Some text →
       SplitN2 text ":" = Some (k, expiry) →
       ParseInt expiry = Some e →
       e < Unix later →
       Verify h later token = Err (errorString "token expired"))
  ∧ (∀ k, Verify h later token = Ok k →
       ∃ payload text expiry e,
         token = payload +:+ "."
                 +:+ EncodeToString (hmacSHA256 (secret h) payload)
         ∧ DecodeString payload = Some text
         ∧ SplitN2 text ":" = Some (k, expiry)
         ∧ ParseInt expiry = Some e
         ∧ Unix later ≤ e).
Proof.
  intros Hkey Hrange. repeat split.
  - intros Hbefore. rewrite Verify_Sign by done.
    apply Unix_mono in Hbefore.
    destruct (Z.ltb_spec (Unix (now + expires)) (Unix later)); [lia | done].
  - intros Hafter. rewrite Verify_Sign by done.
    destruct (Z.ltb_spec (Unix (now + expires)) (Unix later)); [done | lia].
  - intros payload tag Hsplit Htag. unfold Verify. rewrite Hsplit.
    destruct (String.eqb_spec tag
                (EncodeToString (hmacSHA256 (secret h) payload))); done.
  - intros Hsplit. unfold Verify. by rewrite Hsplit.
  - intros payload text k expiry e -> Hdot Htext Hparts He Hpast.
    unfold Verify. change ("." +:+ ?x) with (String "." x).
    rewrite SplitN2_append by done. rewrite String.eqb_refl. simpl.
    rewrite Htext, Hparts, He.
    destruct (Z.ltb_spec e (Unix later)); [done | lia].
  - intros k. unfold Verify.
    destruct (SplitN2 token ".") as [[payload tag]|] eqn:Hsplit; [| done].
    destruct (String.eqb_spec tag
                (EncodeToString (hmacSHA256 (secret h) payload)))
      as [->|]; simpl; [| done].
    destruct (DecodeString payload) as [text|] eqn:Htext; [| done].
    destruct (SplitN2 text ":") as [[k' expiry]|] eqn:Hparts; [| done].
    destruct (ParseInt expiry) as [e|] eqn:He; [| done].
    destruct (Z.ltb_spec e (Unix later)); [done |].
    intros [= <-]. exists payload, text, expiry, e.
    apply SplitN2_Some in Hsplit as [-> _]. repeat split; (done || lia).
Qed.

End TokenProps.

(** A day's token for the report of check ["c-1"], read an hour later. *)
Lemma token_round_trip_witness :
  token.has ":" "c-1.pdf" = false
  ∧ token.int64 (token.Unix (5 * token.Second + 24 * token.Hour))
  ∧ token.Verify (H:=token.concatMAC) (token.NewHMACToken "secret")
      (5 * token.Second + token.Hour)
      (token.Sign (H:=token.concatMAC) (token.NewHMACToken "secret")
         (5 * token.Second) "c-1.pdf" (24 * token.Hour))
    = Ok "c-1.pdf".
Proof.
  assert (Hkey : token.has ":" "c-1.pdf" = false) by reflexivity.
  assert (Hrange : token.int64
                     (token.Unix (5 * token.Second + 24 * token.Hour)))
    by (vm_compute; split; [discriminate | reflexivity]).
  split; [exact Hkey | split; [exact Hrange |]].
  apply (proj1 (token_round_trip (H:=token.concatMAC)
                  (token.NewHMACToken "secret") (5 * token.Second)
                  (5 * token.Second + token.Hour) "c-1.pdf"
                  (24 * token.Hour) "" Hkey Hrange)).
  vm_compute. discriminate.
Defined.

(** C7, as it is written, fails for a key with a colon in it: [Verify]
    cuts the payload at its first colon, reads the rest of the key as part
    of the expiry, and rejects the token that [Sign] has just made,
    whatever the tag function and the secret are. *)
Lemma colon_key_rejected :
  token.SplitN2 "a:b.pdf:86405" ":" = Some ("a", "b.pdf:86405")
  ∧ token.ParseInt "b.pdf:86405" = None
  ∧ ∀ (mac : token.GoCrypto) (h : token.HMACToken),
      token.Verify (H:=mac) h (5 * token.Second)
        (token.Sign (H:=mac) h (5 * token.Second) "a:b.pdf"
           (24 * token.Hour))
      = Err (errorString "invalid expiration time").
Proof.
  split; [reflexivity | split; [reflexivity |]].
  intros mac h. unfold token.Sign, token.Verify.
  change (token.Unix (5 * token.Second + 24 * token.Hour)) with 86405.
  change ("a:b.pdf" +:+ ":" +:+ token.formatInt 86405) with "a:b.pdf:86405".
  change (base64.EncodeToString "a:b.pdf:86405") with "YTpiLnBkZjo4NjQwNQ==".
  change ("." +:+ ?x) with (String "." x).
  rewrite SplitN2_append by reflexivity.
  rewrite String.eqb_refl. reflexivity.
Qed.

(** *** The synchronous façade *)
Section FacadeProps.
Import token http.
Context `{GoCrypto}.

Lemma status_of_stored now checkID c (w : World) :
  repo w !! checkID = Some c →
  (GetCheckStatus_Execute now checkID w).1
  = if IsExpired now c then Err (errorString "check expired") else Ok c.
Proof.
  intros Hc.
  unfold GetCheckStatus_Execute, mbind, M_bind, wrapErr, repository_Get,
    repositories.Get, fail, mret, M_ret.
  simpl. rewrite Hc. simpl. by destruct (IsExpired now c).
Qed.

Lemma awaitCompletion_pending h checkID before rest :
  forallb (pending checkID) before = true →
  awaitCompletion h checkID (before ++ rest) = awaitCompletion h checkID rest.
Proof.
  induction before as [|t before IH]; simpl; [done |].
  intros Hall. apply andb_true_iff in Hall as [Ht Hall].
  unfold pending in Ht.
  destruct ((GetCheckStatus_Execute (tickNow t) checkID (tickWorld t)).1)
    as [check|err]; [| by apply IH].
  apply bool_decide_eq_true in Ht. rewrite Ht. by apply IH.
Qed.

(** C6, as the code has it.  While the polls the handler gets to make
    find the check unknown, expired or in Processing, the wait goes on; the
    first poll that reads a terminal record that is not expired ends it
    with that record's result: for Completed the status 200 and the body
    "success" with the score, the level, the categories and the sanctions
    of the record and the signed link of its report, for Failed the status
    502 and the error message.  When the deadline comes first the answer is
    the status 202 and the body "processing" with the poll URL, which is
    the API URL, [/v1/check-address/] and the check id.  A later status
    query for a record that is stored and not expired answers 200 with the
    same body for Completed and 500 with the error message for Failed; for
    an expired record it answers 410 and for an unknown id 404. *)
Theorem bounded_wait h checkID before t after c now signNow (w : World) :
  forallb (pending checkID) before = true →
  checkID ≠ "" →
  terminal (Status c) = true →
  let success at_ :=
    {| StatusCode := 200;
       Written :=
         CheckAddressResponse "success" (RiskScore c) (RiskLevelOf c)
           (Categories c)
           match Sanctions c with
           | None => {| DTOHit := false; DTOIdentifications := [] |}
           | Some found =>
               {| DTOHit := Hit found;
                  DTOIdentifications :=
                    (λ ident, {| DTOCategory := Category ident;
                                 DTOName := Name ident;
                                 DTOURL := URL ident |})
                    <$> Identifications found |}
           end
           (apiURL h +:+ "/v1/report/"
            +:+ Sign (tokenProvider h) at_ (ReportKey c) (24 * Hour)) |} in
  let failure code text :=
    {| StatusCode := code; Written := ErrorResponse text |} in
  (repo (tickWorld t) !! checkID = Some c → IsExpired (tickNow t) c = false →
   awaitCompletion h checkID (before ++ t :: after)
   = match Status c with
     | StatusFailed =>
         failure 502 ("AML check failed: " +:+ ErrorMessage c)
     | _ => success (tickSignNow t)
     end)
  ∧ awaitCompletion h checkID before
    = {| StatusCode := 202;
         Written :=
           CheckAddressAcceptedResponse "processing"
             "Check is being processed. Use the poll_url to check status."
             (apiURL h +:+ "/v1/check-address/" +:+ checkID) |}
  ∧ (repo w !! checkID = Some c → IsExpired now c = false →
     GetCheckStatus h now signNow checkID w
     = match Status c with
       | StatusFailed => failure 500 ("check failed: " +:+ ErrorMessage c)
       | _ => success signNow
       end)
  ∧ (repo w !! checkID = Some c → IsExpired now c = true →
     GetCheckStatus h now signNow checkID w = failure 410 "check expired")
  ∧ (repo w !! checkID = None →
     GetCheckStatus h now signNow checkID w = failure 404 "check not found").
Proof.
  intros Hbefore Hid Hterm success failure.
  assert (Hne : String.eqb checkID "" = false)
    by (by destruct (String.eqb_spec checkID "")).
  split; [| split; [| split; [| split]]].
  - intros Hc Hlive. rewrite awaitCompletion_pending by done. simpl.
    rewrite (status_of_stored _ _ c) by done. rewrite Hlive.
    by destruct (Status c).
  - rewrite <- (app_nil_r before) at 1.
    by rewrite awaitCompletion_pending.
  - intros Hc Hlive. unfold GetCheckStatus. rewrite Hne.
    rewrite (status_of_stored _ _ c) by done. rewrite Hlive.
    by destruct (Status c).
  - intros Hc Hdead. unfold GetCheckStatus. rewrite Hne.
    rewrite (status_of_stored _ _ c) by done. by rewrite Hdead.
  - intros Hc. unfold GetCheckStatus. rewrite Hne.
    unfold GetCheckStatus_Execute, mbind, M_bind, wrapErr, repository_Get,
      repositories.Get, fail. simpl. by rewrite Hc.
Qed.

End FacadeProps.

(** A wait whose first poll finds check ["c-1"] in Processing and whose
    second finds it Completed. *)
Lemma bounded_wait_witness :
  let first := {| http.tickWorld := oneCheck; http.tickNow := 500;
                  http.tickSignNow := 500 |} in
  let second := {| http.tickWorld := doneWorld; http.tickNow := 1000;
                   http.tickSignNow := 1001 |} in
  forallb (http.pending "c-1") [first] = true
  ∧ "c-1" ≠ ""
  ∧ terminal (Status doneCheck) = true
  ∧ http.awaitCompletion (H:=token.concatMAC) http.localHandlers "c-1"
      [first; second]
    = {| http.StatusCode := 200;
         http.Written :=
           http.CheckAddressResponse "success" 85 "Critical"
             ["Darknet"; "Mixer"]
             {| http.DTOHit := false; http.DTOIdentifications := [] |}
             ("http://localhost:8080/v1/report/"
              +:+ token.Sign (H:=token.concatMAC)
                    (token.NewHMACToken "secret") 1001 "c-1.pdf"
                    (24 * token.Hour)) |}.
Proof.
  intros first second.
  assert (H1 : forallb (http.pending "c-1") [first] = true)
    by (vm_compute; reflexivity).
  assert (H2 : "c-1" ≠ "") by discriminate.
  assert (H3 : terminal (Status doneCheck) = true) by reflexivity.
  split; [exact H1 | split; [exact H2 | split; [exact H3 |]]].
  apply (proj1 (bounded_wait (H:=token.concatMAC) http.localHandlers "c-1"
                  [first] second [] doneCheck 0 0 oneCheck H1 H2 H3)).
  - vm_compute. reflexivity.
  - vm_compute. reflexivity.
Defined.

(** C6, as it is written, fails once the check has expired: the record of
    check ["c-1"] is Completed, yet a poll at 2000 (the record expired at
    1010) does not end the wait, which answers 202, and the status query
    for the poll handle answers 410, not the result. *)
Lemma expired_result_withheld :
  let late := {| http.tickWorld := doneWorld; http.tickNow := 2000;
                 http.tickSignNow := 2000 |} in
  Status doneCheck = StatusCompleted
  ∧ repo doneWorld !! "c-1" = Some doneCheck
  ∧ ExpiresAt doneCheck = 1010
  ∧ ∀ (mac : token.GoCrypto) (h : http.Handlers),
      http.GetCheckStatus (H:=mac) h 2000 2000 "c-1" doneWorld
      = {| http.StatusCode := 410;
           http.Written := http.ErrorResponse "check expired" |}
      ∧ http.awaitCompletion (H:=mac) h "c-1" [late]
        = {| http.StatusCode := 202;
             http.Written :=
               http.CheckAddressAcceptedResponse "processing"
                 "Check is being processed. Use the poll_url to check status."
                 (http.apiURL h +:+ "/v1/check-address/" +:+ "c-1") |}.
Proof.
  intros late. repeat split.
Qed.

(** ** Further properties of the code *)

(** *** The registry: round trips and the sweep *)
Section RegistryMore.

(** X1: a check created under a fresh id is what [Get] returns for that
    id; a second [Create] under the same id fails and keeps the first
    record; an [Update] under that id replaces it.  [Get] of an id that was
    never created returns no record and no error. *)
Theorem registry_create_get_update (check check' : AMLCheck) (r : Registry)
    (other : string) :
  r !! ID check = None →
  ID check' = ID check →
  let r1 := (Create check r).2 in
  (Create check r).1 = None
  ∧ Get (ID check) r1 = Ok (Some check)
  ∧ size r1 = S (size r)
  ∧ Create check' r1 = (Some (errorString "check already exists"), r1)
  ∧ (Update check' r1).1 = None
  ∧ Get (ID check) (Update check' r1).2 = Ok (Some check')
  ∧ size (Update check' r1).2 = size r1
  ∧ (r !! other = None → Get other r = Ok None
                         ∧ (Update check r).1
                           = Some (errorString "check not found")).
Proof.
  intros Hfresh Hid r1.
  assert (Hr1 : r1 = <[ID check := check]> r)
    by (unfold r1, Create; by rewrite Hfresh).
  assert (Hin : r1 !! ID check' = Some check)
    by (by rewrite Hr1, Hid, lookup_insert_eq).
  assert (Hup : Update check' r1 = (None, <[ID check := check']> r))
    by (unfold Update; by rewrite Hin, Hr1, Hid, insert_insert_eq).
  split; [unfold Create; by rewrite Hfresh |].
  split; [unfold Get; by rewrite Hr1, lookup_insert_eq |].
  split; [rewrite Hr1; by apply map_size_insert_None |].
  split; [unfold Create; by rewrite Hin |].
  split; [by rewrite Hup |].
  split; [rewrite Hup; unfold Get; simpl; by rewrite lookup_insert_eq |].
  split; [rewrite Hup, Hr1; simpl; by rewrite !map_size_insert_None |].
  intros Hother. unfold Get, Update. by rewrite Hother, Hfresh.
Qed.

Lemma filter_expired_swept now t (r : Registry) :
  t ≤ now →
  filter (expiredAt t) (filter (λ entry, ¬ expiredAt now entry) r) = ∅.
Proof.
  intros Ht. apply map_empty. intros id.
  apply map_lookup_filter_None. right. intros c Hc Hdead.
  apply map_lookup_filter_Some in Hc as [_ Hlive]. unfold expiredAt in *.
  simpl in *. lia.
Qed.

(** X2: after a sweep at [now] every record still stored was stored
    before, unchanged, and expires at [now] or later; a record that expired
    before [now] is gone, so [Get] returns no record for it; and a second
    sweep at [now] or at any earlier time removes nothing and returns 0. *)
Theorem CleanupExpired_settles (now t : Z) (r : Registry) (id : string) :
  let swept := (CleanupExpired now r).2 in
  match swept !! id with
  | Some c => r !! id = Some c ∧ now ≤ ExpiresAt c
  | None => ∀ c, r !! id = Some c → ExpiresAt c < now
  end
  ∧ (∀ c, r !! id = Some c → ExpiresAt c < now → Get id swept = Ok None)
  ∧ (t ≤ now → CleanupExpired t swept = (0, swept)).
Proof.
  intros swept.
  assert (Hswept : swept = filter (λ entry, ¬ expiredAt now entry) r).
  { unfold swept, CleanupExpired. rewrite sweep_fold. simpl.
    apply difference_filter. }
  assert (Hlook : ∀ c, r !! id = Some c →
            swept !! id = if decide (ExpiresAt c < now) then None else Some c).
  { intros c Hc. rewrite Hswept. case_decide.
    - apply map_lookup_filter_None. right. intros c' Hc'.
      rewrite Hc in Hc'. injection Hc' as <-. unfold expiredAt. simpl. tauto.
    - apply map_lookup_filter_Some. split; [done |].
      unfold expiredAt. simpl. lia. }
  split; [| split].
  - destruct (swept !! id) as [c|] eqn:Hc.
    + rewrite Hswept in Hc. apply map_lookup_filter_Some in Hc as [Hc Hlive].
      unfold expiredAt in Hlive. simpl in Hlive. split; [done | lia].
    + intros c Hr. specialize (Hlook c Hr). by case_decide.
  - intros c Hc Hdead. unfold Get. rewrite (Hlook c Hc).
    by case_decide.
  - intros Ht. unfold CleanupExpired. rewrite sweep_fold. simpl.
    rewrite Hswept, filter_expired_swept by done.
    by rewrite map_difference_empty, map_size_empty.
Qed.

End RegistryMore.

(** A fresh check is created, found, refused a second time and updated. *)
Lemma registry_create_get_update_witness :
  (∅ : Registry) !! ID (sample "a" 5) = None
  ∧ ID (sample "a" 9) = ID (sample "a" 5)
  ∧ Get "a" (Update (sample "a" 9) (Create (sample "a" 5) ∅).2).2
    = Ok (Some (sample "a" 9)).
Proof.
  assert (Hfresh : (∅ : Registry) !! ID (sample "a" 5) = None) by reflexivity.
  assert (Hid : ID (sample "a" 9) = ID (sample "a" 5)) by reflexivity.
  split; [exact Hfresh | split; [exact Hid |]].
  exact (proj1 (proj2 (proj2 (proj2 (proj2 (proj2
           (registry_create_get_update (sample "a" 5) (sample "a" 9) ∅ "b"
              Hfresh Hid))))))).
Defined.

(** *** The report storage *)
Section StorageMore.
Import storage.

Lemma difference_insert_delete_Z (m1 m2 : gmap string Z) i x :
  m1 ∖ <[i:=x]> m2 = delete i (m1 ∖ m2).
Proof.
  apply map_eq. intros j.
  destruct (decide (i = j)) as [->|Hne].
  - rewrite lookup_delete_eq. apply lookup_difference_None.
    right. rewrite lookup_insert_eq. eauto.
  - rewrite lookup_delete_ne by done.
    rewrite !lookup_difference, lookup_insert_ne by done. done.
Qed.

(** The loop of the sweep of the reports, from any accumulator. *)
Lemma sweepReport_fold removeReply now (base : LocalStorage) (k : Z)
    (m : gmap string Z) :
  let acc := map_fold (sweepReport removeReply now) (base, k) m in
  metadata acc.1 = metadata base ∖ filter (due now) m
  ∧ acc.2 = k + Z.of_nat (size (filter (due now) m))
  ∧ ∀ key, files acc.1 !! key
           = match m !! key with
             | Some e =>
                 if (e <? now) && bool_decide (removeReply key = None)
                 then None else files base !! key
             | None => files base !! key
             end.
Proof.
  apply (map_fold_weak_ind
           (λ acc m,
              metadata acc.1 = metadata base ∖ filter (due now) m
              ∧ acc.2 = k + Z.of_nat (size (filter (due now) m))
              ∧ ∀ key, files acc.1 !! key
                       = match m !! key with
                         | Some e =>
                             if (e <? now)
                                && bool_decide (removeReply key = None)
                             then None else files base !! key
                         | None => files base !! key
                         end)).
  - rewrite map_filter_empty, map_difference_empty, map_size_empty.
    simpl. split; [done | split; [lia |]]. intros key.
    by rewrite lookup_empty.
  - intros i x m' acc Hi (Hmeta & Hcount & Hfiles). unfold sweepReport.
    destruct (Z.ltb_spec x now) as [Hlt|Hge]; simpl.
    + rewrite map_filter_insert_True by exact Hlt.
      rewrite difference_insert_delete_Z, Hmeta, Hcount.
      rewrite map_size_insert_None
        by (apply map_lookup_filter_None; left; exact Hi).
      split; [done | split; [lia |]]. intros key.
      destruct (decide (i = key)) as [->|Hne].
      * rewrite lookup_insert_eq.
        destruct (Z.ltb_spec x now); [simpl | lia].
        destruct (removeReply key) as [e|] eqn:Hrm.
        -- rewrite bool_decide_false by done. rewrite Hfiles, Hi. done.
        -- rewrite bool_decide_true by done. by rewrite lookup_delete_eq.
      * rewrite lookup_insert_ne by done.
        destruct (removeReply i);
          rewrite ?lookup_delete_ne by done; apply Hfiles.
    + rewrite map_filter_insert_not'; [| unfold due; simpl; lia
                                       | intros y Hy; congruence].
      split; [done | split; [done |]]. intros key.
      destruct (decide (i = key)) as [->|Hne].
      * rewrite lookup_insert_eq, Hfiles, Hi.
        destruct (Z.ltb_spec x now); [lia | done].
      * rewrite lookup_insert_ne by done. apply Hfiles.
Qed.

(** The sweep of the reports, key by key. *)
Lemma reports_sweep_lookup removeReply now (s : LocalStorage) key :
  let out := CleanupExpired removeReply now s in
  metadata out.2 !! key
  = (e ← metadata s !! key; if e <? now then None else Some e)
  ∧ files out.2 !! key
    = match metadata s !! key with
      | Some e =>
          if (e <? now) && bool_decide (removeReply key = None)
          then None else files s !! key
      | None => files s !! key
      end.
Proof.
  intros out.
  destruct (sweepReport_fold removeReply now s 0 (metadata s))
    as (Hmeta & _ & Hfiles).
  change (map_fold (sweepReport removeReply now) (s, 0) (metadata s)).1
    with out.2 in Hmeta, Hfiles.
  split; [| apply Hfiles].
  rewrite Hmeta, lookup_difference, map_lookup_filter.
  destruct (metadata s !! key) as [e|]; simpl; [| done].
  unfold due. simpl.
  destruct (Z.ltb_spec e now); case_guard; simpl; (done || lia).
Qed.

Lemma reports_sweep_backed removeReply now (s : LocalStorage) :
  backed s → backed (CleanupExpired removeReply now s).2.
Proof.
  unfold backed. intros Hb k Hk.
  destruct (reports_sweep_lookup removeReply now s k) as [Hm Hfiles].
  apply elem_of_dom in Hk as [e Hk]. rewrite Hm in Hk.
  destruct (metadata s !! k) as [e'|] eqn:Hk'; simpl in Hk; [| done].
  destruct (Z.ltb_spec e' now); [done |].
  apply elem_of_dom. rewrite Hfiles.
  destruct (Z.ltb_spec e' now); [lia | simpl].
  apply elem_of_dom, Hb, elem_of_dom. eauto.
Qed.

(** X4: the sweep of the reports at [now] returns the number of reports
    whose expiry is before [now] and forgets exactly those; the file of an
    unexpired report is never touched, that of a forgotten one is removed
    unless [os.Remove] failed.  Afterwards [Get] answers "report not found"
    for a forgotten report and as before for every other key, and every
    report that is still known keeps its file. *)
Theorem reports_CleanupExpired removeReply readErr (now t : Z)
    (key : string) (s : LocalStorage) :
  let out := CleanupExpired removeReply now s in
  out.1 = Z.of_nat (size (filter (due now) (metadata s)))
  ∧ metadata out.2 !! key
    = (e ← metadata s !! key; if e <? now then None else Some e)
  ∧ files out.2 !! key
    = match metadata s !! key with
      | Some e =>
          if (e <? now) && bool_decide (removeReply key = None)
          then None else files s !! key
      | None => files s !! key
      end
  ∧ Get readErr t key out.2
    = match metadata s !! key with
      | Some e =>
          if e <? now then Err (errorString "report not found")
          else Get readErr t key s
      | None => Get readErr t key s
      end
  ∧ (backed s → backed out.2).
Proof.
  intros out.
  destruct (sweepReport_fold removeReply now s 0 (metadata s))
    as (_ & Hcount & _).
  change (map_fold (sweepReport removeReply now) (s, 0) (metadata s)).2
    with out.1 in Hcount.
  destruct (reports_sweep_lookup removeReply now s key) as [Hm Hfiles].
  fold out in Hm, Hfiles.
  split; [rewrite Hcount; lia |]. split; [apply Hm |].
  split; [apply Hfiles |]. split.
  - unfold Get. rewrite Hm, Hfiles.
    destruct (metadata s !! key) as [e|]; simpl; [| done].
    destruct (Z.ltb_spec e now); simpl; done.
  - apply reports_sweep_backed.
Qed.

End StorageMore.

(** *** The signed report links *)
Section TokenMore.
Import base64 token.
Context `{GoCrypto}.

Lemma tokenChar_encodeChar x : tokenChar (encodeChar x) = true.
Proof. by destruct x as [[] [] [] [] [] []]. Qed.

Lemma all_chars_append p s t :
  all_chars p (s +:+ t) = all_chars p s && all_chars p t.
Proof.
  induction s as [|c s IH]; simpl; [done |].
  by rewrite IH, andb_assoc.
Qed.

Lemma EncodeToString_tokenChar s :
  all_chars tokenChar (EncodeToString s) = true.
Proof.
  induction s as [| a | a b | a b c rest IH] using string_ind3.
  - done.
  - destruct a. simpl. by rewrite !tokenChar_encodeChar.
  - destruct a, b. simpl. by rewrite !tokenChar_encodeChar.
  - change (EncodeToString (String a (String b (String c rest))))
      with (encode3 a b c +:+ EncodeToString rest).
    rewrite all_chars_append, IH. destruct a, b, c. simpl.
    by rewrite !tokenChar_encodeChar.
Qed.

Lemma EncodeToString_inj s t : EncodeToString s = EncodeToString t → s = t.
Proof.
  intros Heq.
  assert (Hdec : DecodeString (EncodeToString s)
                 = DecodeString (EncodeToString t)) by by rewrite Heq.
  rewrite !DecodeString_EncodeToString in Hdec. congruence.
Qed.

Lemma Sign_split h now key expires :
  SplitN2 (Sign h now key expires) "."
  = Some (EncodeToString (key +:+ ":" +:+ formatInt (Unix (now + expires))),
          EncodeToString
            (hmacSHA256 (secret h)
               (EncodeToString
                  (key +:+ ":" +:+ formatInt (Unix (now + expires)))))).
Proof.
  unfold Sign. change ("." +:+ ?x) with (String "." x).
  by rewrite SplitN2_append by apply EncodeToString_no_dot.
Qed.

(** X5: a token made by [Sign] is not empty and is written in letters,
    digits, [-], [_], [=] and one dot only, so it is one segment of the
    path of the report link; the dot parts the encoded payload from the
    encoded tag, and the payload decodes, without the secret, to the key, a
    colon and the expiry in seconds. *)
Theorem Sign_token_shape h now key expires :
  let tok := Sign h now key expires in
  tok ≠ ""
  ∧ all_chars tokenChar tok = true
  ∧ has "/" tok = false
  ∧ ∃ payload tag,
      SplitN2 tok "." = Some (payload, tag)
      ∧ has "." tag = false
      ∧ tag = EncodeToString (hmacSHA256 (secret h) payload)
      ∧ DecodeString payload
        = Some (key +:+ ":" +:+ formatInt (Unix (now + expires))).
Proof.
  intros tok.
  assert (Hchars : all_chars tokenChar tok = true).
  { unfold tok, Sign. rewrite !all_chars_append.
    by rewrite !EncodeToString_tokenChar. }
  assert (Hsplit := Sign_split h now key expires). fold tok in Hsplit.
  split; [| split; [exact Hchars | split]].
  - intros Hempty. by rewrite Hempty in Hsplit.
  - clear Hsplit. induction tok as [|c tok IH]; [done |].
    simpl in *. apply andb_true_iff in Hchars as [Hc Htok].
    rewrite IH by done. by destruct (Ascii.eqb_spec c "/") as [->|].
  - eexists _, _. split; [exact Hsplit |].
    split; [apply EncodeToString_no_dot |]. split; [done |].
    apply DecodeString_EncodeToString.
Qed.

(** X6: under another secret a token made by [Sign] is rejected with
    "invalid token signature" unless the two secrets give its payload the
    same tag, in which case it is judged as under its own secret. *)
Theorem Verify_other_secret h h' now later key expires :
  let tok := Sign h now key expires in
  let payload :=
    EncodeToString (key +:+ ":" +:+ formatInt (Unix (now + expires))) in
  (hmacSHA256 (secret h') payload ≠ hmacSHA256 (secret h) payload →
   Verify h' later tok = Err (errorString "invalid token signature"))
  ∧ (hmacSHA256 (secret h') payload = hmacSHA256 (secret h) payload →
     Verify h' later tok = Verify h later tok).
Proof.
  intros tok payload. split; intros Htag.
  - unfold Verify. unfold tok. rewrite Sign_split. fold payload.
    destruct (String.eqb_spec
                (EncodeToString (hmacSHA256 (secret h) payload))
                (EncodeToString (hmacSHA256 (secret h') payload)))
      as [Heq|]; [| done].
    apply EncodeToString_inj in Heq. congruence.
  - unfold Verify, tok. rewrite Sign_split. fold payload.
    by rewrite Htag.
Qed.

(** X7: for every token, time only ever turns acceptance into "token
    expired": a token accepted at some instant is accepted, with the same
    key, at every earlier one; a token that has expired stays expired; and
    every other rejection is the same at all times. *)
Theorem Verify_over_time h earlier later token :
  earlier ≤ later →
  (∀ key, Verify h later token = Ok key → Verify h earlier token = Ok key)
  ∧ (Verify h earlier token = Err (errorString "token expired") →
     Verify h later token = Err (errorString "token expired"))
  ∧ (∀ e t, Verify h later token = Err e →
            e ≠ errorString "token expired" →
            Verify h t token = Err e).
Proof.
  intros Hle. apply Unix_mono in Hle. unfold Verify.
  destruct (SplitN2 token ".") as [[payload tag]|]; [| by repeat split].
  destruct (negb _); [by repeat split |].
  destruct (DecodeString payload) as [text|]; [| by repeat split].
  destruct (SplitN2 text ":") as [[k expiry]|]; [| by repeat split].
  destruct (ParseInt expiry) as [e|]; [| by repeat split].
  split; [| split].
  - intros key.
    destruct (Z.ltb_spec e (Unix later)); [done |].
    destruct (Z.ltb_spec e (Unix earlier)); [lia | done].
  - destruct (Z.ltb_spec e (Unix earlier)); [| done].
    destruct (Z.ltb_spec e (Unix later)); [done | lia].
  - intros e' t. destruct (Z.ltb_spec e (Unix later)); [| done].
    by intros [= <-].
Qed.

End TokenMore.

(** A token accepted after an hour was accepted after a second. *)
Lemma Verify_over_time_witness :
  5 * token.Second + token.Second ≤ 5 * token.Second + token.Hour
  ∧ token.Verify (H:=token.concatMAC) (token.NewHMACToken "secret")
      (5 * token.Second + token.Second)
      (token.Sign (H:=token.concatMAC) (token.NewHMACToken "secret")
         (5 * token.Second) "c-1.pdf" (24 * token.Hour))
    = Ok "c-1.pdf".
Proof.
  assert (Hle : 5 * token.Second + token.Second
                ≤ 5 * token.Second + token.Hour)
    by (vm_compute; discriminate).
  split; [exact Hle |].
  apply (proj1 (Verify_over_time (H:=token.concatMAC)
                  (token.NewHMACToken "secret") _ _ _ Hle)).
  vm_compute. reflexivity.
Defined.

(** *** Redelivery *)
Section BusMore.
Import rabbitmq.

Lemma attempts_app ms1 ms2 :
  attempts (ms1 ++ ms2) = attempts ms1 + attempts ms2.
Proof.
  unfold attempts. induction ms1 as [|m ms1 IH]; simpl; [done |].
  rewrite IH. lia.
Qed.

Lemma attempts_inRounds routingKeys ms :
  Forall (inRounds routingKeys) ms → Z.of_nat (length ms) ≤ attempts ms.
Proof.
  induction 1 as [|m ms [Hm _] _ IH]; [done |].
  change (attempts (m :: ms)) with (attemptsLeft m + attempts ms).
  unfold attemptsLeft, MaxRetries in *. simpl length. lia.
Qed.

Lemma turn_idle queueName routingKeys handled brokerReply b :
  ready b = [] → turn queueName routingKeys handled brokerReply b = b.
Proof. unfold turn. by intros ->. Qed.

Lemma turns_idle queueName routingKeys rs b :
  ready b = [] → turns queueName routingKeys rs b = b.
Proof.
  intros Hb. induction rs as [|r rs IH]; simpl; [done |].
  by rewrite turn_idle.
Qed.

(** One turn on a queue that is not empty. *)
Lemma turn_inRounds queueName routingKeys handled b :
  Forall (inRounds routingKeys) (ready b) → ready b ≠ [] →
  let b' := turn queueName routingKeys handled None b in
  Forall (inRounds routingKeys) (ready b')
  ∧ (∃ msg, settled b' = settled b ++ [(msg, Ack)])
  ∧ attempts (ready b') + 1 ≤ attempts (ready b)
  ∧ (length (ready b') + length (deadLetters b')
     ≤ length (ready b) + length (deadLetters b))%nat
  ∧ ∃ new, deadLetters b' = deadLetters b ++ new
           ∧ Forall (λ m, deadLetterCount m = Some (VInt32 MaxRetries)) new.
Proof.
  destruct b as [[|msg rest] dl st]; cbn [ready settled deadLetters];
    [done |].
  intros Hall _. apply Forall_cons in Hall as [[Hc Hkey] Hrest].
  change (attempts (msg :: rest)) with (attemptsLeft msg + attempts rest).
  destruct handled as [err|].
  - destruct (decide (MaxRetries ≤ retryCountOf msg)) as [Hge|Hlt].
    + rewrite turn_dead_letter by done. cbn [ready settled deadLetters].
      split; [done |]. split; [by eexists |].
      split; [unfold attemptsLeft, MaxRetries in *; lia |].
      split; [rewrite length_app; simpl; lia |].
      eexists [_]. split; [done |]. repeat constructor.
      unfold deadLetterCount, dlqHeaders. simpl.
      simplify_map_eq. do 2 f_equal. lia.
    + rewrite turn_failed; [| apply int32_small; unfold MaxRetries in *; lia
                            | lia | done].
      cbn [ready settled deadLetters].
      assert (Hnext : retryCountOf
                        (deliver (RoutingKey msg)
                           (Msg (republish msg (retryCountOf msg + 1) None)))
                      = retryCountOf msg + 1).
      { unfold retryCountOf at 1. simpl. by rewrite lookup_singleton_eq. }
      split.
      { apply Forall_app. split; [done |]. constructor; [| constructor].
        split; [rewrite Hnext; lia | done]. }
      split; [by eexists |].
      split.
      { rewrite attempts_app.
        change (attempts [?m]) with (attemptsLeft m + 0).
        unfold attemptsLeft at 1. rewrite Hnext. unfold attemptsLeft. lia. }
      split; [rewrite length_app; simpl; lia |].
      exists []. by rewrite app_nil_r.
  - rewrite turn_handled. cbn [ready settled deadLetters].
    split; [done |]. split; [by eexists |].
    split; [unfold attemptsLeft, MaxRetries in *; lia |].
    split; [simpl; lia |]. exists []. by rewrite app_nil_r.
Qed.

(** X8: redelivery is bounded.  On a queue whose messages carry counters
    the bus has set (0 to 3, 0 for a message without the header), with a
    broker that accepts the publishes and whatever the handler returns each
    time: the handler is called at most [attempts] times in all, that is at
    most 4 times for each message; every delivery is acknowledged; messages
    never multiply; every dead letter made carries the counter 3; and once
    [attempts] turns have gone by the queue is empty. *)
Theorem redelivery_bounded queueName routingKeys rs b :
  Forall (inRounds routingKeys) (ready b) →
  let b' := turns queueName routingKeys rs b in
  Forall (inRounds routingKeys) (ready b')
  ∧ attempts (ready b) ≤ 4 * Z.of_nat (length (ready b))
  ∧ (∃ acked, settled b' = settled b ++ acked
              ∧ Forall (λ entry, entry.2 = Ack) acked
              ∧ Z.of_nat (length acked) ≤ attempts (ready b))
  ∧ (length (ready b') + length (deadLetters b')
     ≤ length (ready b) + length (deadLetters b))%nat
  ∧ (∃ new, deadLetters b' = deadLetters b ++ new
            ∧ Forall (λ m, deadLetterCount m = Some (VInt32 MaxRetries)) new)
  ∧ (attempts (ready b) ≤ Z.of_nat (length rs) → ready b' = []).
Proof.
  intros Hall b'.
  assert (Hfour : attempts (ready b) ≤ 4 * Z.of_nat (length (ready b))).
  { clear b'. induction Hall as [|m ms [Hm _] _ IH]; [done |].
    change (attempts (m :: ms)) with (attemptsLeft m + attempts ms).
    unfold attemptsLeft, MaxRetries in *. simpl length. lia. }
  cut (Forall (inRounds routingKeys) (ready b')
       ∧ (∃ acked, settled b' = settled b ++ acked
                   ∧ Forall (λ entry, entry.2 = Ack) acked
                   ∧ Z.of_nat (length acked) ≤ attempts (ready b))
       ∧ (length (ready b') + length (deadLetters b')
          ≤ length (ready b) + length (deadLetters b))%nat
       ∧ (∃ new, deadLetters b' = deadLetters b ++ new
                 ∧ Forall (λ m, deadLetterCount m = Some (VInt32 MaxRetries))
                     new)
       ∧ (attempts (ready b) ≤ Z.of_nat (length rs) → ready b' = [])).
  { tauto. }
  clear Hfour. unfold b'. clear b'. revert b Hall.
  induction rs as [|r rs IH]; intros b Hall.
  - simpl. pose proof (attempts_inRounds _ _ Hall) as Hlen.
    split; [done |].
    split; [exists []; rewrite app_nil_r; repeat split; [done | simpl; lia] |].
    split; [lia |].
    split; [exists []; by rewrite app_nil_r |].
    intros Hzero. destruct (ready b); [done | simpl length in *; lia].
  - destruct (ready b) as [|msg rest] eqn:Hready.
    + rewrite turns_idle by done. rewrite Hready.
      split; [done |]. change (attempts []) with 0.
      split; [exists []; rewrite app_nil_r; repeat split; [done | simpl; lia] |].
      split; [simpl; lia |].
      split; [exists []; by rewrite app_nil_r |]. done.
    + rewrite <- Hready in *.
      assert (Hne : ready b ≠ []) by by rewrite Hready.
      destruct (turn_inRounds queueName routingKeys r b Hall Hne)
        as (Hall1 & (first & Hst1) & Hless & Hcount1 & new1 & Hdl1 & Hnew1).
      simpl turns.
      destruct (IH _ Hall1)
        as (Hall2 & (acked & Hst2 & Hacked & Hlen2) & Hcount2
            & (new2 & Hdl2 & Hnew2) & Hdrain).
      split; [done |]. split.
      { exists ((first, Ack) :: acked).
        rewrite Hst2, Hst1, <- app_assoc. split; [done |].
        split; [by constructor | simpl length; lia]. }
      split; [lia |]. split.
      { exists (new1 ++ new2). rewrite Hdl2, Hdl1, <- app_assoc.
        split; [done |]. by apply Forall_app. }
      intros Hrs. apply Hdrain. simpl length in Hrs. lia.
Qed.

(** X9: when the broker refuses the publish the consumer makes after a
    failure, a message with rounds left goes back to the head of the queue
    as it was, with its counter unchanged, and a message that was to be
    dead-lettered is dropped: it is neither in the queue nor among the
    dead letters. *)
Theorem refused_publish queueName routingKeys err refusal msg rest dl st :
  let b := {| ready := msg :: rest; deadLetters := dl; settled := st |} in
  let b' := turn queueName routingKeys (Some err) (Some refusal) b in
  deadLetters b' = dl
  ∧ (retryCountOf msg < MaxRetries →
     ready b' = msg :: rest ∧ settled b' = st ++ [(msg, Nack true)])
  ∧ (MaxRetries ≤ retryCountOf msg →
     ready b' = rest ∧ settled b' = st ++ [(msg, Nack false)]).
Proof.
  intros b b'. unfold b', turn, consume. simpl.
  destruct (Z.leb_spec MaxRetries (retryCountOf msg)); simpl;
    repeat split; intros; (done || lia).
Qed.

End BusMore.

(** Two messages from [Publish], eight failures: both are dead-lettered. *)
Lemma redelivery_bounded_witness :
  let keys := ["aml.check.requested"] in
  let b := {| rabbitmq.ready := [rabbitmq.fresh "aml.check.requested" "a";
                                 rabbitmq.fresh "aml.check.requested" "b"];
              rabbitmq.deadLetters := [];
              rabbitmq.settled := [] |} in
  Forall (rabbitmq.inRounds keys) (rabbitmq.ready b)
  ∧ rabbitmq.attempts (rabbitmq.ready b) = 8
  ∧ rabbitmq.ready
      (rabbitmq.turns "q_aml_requests" keys
         (replicate 8 (Some (errorString "boom"))) b) = [].
Proof.
  intros keys b.
  assert (Hall : Forall (rabbitmq.inRounds keys) (rabbitmq.ready b)).
  { repeat constructor; vm_compute; congruence. }
  split; [exact Hall | split; [reflexivity |]].
  apply (redelivery_bounded "q_aml_requests" keys
           (replicate 8 (Some (errorString "boom"))) b Hall).
  vm_compute. congruence.
Defined.

(** *** The assets and their addresses *)
Section AssetMore.

Lemma all_chars_impl (p q : ascii → bool) s :
  (∀ c, p c = true → q c = true) →
  all_chars p s = true → all_chars q s = true.
Proof.
  intros Hpq. induction s as [|c s IH]; simpl; [done |].
  intros [Hc Hs]%andb_true_iff. by rewrite Hpq, IH.
Qed.

Lemma trim_plain s :
  all_chars plainChar s = true → trimRight (trimLeft s) = s.
Proof.
  intros Hs.
  assert (Hleft : trimLeft s = s).
  { destruct s as [|c s]; [done |]. simpl in *.
    apply andb_true_iff in Hs as [Hc _]. unfold plainChar in Hc.
    by destruct (isSpace c). }
  rewrite Hleft. induction s as [|c s IH]; [done |].
  simpl in Hs. apply andb_true_iff in Hs as [Hc Hs].
  simpl. rewrite IH.
  - destruct s; [| done]. unfold plainChar in Hc. by destruct (isSpace c).
  - done.
  - destruct s as [|d s]; [done |]. simpl in *.
    apply andb_true_iff in Hs as [Hd _]. unfold plainChar in Hd.
    by destruct (isSpace d).
Qed.

Lemma base58_plain c : base58_char c = true → plainChar c = true.
Proof. destruct c as [[] [] [] [] [] [] [] []]; vm_compute; congruence. Qed.

Lemma bech32_plain c : bech32_char c = true → plainChar c = true.
Proof. destruct c as [[] [] [] [] [] [] [] []]; vm_compute; congruence. Qed.

Lemma hex_plain c : hex_char c = true → plainChar c = true.
Proof. destruct c as [[] [] [] [] [] [] [] []]; vm_compute; congruence. Qed.

Lemma hex_lower c : hex_char c = true → hex_char (lower c) = true.
Proof. destruct c as [[] [] [] [] [] [] [] []]; vm_compute; congruence. Qed.

Lemma lower_lower c : lower (lower c) = lower c.
Proof. by destruct c as [[] [] [] [] [] [] [] []]. Qed.

Lemma mapChars_lower_idem s :
  mapChars lower (mapChars lower s) = mapChars lower s.
Proof. induction s as [|c s IH]; simpl; [done |]. by rewrite lower_lower, IH. Qed.

Lemma all_hex_lower s :
  all_chars hex_char s = true → all_chars hex_char (mapChars lower s) = true.
Proof.
  induction s as [|c s IH]; simpl; [done |].
  intros [Hc Hs]%andb_true_iff. by rewrite hex_lower, IH.
Qed.

Lemma len_mapChars f s : len (mapChars f s) = len s.
Proof.
  unfold len. f_equal. induction s as [|c s IH]; simpl; [done |].
  by rewrite IH.
Qed.

Lemma len_String c s : len (String c s) = 1 + len s.
Proof. unfold len. simpl String.length. lia. Qed.

(** What the two Bitcoin patterns and the Ethereum pattern accept. *)
Lemma match_legacy_shape a :
  match_legacy a = true →
  ∃ c rest, a = String c rest ∧ (c = "1"%char ∨ c = "3"%char)
            ∧ all_chars base58_char rest = true ∧ 25 ≤ len rest ≤ 34.
Proof.
  destruct a as [|c rest]; simpl; [done |].
  intros [[[Hc Hchars]%andb_true_iff Hlo%Z.leb_le]%andb_true_iff
            Hhi%Z.leb_le]%andb_true_iff.
  exists c, rest. repeat split; [| done | done | done].
  apply orb_true_iff in Hc as [Hc|Hc]; apply Ascii.eqb_eq in Hc; auto.
Qed.

Lemma match_segwit_shape a :
  match_segwit a = true →
  ∃ rest, a = "bc1" +:+ rest
          ∧ all_chars bech32_char rest = true ∧ 39 ≤ len rest ≤ 59.
Proof.
  unfold match_segwit. intros Hm.
  destruct a as [|c1 [|c2 [|c3 rest]]]; try done;
    try (by repeat case_match).
  assert (c1 = "b"%char ∧ c2 = "c"%char ∧ c3 = "1"%char) as (-> & -> & ->).
  { repeat case_match; done. }
  apply andb_true_iff in Hm as [[Hchars Hlo%Z.leb_le]%andb_true_iff
                                  Hhi%Z.leb_le].
  by exists rest.
Qed.

Lemma match_eth_shape a :
  match_eth a = true →
  ∃ rest, a = "0x" +:+ rest ∧ all_chars hex_char rest = true ∧ len rest = 40.
Proof.
  unfold match_eth. intros Hm.
  destruct a as [|c1 [|c2 rest]]; try done; try (by repeat case_match).
  assert (c1 = "0"%char ∧ c2 = "x"%char) as (-> & ->).
  { repeat case_match; done. }
  apply andb_true_iff in Hm as [Hchars Hlen%Z.eqb_eq].
  by exists rest.
Qed.

Lemma Bitcoin_ValidateAddress_iff address :
  Bitcoin_ValidateAddress address = None
  ↔ match_legacy address = true ∨ match_segwit address = true.
Proof.
  simpl. unfold Bitcoin_ValidateAddress. split.
  + destruct (String.eqb address ""); [done |].
    destruct (match_legacy address); [auto |].
    rewrite andb_false_r.
    destruct (match_segwit address); [auto |].
    by rewrite andb_false_r.
  + intros [Hm|Hm].
    * rewrite Hm. apply match_legacy_shape in Hm
        as (c & rest & -> & Hc & _ & Hlen).
      rewrite len_String. simpl String.eqb. unfold HasPrefix.
      assert (Hpre : String.prefix "1" (String c rest)
                     || String.prefix "3" (String c rest) = true)
        by (destruct Hc as [->| ->]; destruct rest; reflexivity).
      rewrite Hpre.
      destruct (Z.leb_spec 26 (1 + len rest)); [| lia].
      destruct (Z.leb_spec (1 + len rest) 35); [done | lia].
    * rewrite Hm. apply match_segwit_shape in Hm
        as (rest & -> & _ & Hlen).
      change ("bc1" +:+ rest) with (String "b" (String "c" (String "1" rest))).
      rewrite !len_String. simpl String.eqb. unfold HasPrefix.
      assert (Hpre : String.prefix "bc1"
                       (String "b" (String "c" (String "1" rest))) = true)
        by (destruct rest; reflexivity).
      rewrite Hpre.
      destruct (Z.leb_spec 42 (1 + (1 + (1 + len rest)))); [| lia].
      destruct (Z.leb_spec (1 + (1 + (1 + len rest))) 62); [| lia].
      by case_match.
Qed.

Lemma Ethereum_ValidateAddress_iff address :
  Ethereum_ValidateAddress address = None ↔ match_eth address = true.
Proof.
  simpl. unfold Ethereum_ValidateAddress.
  destruct address as [|c rest]; [done |]. simpl String.eqb.
  by destruct (match_eth (String c rest)).
Qed.

(** X10: the address checks are the patterns.  A Bitcoin address is
    accepted exactly when it matches the legacy or the segwit pattern (the
    guards on prefix and length exclude nothing the patterns accept), an
    Ethereum address exactly when it is [0x] and 40 hex digits, and USDT
    takes the addresses of Ethereum; the empty address is never accepted,
    and every rejection is [ErrInvalidAddress]. *)
Theorem ValidateAddress_patterns (asset : Asset) (address : string) :
  (ValidateAddress Bitcoin address = None
   ↔ match_legacy address = true ∨ match_segwit address = true)
  ∧ (ValidateAddress Ethereum address = None ↔ match_eth address = true)
  ∧ ValidateAddress USDT address = ValidateAddress Ethereum address
  ∧ ValidateAddress asset "" = Some ErrInvalidAddress
  ∧ (∀ e, ValidateAddress asset address = Some e → e = ErrInvalidAddress).
Proof.
  split; [apply Bitcoin_ValidateAddress_iff |].
  split; [apply Ethereum_ValidateAddress_iff |].
  split; [done | split].
  - by destruct asset.
  - intros e. destruct asset; simpl;
      unfold Bitcoin_ValidateAddress, Ethereum_ValidateAddress;
      repeat case_match; congruence.
Qed.

(** X11: an address that an asset accepts is in plain ASCII without
    white space, of 26 to 35 or 42 to 62 bytes for Bitcoin and of 42 bytes
    for Ethereum and USDT; normalising it (with the functions of [strings]
    on ASCII) gives an address that is accepted too and that normalising
    leaves as it is, so the intake accepts every accepted address and
    stores it in normal form; a Bitcoin address is its own normal form. *)
Theorem accepted_address_normal_form (asset : Asset) (address : string) :
  ValidateAddress asset address = None →
  let normal := NormalizeAddress (H:=asciiStrings) asset address in
  ValidateAddress asset normal = None
  ∧ NormalizeAddress (H:=asciiStrings) asset normal = normal
  ∧ all_chars plainChar address = true
  ∧ len normal = len address
  ∧ match asset with
    | Bitcoin =>
        normal = address
        ∧ (26 ≤ len address ≤ 35 ∨ 42 ≤ len address ≤ 62)
    | Ethereum | USDT =>
        normal = mapChars lower address ∧ len address = 42
    end.
Proof.
  intros Hok normal.
  pose proof (Bitcoin_ValidateAddress_iff address) as Hbtc.
  pose proof (Ethereum_ValidateAddress_iff address) as Heth.
  assert (Hplain : all_chars plainChar address = true
                 ∧ match asset with
                   | Bitcoin => 26 ≤ len address ≤ 35 ∨ 42 ≤ len address ≤ 62
                   | _ => len address = 42
                         ∧ match_eth (mapChars lower address) = true
                   end).
  { destruct asset.
    - apply Hbtc in Hok as [Hm|Hm].
      + apply match_legacy_shape in Hm as (c & rest & -> & Hc & Hchars & Hlen).
        rewrite len_String. split; [| lia]. simpl.
        rewrite (all_chars_impl _ _ _ base58_plain Hchars).
        by destruct Hc as [->| ->].
      + apply match_segwit_shape in Hm as (rest & -> & Hchars & Hlen).
        change ("bc1" +:+ rest) with (String "b" (String "c" (String "1" rest))).
        rewrite !len_String. split; [| lia]. simpl.
        by rewrite (all_chars_impl _ _ _ bech32_plain Hchars).
    - apply Heth, match_eth_shape in Hok as (rest & -> & Hchars & Hlen).
      change ("0x" +:+ rest) with (String "0" (String "x" rest)).
      rewrite !len_String. split; [| split; [lia |]].
      + simpl. by rewrite (all_chars_impl _ _ _ hex_plain Hchars).
      + simpl. rewrite all_hex_lower by done. rewrite len_mapChars, Hlen. done.
    - simpl in Hok. apply Heth, match_eth_shape in Hok
        as (rest & -> & Hchars & Hlen).
      change ("0x" +:+ rest) with (String "0" (String "x" rest)).
      rewrite !len_String. split; [| split; [lia |]].
      + simpl. by rewrite (all_chars_impl _ _ _ hex_plain Hchars).
      + simpl. rewrite all_hex_lower by done. rewrite len_mapChars, Hlen. done. }
  destruct Hplain as [Hplain Hshape].
  assert (Htrim : trimRight (trimLeft address) = address)
    by by apply trim_plain.
  assert (Hlow : ∀ s, all_chars plainChar s = true →
                      all_chars plainChar (mapChars lower s) = true).
  { induction s as [|c s IH]; simpl; [done |].
    intros [Hc Hs]%andb_true_iff. rewrite IH by done.
    rewrite andb_true_r. revert Hc.
    destruct c as [[] [] [] [] [] [] [] []]; vm_compute; congruence. }
  destruct asset; unfold normal; simpl; rewrite Htrim.
  - rewrite Htrim. by repeat split.
  - destruct Hshape as [Hlen Hm].
    rewrite (trim_plain _ (Hlow _ Hplain)), mapChars_lower_idem, len_mapChars.
    repeat split; [by apply Ethereum_ValidateAddress_iff | done..].
  - destruct Hshape as [Hlen Hm].
    rewrite (trim_plain _ (Hlow _ Hplain)), mapChars_lower_idem, len_mapChars.
    repeat split; [by apply Ethereum_ValidateAddress_iff | done..].
Qed.

End AssetMore.

(** An Ethereum address in capitals is stored in small letters. *)
Lemma accepted_address_normal_form_witness :
  ValidateAddress Ethereum "0x52908400098527886E0F7030069857D2E4169EE7" = None
  ∧ NormalizeAddress (H:=asciiStrings) Ethereum
      "0x52908400098527886E0F7030069857D2E4169EE7"
    = "0x52908400098527886e0f7030069857d2e4169ee7"
  ∧ ValidateAddress Ethereum "0x52908400098527886e0f7030069857d2e4169ee7"
    = None.
Proof.
  assert (Hok : ValidateAddress Ethereum
                  "0x52908400098527886E0F7030069857D2E4169EE7" = None)
    by reflexivity.
  split; [exact Hok |]. split; [reflexivity |].
  exact (proj1 (accepted_address_normal_form Ethereum _ Hok)).
Defined.

(** *** The use cases, outcome by outcome *)
Section UseCaseMore.
Context `{PDFRenderer} `{GoStrings} `{Config}.

Lemma insert_alter_same (f : AMLCheck → AMLCheck) id c (r : Registry) :
  <[id := c]> (alter f id r) = <[id := c]> r.
Proof.
  apply map_eq. intros j. destruct (decide (id = j)) as [->|Hne].
  - by rewrite !lookup_insert_eq.
  - by rewrite !lookup_insert_ne, lookup_alter_ne.
Qed.

Lemma world_eta (w : World) :
  {| repo := repo w; reports := reports w; bucket := bucket w;
     bus := bus w |} = w.
Proof. by destruct w. Qed.

(** X12: the outcomes of the intake, for a currency the registry knows.
    An address that is not valid after normalising is refused with an
    error that is [ErrInvalidAddress], and an id that is taken with
    "check already exists"; in both cases the world is as it was.
    Otherwise the record is stored under the fresh id, Processing, with
    the normalised address, the symbol of the asset and the expiry
    [now + ttl], and one [check.requested] event is published; when that
    publish fails the caller gets an error although the record stays
    stored. *)
Theorem intake_outcomes assets ttl env address currency asset (w : World) :
  AssetRegistry_Get assets currency = Ok asset →
  let normal := NormalizeAddress asset address in
  let check :=
    NewAMLCheck (uuid env) (nowCreate env) normal (Symbol asset) ttl in
  let requested :=
    {| PubKey := EventAMLCheckRequested;
       PubEvent := NewEvent (eventID env) (nowEvent env)
                     EventAMLCheckRequested
                     (AMLCheckRequestedPayload (uuid env) normal
                        (Symbol asset));
       PubReply := publishReply env |} in
  let out := CheckAddress_Execute assets ttl env address currency w in
  match ValidateAddress asset normal with
  | Some err =>
      out = (Err (wrapf "invalid address" err), w)
      ∧ errors_Is (wrapf "invalid address" err) ErrInvalidAddress = true
  | None =>
      match repo w !! uuid env with
      | Some _ =>
          out = (Err (wrapf "failed to create check"
                        (errorString "check already exists")), w)
      | None =>
          out.1 = match publishReply env with
                  | Some e => Err (wrapf "failed to publish event" e)
                  | None => Ok (uuid env)
                  end
          ∧ repo out.2 = <[uuid env := check]> (repo w)
          ∧ reports out.2 = reports w
          ∧ bus out.2 = bus w ++ [requested]
          ∧ Status check = StatusProcessing
          ∧ ExpiresAt check = nowCreate env + ttl
      end
  end.
Proof.
  intros Hasset normal check requested out.
  unfold out, CheckAddress_Execute. rewrite Hasset. fold normal.
  destruct (ValidateAddress asset normal) as [err|] eqn:Hvalid.
  - split; [done |].
    assert (err = ErrInvalidAddress) as ->; [| done].
    revert Hvalid. destruct asset; simpl;
      unfold Bitcoin_ValidateAddress, Ethereum_ValidateAddress;
      repeat case_match; congruence.
  - unfold mbind, M_bind, mret, M_ret, orWrap, repository_Create,
      messageBus_Publish, repositories.Create. simpl.
    destruct (repo w !! uuid env); simpl; [by rewrite world_eta |].
    by destruct (publishReply env).
Qed.

(** X13: the report step with the local directory wired, on a registry
    that stores every record under its own id.  It succeeds exactly when
    the check is known, the rendering is a valid PDF and the file is
    written, whatever the bus and the billing hook answer; then the record
    is Completed with the result and the report key [checkID.pdf], the
    report is in the storage for [ttl], and one [report.ready] event,
    which carries the check id and the key, has been published.  When it
    fails the registry, the bus, the bucket, the metadata and every other
    file are as they were; the file [checkID.pdf] is as it was too, unless
    the step came to the write and the write failed after the file was
    opened: then the file holds the bytes that were written, so that a
    report stored before may be left cut short.  If a failing write never
    opens the file, a failed step leaves the world exactly as it was. *)
Theorem report_step_outcomes ttl env checkID score level cats sanc
    (w : World) :
  objectStorageEnabled = false →
  keyed (repo w) →
  let out := GenerateReport_Execute ttl env checkID score level cats sanc w in
  let key := checkID +:+ ".pdf" in
  let mark := MarkCompleted score level cats sanc key (nowMark env) in
  let rendered c :=
    GeneratePDF (Address c) (Currency c) score level cats sanc checkID
      (nowRender env) in
  (out.1 = Ok tt
   ↔ ∃ c pdfData, repo w !! checkID = Some c ∧ rendered c = Ok pdfData
                  ∧ invalidPDF pdfData = false ∧ writeReply env = None)
  ∧ (out.1 ≠ Ok tt →
     repo out.2 = repo w ∧ bus out.2 = bus w ∧ bucket out.2 = bucket w
     ∧ storage.metadata (reports out.2) = storage.metadata (reports w)
     ∧ (∀ other, other ≠ key →
                 storage.files (reports out.2) !! other
                 = storage.files (reports w) !! other)
     ∧ (storage.files (reports out.2) !! key
        = storage.files (reports w) !! key
        ∨ ∃ c pdfData failure n,
            repo w !! checkID = Some c ∧ rendered c = Ok pdfData
            ∧ invalidPDF pdfData = false
            ∧ writeReply env = Some failure
            ∧ storage.written failure = Some n
            ∧ storage.files (reports out.2) !! key
              = Some (substring 0 n pdfData))
     ∧ ((∀ failure, writeReply env = Some failure →
                    storage.written failure = None) →
        out.2 = w))
  ∧ (∀ c pdfData,
       out.1 = Ok tt → repo w !! checkID = Some c →
       rendered c = Ok pdfData →
       repo out.2 = <[checkID := mark c]> (repo w)
       ∧ keyed (repo out.2)
       ∧ bucket out.2 = bucket w
       ∧ (∀ later, storage.Get None later key (reports out.2)
                   = if nowPut env + ttl <? later
                     then Err (errorString "report expired")
                     else Ok pdfData)
       ∧ ∃ p, bus out.2 = bus w ++ [p]
              ∧ PubKey p = EventAMLReportReady
              ∧ Type_ (PubEvent p) = EventAMLReportReady
              ∧ EventPayload (PubEvent p)
                = AMLReportReadyPayload checkID key
              ∧ PubReply p = publishReply env).
Proof.
  intros Hlocal Hkeyed out key mark rendered. unfold out, rendered.
  unfold GenerateReport_Execute, mbind, M_bind, mret, M_ret, fail, wrapErr,
    orWrap, logErr, mutate, repository_Get, repository_Update,
    reportStorage_Put, messageBus_Publish, billingHook_OnCheckCompleted,
    repositories.Get, repositories.Update, storage.Put. simpl.
  rewrite Hlocal.
  destruct (repo w !! checkID) as [c|] eqn:Hc; simpl.
  2: { split; [split; [done | by intros (? & ? & ? & _)] |].
       split; [| by intros ? ? ?]. intros _. repeat split; auto. }
  assert (Hid : ID c = checkID) by (by apply Hkeyed).
  destruct (GeneratePDF _ _ _ _ _ _ _ _) as [pdfData|e] eqn:Hpdf; simpl.
  2: { split; [split; [done |] |].
       - intros (c' & pdf' & [= <-] & Hr & _). congruence.
       - split; [| by intros ? ? ?]. intros _. repeat split; auto. }
  destruct (invalidPDF pdfData) eqn:Hvalid; simpl.
  { split; [split; [done |] |].
    - intros (c' & pdf' & [= <-] & Hr & Hv & _). congruence.
    - split; [| by intros ? ? ?]. intros _. repeat split; auto. }
  destruct (writeReply env) as [failure|] eqn:Hwrite; simpl.
  { split; [split; [done |] |].
    - by intros (c' & pdf' & _ & _ & _ & ?).
    - split; [| by intros ? ? ?]. intros _.
      split; [done |]. split; [done |]. split; [done |]. split; [done |].
      split; [| split].
      + intros other Hother. destruct (storage.written failure); [| done].
        simpl. by rewrite lookup_insert_ne.
      + destruct (storage.written failure) as [n|] eqn:Hn; [| by left].
        right. exists c, pdfData, failure, n. simpl.
        by rewrite lookup_insert_eq.
      + intros Hclosed. rewrite (Hclosed failure eq_refl).
        destruct w as [r [f m] b l]. done. }
  rewrite Hid, lookup_alter_eq, Hc. simpl.
  split; [split; [intros _; by exists c, pdfData | done] |].
  split; [done |].
  intros c' pdf' _ [= <-] Hr. rewrite Hpdf in Hr. injection Hr as <-.
  fold key. fold mark. rewrite insert_alter_same.
  split; [done |]. split.
  - intros id d [[<- <-]|[_ Hd]]%lookup_insert_Some; [exact Hid | eauto].
  - split; [done |]. split.
    + intros later. unfold storage.Get. simpl.
      rewrite !lookup_insert_eq. done.
    + eexists. split; [done |]. done.
Qed.

(** X14: the failure step on such a registry succeeds exactly when the
    check is known; then the record is Failed with the message, and keeps
    its result and its report key if it had them; the storage and the bus
    are never touched, and when the step fails the world is exactly as it
    was. *)
Theorem failure_step_outcomes env checkID msg (w : World) :
  keyed (repo w) →
  let out := HandleCheckFailed_Execute env checkID msg w in
  reports out.2 = reports w ∧ bus out.2 = bus w
  ∧ match repo w !! checkID with
    | None => out = (Err (errorString "check not found"), w)
    | Some c =>
        out.1 = Ok tt
        ∧ repo out.2 = <[checkID := MarkFailed msg (nowMark env) c]> (repo w)
        ∧ keyed (repo out.2)
        ∧ ∀ c', repo out.2 !! checkID = Some c' →
                Status c' = StatusFailed ∧ ErrorMessage c' = msg
                ∧ RiskScore c' = RiskScore c ∧ ReportKey c' = ReportKey c
                ∧ ExpiresAt c' = ExpiresAt c
    end.
Proof.
  intros Hkeyed out. unfold out.
  unfold HandleCheckFailed_Execute, mbind, M_bind, mret, M_ret, fail,
    wrapErr, orWrap, mutate, repository_Get, repository_Update,
    repositories.Get, repositories.Update. simpl.
  destruct (repo w !! checkID) as [c|] eqn:Hc; simpl; [| done].
  assert (Hid : ID c = checkID) by (by apply Hkeyed).
  rewrite Hid, lookup_alter_eq, Hc. simpl. rewrite insert_alter_same.
  split; [done |]. split; [done |]. split; [done |]. split; [done |].
  split.
  - intros id d [[<- <-]|[_ Hd]]%lookup_insert_Some; [exact Hid | eauto].
  - intros c'. rewrite lookup_insert_eq. by intros [= <-].
Qed.

End UseCaseMore.

(** A Bitcoin address with a space after it, under the symbol [btc]. *)
Lemma intake_outcomes_witness :
  AssetRegistry_Get (H:=asciiStrings) NewDefaultAssetRegistry "btc"
  = Ok Bitcoin
  ∧ (CheckAddress_Execute (H:=asciiStrings) NewDefaultAssetRegistry 1000
       quietEnv "1A1zP1eP5QGefi2DMPTfTL5SLmv7DivfNa " "btc" emptyWorld).1
    = Ok "c-1".
Proof.
  assert (Hasset : AssetRegistry_Get (H:=asciiStrings)
                     NewDefaultAssetRegistry "btc" = Ok Bitcoin)
    by reflexivity.
  split; [exact Hasset |].
  exact (proj1 (intake_outcomes (H0:=asciiStrings) NewDefaultAssetRegistry
                  1000 quietEnv "1A1zP1eP5QGefi2DMPTfTL5SLmv7DivfNa " "btc"
                  Bitcoin emptyWorld Hasset)).
Defined.

(** The report step on the world that intake left. *)
Lemma report_step_outcomes_witness :
  objectStorageEnabled (Config:=localConfig) = false
  ∧ keyed (repo oneCheck)
  ∧ (GenerateReport_Execute (H:=stubRenderer) (H0:=localConfig) 1000 quietEnv
       "c-1" 85 "Critical" ["Darknet"; "Mixer"] (Some emptySanctions)
       oneCheck).1
    = Ok tt.
Proof.
  assert (Hlocal : objectStorageEnabled (Config:=localConfig) = false)
    by reflexivity.
  assert (Hkeyed : keyed (repo oneCheck)).
  { unfold oneCheck. simpl.
    intros id c [<- <-]%lookup_singleton_Some. reflexivity. }
  split; [exact Hlocal | split; [exact Hkeyed |]].
  apply (proj1 (report_step_outcomes (H:=stubRenderer) (H1:=localConfig) 1000
                  quietEnv "c-1" 85 "Critical" ["Darknet"; "Mixer"]
                  (Some emptySanctions) oneCheck Hlocal Hkeyed)).
  eexists _, _. repeat split; reflexivity.
Defined.

(** The failure step on the world that intake left. *)
Lemma failure_step_outcomes_witness :
  keyed (repo oneCheck)
  ∧ bus (HandleCheckFailed_Execute quietEnv "c-1" "provider down"
           oneCheck).2 = [].
Proof.
  assert (Hkeyed : keyed (repo oneCheck)).
  { unfold oneCheck. simpl.
    intros id c [<- <-]%lookup_singleton_Some. reflexivity. }
  split; [exact Hkeyed |].
  exact (proj1 (proj2 (failure_step_outcomes quietEnv "c-1" "provider down"
                         oneCheck Hkeyed))).
Defined.

(** *** The providers *)
Section ProviderMore.
Import providers.

(** The length of an accepted address. *)
Lemma accepted_length asset address :
  ValidateAddress asset address = None →
  match asset with
  | Bitcoin => 26 ≤ len address ≤ 35 ∨ 42 ≤ len address ≤ 62
  | Ethereum | USDT => len address = 42
  end.
Proof.
  destruct asset; simpl.
  - intros [Hm|Hm]%Bitcoin_ValidateAddress_iff.
    + apply match_legacy_shape in Hm as (c & rest & -> & _ & _ & Hlen).
      rewrite len_String. lia.
    + apply match_segwit_shape in Hm as (rest & -> & _ & Hlen).
      change ("bc1" +:+ rest) with (String "b" (String "c" (String "1" rest))).
      rewrite !len_String. lia.
  - intros (rest & -> & _ & Hlen)%Ethereum_ValidateAddress_iff%match_eth_shape.
    change ("0x" +:+ rest) with (String "0" (String "x" rest)).
    rewrite !len_String. lia.
  - intros (rest & -> & _ & Hlen)%Ethereum_ValidateAddress_iff%match_eth_shape.
    change ("0x" +:+ rest) with (String "0" (String "x" rest)).
    rewrite !len_String. lia.
Qed.

(** X15: what the mock risk provider says of an address that the asset
    accepts.  The score, 10 plus the length modulo 80, lies between 36 and
    72, so the level is Medium or High, never Low or Critical, and the
    categories never hold Darknet or Mixer; for Ethereum and USDT the
    score is always 52, the level Medium and there are no categories.  The
    level is the band of the score, and the currency plays no part. *)
Theorem MockAML_on_accepted (asset : Asset) (address currency : string) :
  ValidateAddress asset address = None →
  ∃ res,
    (∀ other, MockAMLProvider_CheckAddress address other = Ok res)
    ∧ ResRiskScore res = 10 + len address
    ∧ 36 ≤ ResRiskScore res ≤ 72
    ∧ ResRiskLevel res = DeriveRiskLevel (ResRiskScore res)
    ∧ ResRiskLevel res
      = (if 60 <=? ResRiskScore res then RiskLevelHigh else RiskLevelMedium)
    ∧ ResCategories res
      = (if 60 <=? ResRiskScore res then ["High Risk Exchange"] else [])
    ∧ (asset ≠ Bitcoin →
       ResRiskScore res = 52 ∧ ResRiskLevel res = RiskLevelMedium
       ∧ ResCategories res = []).
Proof.
  intros Hlen%accepted_length. eexists. split; [done |]. simpl.
  assert (Hrange : 26 ≤ len address ≤ 62).
  { destruct asset; lia. }
  rewrite Z.mod_small by lia.
  unfold DeriveRiskLevel.
  destruct (Z.leb_spec 80 (10 + len address)); [lia |].
  split; [done |]. split; [lia |]. split; [done |]. split.
  { destruct (Z.leb_spec 60 (10 + len address)); [done |].
    destruct (Z.leb_spec 30 (10 + len address)); [done | lia]. }
  split; [by rewrite app_nil_r |].
  intros Hasset. destruct asset; [done | rewrite Hlen..]; done.
Qed.


(** X17: what the risk provider AMLBot returns.  A result comes from a
    reply with status 200 that decodes, and carries the score and the
    categories of the reply; its level is the level of the reply when that
    is not empty, whatever the score is, and the band of the score
    otherwise, so it is never empty. *)
Theorem AMLBot_result requestErr reply address currency res :
  AMLBotProvider_CheckAddress requestErr reply address currency = Ok res →
  ResRiskLevel res ≠ ""
  ∧ ∃ resp bot,
      requestErr = None ∧ reply = Ok resp ∧ RespStatus resp = 200
      ∧ RespDecoded resp = Ok bot
      ∧ ResRiskScore res = BotRiskScore bot
      ∧ ResCategories res = BotCategories bot
      ∧ (BotRiskLevel bot ≠ "" → ResRiskLevel res = BotRiskLevel bot)
      ∧ (BotRiskLevel bot = "" →
         ResRiskLevel res = DeriveRiskLevel (BotRiskScore bot)).
Proof.
  unfold AMLBotProvider_CheckAddress.
  destruct requestErr; [done |]. destruct reply as [resp|]; [| done].
  destruct (Z.eqb_spec (RespStatus resp) 200) as [Hok|]; simpl; [| done].
  destruct (RespDecoded resp) as [bot|] eqn:Hbot; [| done].
  intros [= <-]. simpl. split.
  - destruct (String.eqb_spec (BotRiskLevel bot) ""); [| done].
    unfold DeriveRiskLevel. by repeat case_match.
  - exists resp, bot.
    destruct (String.eqb_spec (BotRiskLevel bot) ""); by repeat split.
Qed.

End ProviderMore.

(** The address of the genesis block has 34 characters: 44, Medium. *)
Lemma MockAML_on_accepted_witness :
  ValidateAddress Bitcoin "1A1zP1eP5QGefi2DMPTfTL5SLmv7DivfNa" = None
  ∧ ∃ res,
      (∀ other,
         providers.MockAMLProvider_CheckAddress
           "1A1zP1eP5QGefi2DMPTfTL5SLmv7DivfNa" other = Ok res)
      ∧ ResRiskScore res = 44.
Proof.
  assert (Hok : ValidateAddress Bitcoin "1A1zP1eP5QGefi2DMPTfTL5SLmv7DivfNa"
                = None) by reflexivity.
  split; [exact Hok |].
  destruct (MockAML_on_accepted Bitcoin _ "BTC" Hok)
    as (res & Hres & Hscore & _).
  exists res. split; [exact Hres | exact Hscore].
Defined.

(** A reply with score 85 and the level left out. *)
Lemma AMLBot_result_witness :
  let reply := Ok {| providers.RespStatus := 200; providers.RespBody := "";
                     providers.RespDecoded :=
                       Ok {| providers.BotRiskScore := 85;
                             providers.BotRiskLevel := "";
                             providers.BotCategories := ["Mixer"] |} |} in
  let res := {| ResRiskScore := 85; ResRiskLevel := "Critical";
                ResCategories := ["Mixer"] |} in
  providers.AMLBotProvider_CheckAddress None reply "bc1q" "BTC" = Ok res
  ∧ ResRiskLevel res ≠ "".
Proof.
  intros reply res.
  assert (Hres : providers.AMLBotProvider_CheckAddress None reply "bc1q" "BTC"
                 = Ok res) by reflexivity.
  split; [exact Hres |].
  exact (proj1 (AMLBot_result None reply "bc1q" "BTC" res Hres)).
Defined.

(** *** The report download *)
Section DownloadMore.
Import base64 token http.
Context `{GoCrypto}.

(** The errors [Verify] returns. *)
Lemma Verify_errors h now tok e :
  Verify h now tok = Err e →
  e = errorString "token expired"
  ∨ (e ≠ errorString "token expired"
     ∧ Contains (Error e) "expired" = false).
Proof.
  unfold Verify.
  destruct (SplitN2 tok ".") as [[payload tag]|];
    [| intros [= <-]; by right].
  destruct (negb _); [intros [= <-]; by right |].
  destruct (DecodeString payload) as [text|]; [| intros [= <-]; by right].
  destruct (SplitN2 text ":") as [[k expiry]|]; [| intros [= <-]; by right].
  destruct (ParseInt expiry) as [t|]; [| intros [= <-]; by right].
  destruct (t <? Unix now); [intros [= <-]; by left | done].
Qed.

(** X18: the answers of the report download over the local storage.  It
    never redirects.  An empty token is refused with 400; a token that
    [Verify] rejects is refused with 410 when it has expired and with 400
    for every other reason; for a token that verifies to a key, the answer
    is 404 when the storage does not know the key, 410 when the report has
    expired, 500 when its file is missing, and otherwise the file, under
    the key as its name. *)
Theorem GetReport_classified h verifyNow getNow tokenStr
    (s : storage.LocalStorage) :
  let out := GetReport h verifyNow getNow None tokenStr s in
  (∀ location, out ≠ Redirected location)
  ∧ (tokenStr = "" →
     out = Refused (respondError StatusBadRequest "token is required"))
  ∧ (tokenStr ≠ "" → ∀ e,
     Verify (tokenProvider h) verifyNow tokenStr = Err e →
     out = Refused (if decide (e = errorString "token expired")
                    then respondError StatusGone "report link expired"
                    else respondError StatusBadRequest "invalid token"))
  ∧ (tokenStr ≠ "" → ∀ key,
     Verify (tokenProvider h) verifyNow tokenStr = Ok key →
     out = match storage.metadata s !! key with
           | None =>
               Refused (respondError StatusNotFound "report not found")
           | Some expiresAt =>
               if expiresAt <? getNow then
                 Refused (respondError StatusGone "report expired")
               else
                 match storage.files s !! key with
                 | None =>
                     Refused (respondError StatusInternalServerError
                                "failed to get report")
                 | Some data => Streamed key data
                 end
           end).
Proof.
  intros out. unfold out, GetReport, storage.PresignGet, storage.Get.
  split; [| split; [| split]].
  - intros location. destruct (String.eqb tokenStr ""); [done |].
    destruct (Verify _ _ _) as [key|e]; simpl.
    + by repeat case_match.
    + by case_match.
  - by intros ->.
  - intros Hne e He. destruct (String.eqb_spec tokenStr ""); [done |].
    rewrite He. destruct (Verify_errors _ _ _ _ He) as [->|[Hother Hno]].
    + by rewrite decide_True.
    + by rewrite Hno, decide_False.
  - intros Hne key Hkey. destruct (String.eqb_spec tokenStr ""); [done |].
    rewrite Hkey. simpl.
    destruct (storage.metadata s !! key) as [expiresAt|]; [| done].
    destruct (expiresAt <? getNow); [done |].
    by destruct (storage.files s !! key).
Qed.

(** The download with a link that [Sign] made, for a report the storage
    knows. *)
Lemma GetReport_signed h (s : storage.LocalStorage) signNow expires
    verifyNow getNow key data expiresAt :
  has ":" key = false →
  int64 (Unix (signNow + expires)) →
  storage.metadata s !! key = Some expiresAt →
  storage.files s !! key = Some data →
  GetReport h verifyNow getNow None
    (Sign (tokenProvider h) signNow key expires) s
  = if Unix (signNow + expires) <? Unix verifyNow then
      Refused (respondError StatusGone "report link expired")
    else if expiresAt <? getNow then
      Refused (respondError StatusGone "report expired")
    else Streamed key data.
Proof.
  intros Hkey Hrange Hmeta Hfile. unfold GetReport.
  assert (Hlink : Sign (tokenProvider h) signNow key expires ≠ "").
  { intros Hempty.
    pose proof (Sign_split (tokenProvider h) signNow key expires) as Hsplit.
    by rewrite Hempty in Hsplit. }
  destruct (String.eqb_spec (Sign (tokenProvider h) signNow key expires) "");
    [done |].
  rewrite Verify_Sign by done.
  destruct (Unix (signNow + expires) <? Unix verifyNow); [done |].
  unfold storage.PresignGet, storage.Get. simpl.
  rewrite Hmeta, Hfile. by destruct (expiresAt <? getNow).
Qed.

(** X19: the link of a report, from storing to download.  For a report
    that [Put] has stored under a key without a colon and a link that
    [Sign] has made for that key, the download answers 410 "report link
    expired" once the link has expired, 410 "report expired" once the
    report has, and otherwise streams exactly the bytes stored, under the
    key as file name. *)
Theorem report_link_round_trip h (s : storage.LocalStorage)
    putNow ttl signNow expires verifyNow getNow key data :
  has ":" key = false →
  int64 (Unix (signNow + expires)) →
  let stored := (storage.Put None putNow key data ttl s).2 in
  let link := Sign (tokenProvider h) signNow key expires in
  GetReport h verifyNow getNow None link stored
  = if Unix (signNow + expires) <? Unix verifyNow then
      Refused (respondError StatusGone "report link expired")
    else if putNow + ttl <? getNow then
      Refused (respondError StatusGone "report expired")
    else Streamed key data.
Proof.
  intros Hkey Hrange stored link.
  apply GetReport_signed; [done | done | |];
    unfold stored, storage.Put; simpl; apply lookup_insert_eq.
Qed.

End DownloadMore.

(** The report of check ["c-1"], downloaded an hour after it was made. *)
Lemma report_link_round_trip_witness :
  token.has ":" "c-1.pdf" = false
  ∧ token.int64 (token.Unix (30 * token.Second + 24 * token.Hour))
  ∧ http.GetReport (H:=token.concatMAC) http.localHandlers
      (30 * token.Second + token.Hour) (30 * token.Second + token.Hour) None
      (token.Sign (H:=token.concatMAC) (token.NewHMACToken "secret")
         (30 * token.Second) "c-1.pdf" (24 * token.Hour))
      (storage.Put None (21 * token.Second) "c-1.pdf" "%PDF-1.3"
         (30 * 24 * token.Hour)
         {| storage.files := ∅; storage.metadata := ∅ |}).2
    = http.Streamed "c-1.pdf" "%PDF-1.3".
Proof.
  assert (Hkey : token.has ":" "c-1.pdf" = false) by reflexivity.
  assert (Hrange : token.int64
                     (token.Unix (30 * token.Second + 24 * token.Hour)))
    by (vm_compute; split; [discriminate | reflexivity]).
  split; [exact Hkey | split; [exact Hrange |]].
  exact (report_link_round_trip (H:=token.concatMAC) http.localHandlers
           {| storage.files := ∅; storage.metadata := ∅ |}
           (21 * token.Second) (30 * 24 * token.Hour) (30 * token.Second)
           (24 * token.Hour) (30 * token.Second + token.Hour)
           (30 * token.Second + token.Hour) "c-1.pdf" "%PDF-1.3"
           Hkey Hrange).
Defined.

(** *** The workers behind their queues *)
Section WorkerMore.
Import rabbitmq workers.
Context `{GoJSON} `{PDFRenderer} `{Config}.

Lemma serve_turn queueName routingKeys handler msg rest dl st w :
  serve queueName routingKeys handler None
    ({| ready := msg :: rest; deadLetters := dl; settled := st |}, w)
  = (turn queueName routingKeys (errorOf (handler (Body msg) w).1) None
       {| ready := msg :: rest; deadLetters := dl; settled := st |},
     (handler (Body msg) w).2).
Proof. reflexivity. Qed.

(** Four turns in which the handler fails take a fresh message to the
    dead letters. *)
Lemma serves_four_failures queueName routingKeys key body h1 h2 h3 h4
    e1 e2 e3 e4 (w0 w1 w2 w3 w4 : World) :
  key ∈ routingKeys →
  h1 body w0 = (Err e1, w1) → h2 body w1 = (Err e2, w2) →
  h3 body w2 = (Err e3, w3) → h4 body w3 = (Err e4, w4) →
  serves queueName routingKeys [h1; h2; h3; h4]
    (holding (fresh key body), w0)
  = ({| ready := [];
        deadLetters :=
          [Msg (deadLetter queueName (retried key body 3) MaxRetries e4
                  None)];
        settled := [(fresh key body, Ack); (retried key body 1, Ack);
                    (retried key body 2, Ack); (retried key body 3, Ack)] |},
     w4).
Proof.
  intros Hkey Hf1 Hf2 Hf3 Hf4. unfold holding. simpl serves.
  rewrite serve_turn. simpl Body. rewrite Hf1. simpl errorOf. simpl snd.
  rewrite turn_failed; [| by apply int32_small | done | done].
  change (deliver _ _) with (retried key body 1). simpl app.
  rewrite serve_turn. simpl Body. rewrite Hf2. simpl errorOf. simpl snd.
  rewrite turn_failed;
    [| rewrite retryCountOf_retried; apply int32_small; lia
     | rewrite retryCountOf_retried; unfold MaxRetries; lia | done].
  rewrite retryCountOf_retried.
  change (deliver _ _) with (retried key body 2). simpl app.
  rewrite serve_turn. simpl Body. rewrite Hf3. simpl errorOf. simpl snd.
  rewrite turn_failed;
    [| rewrite retryCountOf_retried; apply int32_small; lia
     | rewrite retryCountOf_retried; unfold MaxRetries; lia | done].
  rewrite retryCountOf_retried.
  change (deliver _ _) with (retried key body 3). simpl app.
  rewrite serve_turn. simpl Body. rewrite Hf4. simpl errorOf. simpl snd.
  rewrite turn_dead_letter
    by (rewrite retryCountOf_retried; unfold MaxRetries; lia).
  by rewrite retryCountOf_retried.
Qed.

(** The risk worker in a turn whose provider is down. *)
Lemma AMLWorker_outage env body event checkID address currency err
    (w : World) :
  UnmarshalEvent body = Ok event →
  EnvType event = EventAMLCheckRequested →
  decodeRequested (EnvPayload event) = Ok (checkID, address, currency) →
  amlReply env = Err err →
  ∃ e p, failedEvent checkID env err p
         ∧ AMLWorker_handleMessage env body w
           = (Err e, {| repo := repo w; reports := reports w;
                        bucket := bucket w; bus := bus w ++ [p] |}).
Proof.
  intros Hbody Htype Hpayload Haml.
  unfold AMLWorker_handleMessage, handleAMLCheckRequested.
  rewrite Hbody, Htype. simpl. rewrite Hpayload.
  unfold ProcessAMLCheck_Execute, publishFailedEvent. rewrite Haml.
  unfold mbind, M_bind, orWrap, messageBus_Publish, fail.
  simpl. destruct (publishReply env) eqn:Hpub; eexists _, _;
    (split; [| reflexivity]); by repeat split.
Qed.

(** X20: a risk provider that stays down.  A [check.requested] message
    whose four deliveries all find the risk provider failing is delivered
    four times and then dead-lettered with counter 3, and each delivery
    publishes one event under the key [check.failed], of type
    [check.failed], whose payload is the id of the check and the message
    "AML check failed: " followed by the error of the provider at that
    delivery: four in all, in the order of the deliveries; the registry
    and the report storage are not touched. *)
Theorem risk_outage_redelivered env1 env2 env3 env4 err1 err2 err3 err4
    body event checkID address currency (w : World) :
  UnmarshalEvent body = Ok event →
  EnvType event = EventAMLCheckRequested →
  decodeRequested (EnvPayload event) = Ok (checkID, address, currency) →
  amlReply env1 = Err err1 → amlReply env2 = Err err2 →
  amlReply env3 = Err err3 → amlReply env4 = Err err4 →
  let out :=
    serves QueueAMLRequests AMLWorker_routingKeys
      (AMLWorker_handleMessage <$> [env1; env2; env3; env4])
      (holding (fresh EventAMLCheckRequested body), w) in
  ready out.1 = []
  ∧ length (settled out.1) = 4%nat
  ∧ (∃ letter, deadLetters out.1 = [letter] ∧ PubBody letter = body
               ∧ deadLetterCount letter = Some (VInt32 MaxRetries))
  ∧ repo out.2 = repo w ∧ reports out.2 = reports w
  ∧ bucket out.2 = bucket w
  ∧ ∃ p1 p2 p3 p4,
      bus out.2 = bus w ++ [p1; p2; p3; p4]
      ∧ failedEvent checkID env1 err1 p1 ∧ failedEvent checkID env2 err2 p2
      ∧ failedEvent checkID env3 err3 p3 ∧ failedEvent checkID env4 err4 p4.
Proof.
  intros Hbody Htype Hpayload H1' H2' H3' H4' out.
  destruct (AMLWorker_outage env1 _ _ _ _ _ _ w Hbody Htype Hpayload H1')
    as (e1 & p1 & Hp1 & He1).
  destruct (AMLWorker_outage env2 _ _ _ _ _ _
              {| repo := repo w; reports := reports w; bucket := bucket w;
                 bus := bus w ++ [p1] |}
              Hbody Htype Hpayload H2') as (e2 & p2 & Hp2 & He2).
  simpl in He2.
  destruct (AMLWorker_outage env3 _ _ _ _ _ _
              {| repo := repo w; reports := reports w; bucket := bucket w;
                 bus := (bus w ++ [p1]) ++ [p2] |}
              Hbody Htype Hpayload H3') as (e3 & p3 & Hp3 & He3).
  simpl in He3.
  destruct (AMLWorker_outage env4 _ _ _ _ _ _
              {| repo := repo w; reports := reports w; bucket := bucket w;
                 bus := ((bus w ++ [p1]) ++ [p2]) ++ [p3] |}
              Hbody Htype Hpayload H4') as (e4 & p4 & Hp4 & He4).
  simpl in He4.
  assert (Hin : EventAMLCheckRequested ∈ AMLWorker_routingKeys)
    by apply list_elem_of_here.
  pose proof (serves_four_failures QueueAMLRequests AMLWorker_routingKeys
                EventAMLCheckRequested body _ _ _ _ e1 e2 e3 e4
                _ _ _ _ _ Hin He1 He2 He3 He4) as Hout.
  change (serves _ _ _ _) with out in Hout. rewrite Hout.
  simpl. split; [done |]. split; [done |]. split.
  { eexists. split; [done |]. split; [done |].
    unfold deadLetterCount. simpl. unfold dlqHeaders.
    by simplify_map_eq. }
  split; [done |]. split; [done |]. split; [done |].
  exists p1, p2, p3, p4. by rewrite <- !app_assoc.
Qed.

(** X21: messages a worker cannot use.  A body that does not decode makes
    either worker fail without touching the world, so that a fresh message
    with such a body is delivered four times and then dead-lettered with
    the decoder's error as its last error; an event of a type the worker
    does not handle is acknowledged at its first delivery and nothing
    else happens. *)
Theorem unusable_messages reportTTL env1 env2 env3 env4 key body
    (w : World) :
  let amlTurns := AMLWorker_handleMessage <$> [env1; env2; env3; env4] in
  let reportTurns :=
    ReportWorker_handleMessage reportTTL <$> [env1; env2; env3; env4] in
  let start := (holding (fresh key body), w) in
  let acked := {| ready := []; deadLetters := [];
                  settled := [(fresh key body, Ack)] |} in
  (∀ err, UnmarshalEvent body = Err err →
     ∀ queueName routingKeys turns,
       key ∈ routingKeys → turns = amlTurns ∨ turns = reportTurns →
       let out := serves queueName routingKeys turns start in
       out.2 = w ∧ ready out.1 = [] ∧ length (settled out.1) = 4%nat
       ∧ ∃ letter,
           deadLetters out.1 = [letter] ∧ PubBody letter = body
           ∧ (PubHeaders letter ≫= λ t, t !! "x-last-error")
             = Some (VString (Error err)))
  ∧ (∀ event, UnmarshalEvent body = Ok event →
       (EnvType event ≠ EventAMLCheckRequested →
        serve QueueAMLRequests AMLWorker_routingKeys
          (AMLWorker_handleMessage env1) None start = (acked, w))
       ∧ (EnvType event ≠ EventAMLCheckCompleted →
          EnvType event ≠ EventAMLCheckFailed →
          serve QueueReportJobs ReportWorker_routingKeys
            (ReportWorker_handleMessage reportTTL env1) None start
          = (acked, w))).
Proof.
  intros amlTurns reportTurns start acked. split.
  - intros err Hbody queueName routingKeys turns Hkey Hturns out.
    assert (Haml : ∀ env w', AMLWorker_handleMessage env body w'
                             = (Err err, w')).
    { intros env w'. unfold AMLWorker_handleMessage. by rewrite Hbody. }
    assert (Hrep : ∀ env w', ReportWorker_handleMessage reportTTL env body w'
                             = (Err err, w')).
    { intros env w'. unfold ReportWorker_handleMessage. by rewrite Hbody. }
    assert (Hout : out
              = ({| ready := [];
                    deadLetters :=
                      [Msg (deadLetter queueName (retried key body 3)
                              MaxRetries err None)];
                    settled := [(fresh key body, Ack);
                                (retried key body 1, Ack);
                                (retried key body 2, Ack);
                                (retried key body 3, Ack)] |}, w)).
    { unfold out, start.
      destruct Hturns as [-> | ->].
      - by apply (serves_four_failures queueName routingKeys key body
                    (AMLWorker_handleMessage env1)
                    (AMLWorker_handleMessage env2)
                    (AMLWorker_handleMessage env3)
                    (AMLWorker_handleMessage env4) err err err err w w w w w).
      - by apply (serves_four_failures queueName routingKeys key body
                    (ReportWorker_handleMessage reportTTL env1)
                    (ReportWorker_handleMessage reportTTL env2)
                    (ReportWorker_handleMessage reportTTL env3)
                    (ReportWorker_handleMessage reportTTL env4)
                    err err err err w w w w w). }
    rewrite Hout. simpl. split; [done |]. split; [done |]. split; [done |].
    eexists. split; [done |]. split; [done |].
    unfold dlqHeaders. by simplify_map_eq.
  - intros event Hbody. split.
    + intros Htype. unfold start, holding. rewrite serve_turn. simpl Body.
      unfold AMLWorker_handleMessage. rewrite Hbody.
      by destruct (String.eqb_spec (EnvType event) EventAMLCheckRequested).
    + intros Hcompleted Hfailed. unfold start, holding.
      rewrite serve_turn. simpl Body.
      unfold ReportWorker_handleMessage. rewrite Hbody.
      destruct (String.eqb_spec (EnvType event) EventAMLCheckCompleted);
        [done |].
      by destruct (String.eqb_spec (EnvType event) EventAMLCheckFailed).
Qed.

(** X25: events that come too late.  A [check.completed] or
    [check.failed] event for a check the registry does not hold (it was
    swept, or never stored) makes the report worker fail with "check not
    found" each time, so the message is delivered four times and then
    dead-lettered with that error; the world is not touched, and no report
    is rendered or stored. *)
Theorem stale_event_dead_lettered reportTTL env1 env2 env3 env4 key body
    event checkID (w : World) :
  UnmarshalEvent body = Ok event →
  (EnvType event = EventAMLCheckCompleted
   ∧ ∃ score level cats sanc,
       decodeCompleted (EnvPayload event)
       = Ok (checkID, score, level, cats, sanc))
  ∨ (EnvType event = EventAMLCheckFailed
     ∧ ∃ msg, decodeFailed (EnvPayload event) = Ok (checkID, msg)) →
  repo w !! checkID = None →
  key ∈ ReportWorker_routingKeys →
  let out :=
    serves QueueReportJobs ReportWorker_routingKeys
      (ReportWorker_handleMessage reportTTL <$> [env1; env2; env3; env4])
      (holding (fresh key body), w) in
  out.2 = w ∧ ready out.1 = [] ∧ length (settled out.1) = 4%nat
  ∧ ∃ letter,
      deadLetters out.1 = [letter] ∧ PubBody letter = body
      ∧ deadLetterCount letter = Some (VInt32 MaxRetries)
      ∧ (PubHeaders letter ≫= λ t, t !! "x-last-error")
        = Some (VString "check not found").
Proof.
  intros Hbody Hevent Hnone Hkey out.
  assert (Hfail : ∀ env, ReportWorker_handleMessage reportTTL env body w
                         = (Err (errorString "check not found"), w)).
  { intros env. unfold ReportWorker_handleMessage. rewrite Hbody.
    destruct Hevent as [[-> (score & level & cats & sanc & Hp)]
                       |[-> (msg & Hp)]]; simpl.
    - unfold handleAMLCheckCompleted. rewrite Hp.
      unfold GenerateReport_Execute, mbind, M_bind, wrapErr, repository_Get,
        repositories.Get, fail. simpl. by rewrite Hnone.
    - unfold handleAMLCheckFailed. rewrite Hp.
      unfold HandleCheckFailed_Execute, mbind, M_bind, wrapErr,
        repository_Get, repositories.Get, fail. simpl. by rewrite Hnone. }
  pose proof (serves_four_failures QueueReportJobs ReportWorker_routingKeys
                key body _ _ _ _ _ _ _ _ w w w w w Hkey
                (Hfail env1) (Hfail env2) (Hfail env3) (Hfail env4)) as Hout.
  change (serves _ _ _ _) with out in Hout. rewrite Hout. simpl.
  split; [done |]. split; [done |]. split; [done |].
  eexists. split; [done |]. split; [done |].
  unfold deadLetterCount, dlqHeaders. simpl. by simplify_map_eq.
Qed.

End WorkerMore.

(** The request for check ["c-1"] while the risk provider is down. *)
Lemma risk_outage_redelivered_witness :
  let out :=
    workers.serves workers.QueueAMLRequests
      workers.AMLWorker_routingKeys
      (workers.AMLWorker_handleMessage (H:=workers.sampleJSON)
         <$> replicate 4 workers.outageEnv)
      (rabbitmq.holding (rabbitmq.fresh EventAMLCheckRequested
                           "requested c-1"), oneCheck) in
  amlReply workers.outageEnv = Err (errorString "connection refused")
  ∧ rabbitmq.ready out.1 = []
  ∧ length (bus out.2) = 4%nat.
Proof.
  intros out.
  assert (Haml : amlReply workers.outageEnv
                 = Err (errorString "connection refused")) by reflexivity.
  split; [exact Haml |].
  destruct (risk_outage_redelivered (H:=workers.sampleJSON)
              workers.outageEnv workers.outageEnv workers.outageEnv
              workers.outageEnv _ _ _ _ "requested c-1" _ "c-1" "bc1q" "BTC"
              oneCheck eq_refl eq_refl eq_refl Haml Haml Haml Haml)
    as (Hready & _ & _ & _ & _ & _ & p1 & p2 & p3 & p4 & Hbus & _).
  split; [exact Hready |].
  exact (f_equal (@length _) Hbus).
Defined.

(** The result for check ["c-9"] arriving in a world that holds only
    check ["c-1"]. *)
Lemma stale_event_dead_lettered_witness :
  let out :=
    workers.serves workers.QueueReportJobs workers.ReportWorker_routingKeys
      (workers.ReportWorker_handleMessage (H:=workers.sampleJSON)
         (H0:=stubRenderer) (H1:=localConfig) 5000
         <$> replicate 4 quietEnv)
      (rabbitmq.holding (rabbitmq.fresh EventAMLCheckCompleted
                           "completed c-9"), oneCheck) in
  repo oneCheck !! "c-9" = None
  ∧ EventAMLCheckCompleted ∈ workers.ReportWorker_routingKeys
  ∧ out.2 = oneCheck ∧ rabbitmq.ready out.1 = [].
Proof.
  intros out.
  assert (Hnone : repo oneCheck !! "c-9" = None) by reflexivity.
  assert (Hkey : EventAMLCheckCompleted ∈ workers.ReportWorker_routingKeys)
    by apply list_elem_of_here.
  split; [exact Hnone | split; [exact Hkey |]].
  destruct (stale_event_dead_lettered (H:=workers.sampleJSON)
              (H0:=stubRenderer) (H1:=localConfig) 5000 quietEnv quietEnv
              quietEnv quietEnv
              EventAMLCheckCompleted "completed c-9" _ "c-9" oneCheck
              eq_refl
              (or_introl (conj eq_refl
                 (ex_intro _ 85 (ex_intro _ "Critical" (ex_intro _ []
                    (ex_intro _ None eq_refl))))))
              Hnone Hkey)
    as (Hworld & Hready & _).
  split; [exact Hworld | exact Hready].
Defined.

(** *** From the request to the report *)
Section PipelineMore.
Import token http.
Context `{GoStrings} `{PDFRenderer} `{GoCrypto}.

(** The deployment of this section is the default one: the reports are
    kept in the local directory, from which the download reads them. *)
#[local] Existing Instance localConfig.

(** X22: the three steps in a row.  On a registry that stores every
    record under its own id, for a currency the registry knows, an
    address that is valid after normalising and a fresh id that is not
    empty, and with the
    bus, the risk provider, the rendering and the file system answering
    well: the intake, the risk step on what the intake published and the
    report step on what the risk step published all succeed; the bus has
    carried [check.requested], [check.completed] and [report.ready], in
    this order; a status query before the check expires answers 200 with
    the provider's score, level and categories and a signed link; and the
    link downloads the rendered report until the link or the report
    expires. *)
Theorem pipeline_completes h reportTTL env1 env2 env3 address currency asset
    res pdfData now signNow verifyNow getNow (w : World) :
  let id := uuid env1 in
  let normal := NormalizeAddress asset address in
  let sanctions :=
    Some match sanctionsReply env2 with
         | Err _ => emptySanctions
         | Ok found => found
         end in
  let key := id +:+ ".pdf" in
  keyed (repo w) →
  id ≠ "" →
  repo w !! id = None →
  AssetRegistry_Get (assetRegistry h) currency = Ok asset →
  ValidateAddress asset normal = None →
  publishReply env1 = None →
  amlReply env2 = Ok res →
  publishReply env2 = None →
  GeneratePDF normal (Symbol asset) (ResRiskScore res) (ResRiskLevel res)
    (ResCategories res) sanctions id (nowRender env3) = Ok pdfData →
  invalidPDF pdfData = false →
  writeReply env3 = None →
  now ≤ nowCreate env1 + checkTTL h →
  has ":" key = false →
  int64 (Unix (signNow + 24 * Hour)) →
  let step1 :=
    CheckAddress_Execute (assetRegistry h) (checkTTL h) env1 address currency
      w in
  let step2 :=
    ProcessAMLCheck_Execute env2 id normal (Symbol asset) step1.2 in
  let step3 :=
    GenerateReport_Execute reportTTL env3 id (ResRiskScore res)
      (ResRiskLevel res) (ResCategories res) sanctions step2.2 in
  let link := Sign (tokenProvider h) signNow key (24 * Hour) in
  step1.1 = Ok id ∧ step2.1 = Ok tt ∧ step3.1 = Ok tt
  ∧ PubKey <$> bus step3.2
    = (PubKey <$> bus w)
      ++ [EventAMLCheckRequested; EventAMLCheckCompleted;
          EventAMLReportReady]
  ∧ keyed (repo step3.2)
  ∧ GetCheckStatus h now signNow id step3.2
    = respondJSON StatusOK
        (CheckAddressResponse "success" (ResRiskScore res)
           (ResRiskLevel res) (ResCategories res) (ToSanctionsDTO sanctions)
           (apiURL h +:+ "/v1/report/" +:+ link))
  ∧ GetReport h verifyNow getNow None link (reports step3.2)
    = if Unix (signNow + 24 * Hour) <? Unix verifyNow then
        Refused (respondError StatusGone "report link expired")
      else if nowPut env3 + reportTTL <? getNow then
        Refused (respondError StatusGone "report expired")
      else Streamed key pdfData.
Proof.
  intros id normal sanctions key Hkeyed Hid Hfresh Hasset Hvalid Hpub1 Haml Hpub2
    Hrender Hpdf Hwrite Hnow Hkey Hrange step1 step2 step3 link.
  set (check := NewAMLCheck id (nowCreate env1) normal (Symbol asset)
                  (checkTTL h)).
  set (requested :=
         {| PubKey := EventAMLCheckRequested;
            PubEvent := NewEvent (eventID env1) (nowEvent env1)
                          EventAMLCheckRequested
                          (AMLCheckRequestedPayload id normal (Symbol asset));
            PubReply := None |}).
  assert (Hstep1 : step1
               = (Ok id, {| repo := <[id := check]> (repo w);
                            reports := reports w; bucket := bucket w;
                            bus := bus w ++ [requested] |})).
  { unfold step1, CheckAddress_Execute. rewrite Hasset. fold normal.
    rewrite Hvalid.
    unfold mbind, M_bind, mret, M_ret, orWrap, repository_Create,
      messageBus_Publish, repositories.Create. simpl.
    fold id. rewrite Hfresh. simpl. by rewrite Hpub1. }
  set (completed :=
         {| PubKey := EventAMLCheckCompleted;
            PubEvent := NewEvent (eventID env2) (nowEvent env2)
                          EventAMLCheckCompleted
                          (AMLCheckCompletedPayload id (ResRiskScore res)
                             (ResRiskLevel res) (ResCategories res)
                             sanctions);
            PubReply := None |}).
  assert (Hstep2 : step2
               = (Ok tt, {| repo := <[id := check]> (repo w);
                            reports := reports w; bucket := bucket w;
                            bus := (bus w ++ [requested]) ++ [completed] |})).
  { unfold step2. rewrite Hstep1. unfold ProcessAMLCheck_Execute.
    rewrite Haml. unfold orWrap, messageBus_Publish. simpl.
    by rewrite Hpub2. }
  set (mark := MarkCompleted (ResRiskScore res) (ResRiskLevel res)
                 (ResCategories res) sanctions key (nowMark env3)).
  set (ready :=
         {| PubKey := EventAMLReportReady;
            PubEvent := NewEvent (eventID env3) (nowEvent env3)
                          EventAMLReportReady
                          (AMLReportReadyPayload id key);
            PubReply := publishReply env3 |}).
  assert (Hstep3 : step3
               = (Ok tt,
                  {| repo := <[id := mark check]> (repo w);
                     reports :=
                       {| storage.files :=
                            <[key := pdfData]> (storage.files (reports w));
                          storage.metadata :=
                            <[key := nowPut env3 + reportTTL]>
                              (storage.metadata (reports w)) |};
                     bucket := bucket w;
                     bus := ((bus w ++ [requested]) ++ [completed])
                            ++ [ready] |})).
  { unfold step3. rewrite Hstep2.
    unfold GenerateReport_Execute, mbind, M_bind, mret, M_ret, fail, wrapErr,
      orWrap, logErr, mutate, repository_Get, repository_Update,
      reportStorage_Put, messageBus_Publish, billingHook_OnCheckCompleted,
      repositories.Get, repositories.Update, storage.Put. simpl.
    rewrite lookup_insert_eq. simpl. rewrite Hrender, Hpdf, Hwrite. simpl.
    fold id. rewrite lookup_alter_eq, lookup_insert_eq. simpl.
    fold key. fold mark. rewrite insert_alter_same, insert_insert_eq.
    done. }
  rewrite Hstep1, Hstep2, Hstep3. simpl.
  split; [done |]. split; [done |]. split; [done |]. split.
  { rewrite !fmap_app. simpl. by rewrite <- !app_assoc. }
  split.
  { intros j d [[<- <-]|[_ Hd]]%lookup_insert_Some; [done | eauto]. }
  split.
  - unfold GetCheckStatus.
    destruct (String.eqb_spec id ""); [done |].
    unfold GetCheckStatus_Execute, mbind, M_bind, mret, M_ret, fail, wrapErr,
      repository_Get, repositories.Get. simpl.
    rewrite lookup_insert_eq. simpl. unfold IsExpired. simpl.
    destruct (Z.ltb_spec (nowCreate env1 + checkTTL h) now); [lia |].
    done.
  - apply GetReport_signed; [done | done | |]; simpl;
      apply lookup_insert_eq.
Qed.

End PipelineMore.

(** The check of a Bitcoin address from the empty world, queried at 100
    and its report downloaded within the hour. *)
Lemma pipeline_completes_witness :
  let address := "1A1zP1eP5QGefi2DMPTfTL5SLmv7DivfNa" in
  let w1 := (CheckAddress_Execute (H:=asciiStrings) NewDefaultAssetRegistry
               1000 quietEnv address "BTC" emptyWorld).2 in
  let w2 := (ProcessAMLCheck_Execute quietEnv "c-1" address "BTC" w1).2 in
  let w3 := (GenerateReport_Execute (H:=stubRenderer) (H0:=localConfig) 5000
               quietEnv "c-1" 85 "Critical" ["Darknet"; "Mixer"]
               (Some emptySanctions) w2).2 in
  keyed (repo emptyWorld)
  ∧ ValidateAddress Bitcoin address = None
  ∧ http.StatusCode
      (http.GetCheckStatus (H:=token.concatMAC) http.localHandlers 100
         (30 * token.Second) "c-1" w3) = 200
  ∧ http.GetReport (H:=token.concatMAC) http.localHandlers
      (30 * token.Second + token.Hour) 100 None
      (token.Sign (H:=token.concatMAC) (token.NewHMACToken "secret")
         (30 * token.Second) "c-1.pdf" (24 * token.Hour))
      (reports w3)
    = http.Streamed "c-1.pdf" ("%PDF" +:+ filler 1020).
Proof.
  intros address w1 w2 w3.
  assert (Hkeyed : keyed (repo emptyWorld)).
  { intros id c Hc. unfold emptyWorld in Hc. simpl in Hc.
    by rewrite lookup_empty in Hc. }
  assert (Hvalid : ValidateAddress Bitcoin address = None) by reflexivity.
  assert (Hid : "c-1" ≠ "") by discriminate.
  assert (Hnow : 100 ≤ nowCreate quietEnv + http.checkTTL http.localHandlers)
    by (vm_compute; discriminate).
  assert (Hrange : token.int64
                     (token.Unix (30 * token.Second + 24 * token.Hour)))
    by (vm_compute; split; [discriminate | reflexivity]).
  destruct (pipeline_completes (H:=asciiStrings) (H0:=stubRenderer)
              (H1:=token.concatMAC) http.localHandlers 5000 quietEnv
              quietEnv quietEnv address "BTC" Bitcoin
              {| ResRiskScore := 85; ResRiskLevel := "Critical";
                 ResCategories := ["Darknet"; "Mixer"] |}
              ("%PDF" +:+ filler 1020) 100 (30 * token.Second)
              (30 * token.Second + token.Hour) 100 emptyWorld
              Hkeyed Hid eq_refl eq_refl Hvalid eq_refl eq_refl eq_refl
              eq_refl eq_refl eq_refl Hnow eq_refl Hrange)
    as (_ & _ & _ & _ & _ & Hstatus & Hreport).
  split; [exact Hkeyed |]. split; [exact Hvalid |]. split.
  - exact (f_equal http.StatusCode Hstatus).
  - exact Hreport.
Defined.

(** *** What every operation keeps *)
Section InvariantMore.
Context `{GoStrings} `{PDFRenderer} `{Config}.
Variables (assets : gmap string Asset) (checkTTL reportTTL : Z).

Lemma sameIdentity_refl c : sameIdentity c c.
Proof. by repeat split. Qed.

Lemma sameIdentity_trans c1 c2 c3 :
  sameIdentity c1 c2 → sameIdentity c2 c3 → sameIdentity c1 c3.
Proof.
  unfold sameIdentity. intros (?&?&?&?&?) (?&?&?&?&?).
  by repeat split; etrans.
Qed.

(** Marking in place, and storing the marked record again. *)
Lemma marked_registry (f : AMLCheck → AMLCheck) checkID c (r r' : Registry) :
  (∀ d, sameIdentity d (f d)) →
  keyed r → r !! checkID = Some c →
  r' = alter f checkID r ∨ r' = <[ID c := f c]> (alter f checkID r) →
  keyed r'
  ∧ ∀ id d, r !! id = Some d → ∃ d', r' !! id = Some d' ∧ sameIdentity d d'.
Proof.
  intros Hf Hkeyed Hc Hr'.
  assert (Hid : ID c = checkID) by (by apply Hkeyed).
  assert (Hsame : r' = alter f checkID r).
  { destruct Hr' as [->| ->]; [done |]. rewrite Hid.
    apply map_eq. intros j. destruct (decide (checkID = j)) as [<-|Hne].
    - by rewrite lookup_insert_eq, lookup_alter_eq, Hc.
    - by rewrite lookup_insert_ne. }
  rewrite Hsame. split.
  - intros id d. destruct (decide (checkID = id)) as [<-|Hne].
    + rewrite lookup_alter_eq, Hc. simpl. intros [= <-].
      destruct (Hf c) as (-> & _). done.
    + rewrite lookup_alter_ne by done. apply Hkeyed.
  - intros id d Hd. destruct (decide (checkID = id)) as [<-|Hne].
    + rewrite lookup_alter_eq, Hd. simpl. eauto.
    + rewrite lookup_alter_ne by done. eauto using sameIdentity_refl.
Qed.

Lemma perform_keeps (w : World) (op : Operation) :
  keyed (repo w) → storage.backed (reports w) →
  let w' := perform assets checkTTL reportTTL w op in
  keyed (repo w') ∧ storage.backed (reports w')
  ∧ (isSweep op = false →
     ∀ id c, repo w !! id = Some c →
             ∃ c', repo w' !! id = Some c' ∧ sameIdentity c c').
Proof.
  intros Hkeyed Hbacked.
  assert (Hstay : ∀ id c, repo w !! id = Some c →
                          ∃ c', repo w !! id = Some c' ∧ sameIdentity c c')
    by eauto using sameIdentity_refl.
  destruct op as [env address currency | env checkID address currency
                 | env checkID score level cats sanc | env checkID msg
                 | now | removeReply now]; simpl.
  - unfold CheckAddress_Execute.
    destruct (AssetRegistry_Get assets currency) as [asset|]; [| done].
    destruct (ValidateAddress asset _); [done |].
    unfold mbind, M_bind, mret, M_ret, orWrap, repository_Create,
      messageBus_Publish, repositories.Create. simpl.
    destruct (repo w !! uuid env) eqn:Hfresh; simpl; [done |].
    destruct (publishReply env); simpl.
    + split; [| split; [done |]].
      * intros id c [[<- <-]|[_ Hc]]%lookup_insert_Some; [done | eauto].
      * intros _ id c Hc. exists c. split; [| apply sameIdentity_refl].
        rewrite lookup_insert_ne; [done | congruence].
    + split; [| split; [done |]].
      * intros id c [[<- <-]|[_ Hc]]%lookup_insert_Some; [done | eauto].
      * intros _ id c Hc. exists c. split; [| apply sameIdentity_refl].
        rewrite lookup_insert_ne; [done | congruence].
  - unfold ProcessAMLCheck_Execute, publishFailedEvent, mbind, M_bind, fail,
      orWrap, messageBus_Publish. simpl.
    destruct (amlReply env); simpl; destruct (publishReply env); simpl; done.
  - assert (Hmark : ∀ d, sameIdentity d
                           (MarkCompleted score level cats sanc
                              (checkID +:+ ".pdf") (nowMark env) d))
      by (by repeat split).
    destruct (GenerateReport_world reportTTL env checkID score level cats
                sanc w)
      as [(_ & ->) | (c & pdf & Hc & _ & _ & -> & _ & Hrepo)]; [done |].
    assert (Hb : storage.backed
                   (reports (reportStorage_Put env (checkID +:+ ".pdf") pdf
                               reportTTL w).2)).
    { pose proof (reportStorage_Put_world env (checkID +:+ ".pdf") pdf
                    reportTTL w) as (_ & _ & Hput).
      destruct objectStorageEnabled.
      - destruct Hput as [-> _]. done.
      - destruct Hput as [_ Hput]. unfold storage.Put in Hput.
        destruct (writeReply env) as [failure|]; injection Hput as _ ->.
        + unfold storage.backed in *. simpl.
          destruct (storage.written failure); [| done].
          rewrite dom_insert_L. etrans; [exact Hbacked |].
          apply union_subseteq_r.
        + unfold storage.backed in *. simpl. rewrite !dom_insert_L.
          by apply union_mono_l. }
    destruct Hrepo as [(_ & _ & -> & _) | Hrepo]; [done |].
    destruct (marked_registry _ checkID c (repo w)
                (repo (GenerateReport_Execute reportTTL env checkID score
                         level cats sanc w).2) Hmark Hkeyed Hc)
      as [Hk Hp].
    { destruct Hrepo as [(_ & _ & -> & _)|(_ & _ & _ & -> & _)]; auto. }
    done.
  - destruct (HandleCheckFailed_repo env checkID msg w) as (-> & _ & Hrepo).
    destruct (repo w !! checkID) as [c|] eqn:Hc.
    + assert (Hmark : ∀ d, sameIdentity d (MarkFailed msg (nowMark env) d))
        by (by repeat split).
      destruct (marked_registry _ checkID c (repo w)
                  (repo (HandleCheckFailed_Execute env checkID msg w).2)
                  Hmark Hkeyed Hc Hrepo) as [Hk Hp].
      done.
    + rewrite Hrepo. done.
  - split; [| done].
    exact (proj2 (proj2 (keyed_preserved (NewAMLCheck "" 0 "" "" 0) now
                           (repo w) Hkeyed))).
  - split; [done |]. split; [| done]. by apply reports_sweep_backed.
Qed.

(** X23: what every run keeps.  Whatever operations are performed, in
    whatever order and with whatever answers from outside, on a world in
    which every record is stored under its own id and every report that
    the storage knows has its file: the same holds afterwards; and as long
    as no sweep is among them, no record is lost, and each keeps its id,
    its address and currency, its creation time and its expiry, so that
    only a sweep removes a check and nothing ever extends one. *)
Theorem runs_keep_invariants (ops : list Operation) (w : World) :
  keyed (repo w) → storage.backed (reports w) →
  let w' := foldl (perform assets checkTTL reportTTL) w ops in
  keyed (repo w') ∧ storage.backed (reports w')
  ∧ (forallb (λ op, negb (isSweep op)) ops = true →
     ∀ id c, repo w !! id = Some c →
             ∃ c', repo w' !! id = Some c' ∧ sameIdentity c c').
Proof.
  revert w. induction ops as [|op ops IH]; intros w Hkeyed Hbacked; simpl.
  - split; [done |]. split; [done |]. eauto using sameIdentity_refl.
  - destruct (perform_keeps w op Hkeyed Hbacked) as (Hk & Hb & Hp).
    destruct (IH _ Hk Hb) as (Hk' & Hb' & Hp').
    split; [done |]. split; [done |].
    intros [Hop Hops]%andb_true_iff id c Hc.
    apply negb_true_iff in Hop.
    destruct (Hp Hop id c Hc) as (c1 & Hc1 & Hsame1).
    destruct (Hp' Hops id c1 Hc1) as (c2 & Hc2 & Hsame2).
    eauto using sameIdentity_trans.
Qed.

End InvariantMore.

(** The world of the examples, after a failure and a report for its
    check. *)
Lemma runs_keep_invariants_witness :
  keyed (repo oneCheck) ∧ storage.backed (reports oneCheck)
  ∧ keyed
      (repo
         (foldl (perform (H:=asciiStrings) (H0:=stubRenderer)
                   (H1:=localConfig) NewDefaultAssetRegistry 1000 5000)
            oneCheck
            [FailureStep quietEnv "c-1" "provider down";
             ReportStep quietEnv "c-1" 85 "Critical" [] None])).
Proof.
  assert (Hkeyed : keyed (repo oneCheck)).
  { unfold oneCheck. simpl.
    intros id c [<- <-]%lookup_singleton_Some. reflexivity. }
  assert (Hbacked : storage.backed (reports oneCheck)).
  { unfold storage.backed, oneCheck. simpl. by rewrite !dom_empty_L. }
  split; [exact Hkeyed | split; [exact Hbacked |]].
  exact (proj1 (runs_keep_invariants (H:=asciiStrings) (H0:=stubRenderer)
                  (H1:=localConfig) NewDefaultAssetRegistry 1000 5000
                  [FailureStep quietEnv "c-1" "provider down";
                   ReportStep quietEnv "c-1" 85 "Critical" [] None]
                  oneCheck Hkeyed Hbacked)).
Defined.

(** *** The answers of the check request *)
Section RequestMore.
Import token http.
Context `{GoStrings} `{GoCrypto}.

Lemma awaitCompletion_status h checkID ticks :
  StatusCode (awaitCompletion h checkID ticks)
  ∈ [StatusOK; StatusAccepted; StatusBadGateway].
Proof.
  induction ticks as [|t ticks IH]; simpl.
  - apply list_elem_of_further, list_elem_of_here.
  - destruct (GetCheckStatus_Execute _ _ _).1 as [check|]; [| done].
    destruct (Status check); [done | |].
    + apply list_elem_of_here.
    + do 2 apply list_elem_of_further. apply list_elem_of_here.
Qed.

(** X24: the answers of the check request, for a bus whose errors are
    not the two errors of the domain.  The status is 200, 202, 400, 500 or
    502.  With 400 the world is as it was: nothing was stored and nothing
    published.  500 is the answer only to a request that passed
    validation and whose id was taken or whose publish failed.  With 200,
    202 and 502 the check has been stored under the fresh id, in
    Processing, with the normalised address and the symbol of the asset,
    and one event has been published under the key [check.requested], of
    type [check.requested], whose payload is that id, address and
    symbol. *)
Theorem CheckAddress_responses h env decoded ticks (w : World) :
  (∀ e, publishReply env = Some e →
        errors_Is e ErrInvalidAddress = false
        ∧ errors_Is e ErrUnsupportedCurrency = false) →
  let out := CheckAddress h env decoded ticks w in
  StatusCode out.1
  ∈ [StatusOK; StatusAccepted; StatusBadRequest; StatusInternalServerError;
     StatusBadGateway]
  ∧ (StatusCode out.1 = StatusBadRequest → out.2 = w)
  ∧ (StatusCode out.1 = StatusInternalServerError →
     ∃ req asset,
       decoded = Valid req
       ∧ AssetRegistry_Get (assetRegistry h) (ReqCurrency req) = Ok asset
       ∧ ValidateAddress asset (NormalizeAddress asset (ReqAddress req))
         = None
       ∧ (is_Some (repo w !! uuid env) ∨ is_Some (publishReply env)))
  ∧ (StatusCode out.1 ∈ [StatusOK; StatusAccepted; StatusBadGateway] →
     ∃ req asset check p,
       decoded = Valid req
       ∧ AssetRegistry_Get (assetRegistry h) (ReqCurrency req) = Ok asset
       ∧ repo w !! uuid env = None
       ∧ repo out.2 = <[uuid env := check]> (repo w)
       ∧ ID check = uuid env
       ∧ Address check = NormalizeAddress asset (ReqAddress req)
       ∧ Currency check = Symbol asset
       ∧ Status check = StatusProcessing
       ∧ bus out.2 = bus w ++ [p]
       ∧ PubKey p = "aml.check.requested"
       ∧ Type_ (PubEvent p) = "aml.check.requested"
       ∧ EventPayload (PubEvent p)
         = AMLCheckRequestedPayload (uuid env)
             (NormalizeAddress asset (ReqAddress req)) (Symbol asset)
       ∧ PubReply p = None
       ∧ publishReply env = None).
Proof.
  intros Hbus out. unfold out, CheckAddress.
  assert (Hcodes : ∀ code : Z,
             code ∈ [StatusOK; StatusAccepted; StatusBadGateway] →
             code ≠ StatusBadRequest ∧ code ≠ StatusInternalServerError).
  { intros code Hcode. rewrite !elem_of_cons, elem_of_nil in Hcode.
    by destruct Hcode as [->|[->|[->|[]]]]. }
  assert (H400 : ∀ msg w',
             let r := (respondError StatusBadRequest msg, w') in
             w' = w →
             StatusCode r.1
             ∈ [StatusOK; StatusAccepted; StatusBadRequest;
                StatusInternalServerError; StatusBadGateway]
             ∧ (StatusCode r.1 = StatusBadRequest → r.2 = w)
             ∧ (StatusCode r.1 = StatusInternalServerError → False)
             ∧ (StatusCode r.1
                ∈ [StatusOK; StatusAccepted; StatusBadGateway] → False)).
  { intros msg w' r ->. simpl. split.
    - do 2 apply list_elem_of_further. apply list_elem_of_here.
    - split; [done |]. split; [done |]. intros Hin.
      by destruct (Hcodes _ Hin). }
  destruct decoded as [| why | req].
  - destruct (H400 "invalid request body" w eq_refl) as (Ha & Hb & Hc & Hd).
    split; [exact Ha |]. split; [exact Hb |].
    split; [intros Hx; destruct (Hc Hx) | intros Hx; destruct (Hd Hx)].
  - destruct (H400 ("validation failed: " +:+ why) w eq_refl) as (Ha & Hb & Hc & Hd).
    split; [exact Ha |]. split; [exact Hb |].
    split; [intros Hx; destruct (Hc Hx) | intros Hx; destruct (Hd Hx)].
  - unfold CheckAddress_Execute.
    destruct (AssetRegistry_Get (assetRegistry h) (ReqCurrency req))
      as [asset|err] eqn:Hasset.
    2: { unfold AssetRegistry_Get in Hasset.
         destruct (assetRegistry h !! ToUpper (ReqCurrency req));
           [done |]. injection Hasset as <-. unfold fail. simpl.
         destruct (H400 ("unsupported currency: " +:+ ReqCurrency req) w
                     eq_refl) as (Ha & Hb & Hc & Hd).
         split; [exact Ha |]. split; [exact Hb |].
         split; [intros Hx; destruct (Hc Hx) | intros Hx; destruct (Hd Hx)]. }
    destruct (ValidateAddress asset _) as [err|] eqn:Hvalid.
    { assert (err = ErrInvalidAddress) as ->.
      { revert Hvalid. destruct asset; simpl;
          unfold Bitcoin_ValidateAddress, Ethereum_ValidateAddress;
          repeat case_match; congruence. }
      unfold fail. simpl.
      destruct (H400 (Error (wrapf "invalid address" ErrInvalidAddress)) w
                  eq_refl) as (Ha & Hb & Hc & Hd).
      split; [exact Ha |]. split; [exact Hb |].
      split; [intros Hx; destruct (Hc Hx) | intros Hx; destruct (Hd Hx)]. }
    unfold mbind, M_bind, mret, M_ret, orWrap, repository_Create,
      messageBus_Publish, repositories.Create. simpl.
    destruct (repo w !! uuid env) as [taken|] eqn:Hfresh; simpl.
    { split; [do 3 apply list_elem_of_further; apply list_elem_of_here |].
      split; [done |]. split.
      - intros _. exists req, asset. repeat split; eauto.
      - intros Hin. by destruct (Hcodes _ Hin). }
    destruct (publishReply env) as [e|] eqn:Hpub; simpl.
    { destruct (Hbus e eq_refl) as [-> ->]. simpl.
      split; [do 3 apply list_elem_of_further; apply list_elem_of_here |].
      split; [done |]. split.
      - intros _. exists req, asset. repeat split; eauto.
      - intros Hin. by destruct (Hcodes _ Hin). }
    pose proof (awaitCompletion_status h (uuid env) ticks) as Hwait.
    destruct (Hcodes _ Hwait) as [Hno400 Hno500].
    split.
    { rewrite !elem_of_cons, elem_of_nil in Hwait.
      rewrite !elem_of_cons. tauto. }
    split; [done |]. split; [done |].
    intros _. exists req, asset. eexists _, _.
    split; [done |]. split; [done |]. split; [done |].
    split; [reflexivity |]. split; [done |]. split; [done |].
    split; [done |]. split; [done |]. split; [reflexivity |].
    by repeat split.
Qed.

End RequestMore.

(** A request for an Ethereum address that is too short. *)
Lemma CheckAddress_responses_witness :
  let out :=
    http.CheckAddress (H:=asciiStrings) (H0:=token.concatMAC)
      http.localHandlers quietEnv
      (http.Valid {| http.ReqAddress := "0x1234"; http.ReqCurrency := "ETH" |})
      [] emptyWorld in
  (∀ e, publishReply quietEnv = Some e →
        errors_Is e ErrInvalidAddress = false
        ∧ errors_Is e ErrUnsupportedCurrency = false)
  ∧ http.StatusCode out.1 = http.StatusBadRequest
  ∧ out.2 = emptyWorld.
Proof.
  intros out.
  assert (Hbus : ∀ e, publishReply quietEnv = Some e →
                      errors_Is e ErrInvalidAddress = false
                      ∧ errors_Is e ErrUnsupportedCurrency = false)
    by (intros e He; discriminate He).
  split; [exact Hbus |]. split; [reflexivity |].
  exact (proj1 (proj2
           (CheckAddress_responses (H:=asciiStrings) (H0:=token.concatMAC)
              http.localHandlers quietEnv
              (http.Valid {| http.ReqAddress := "0x1234";
                             http.ReqCurrency := "ETH" |})
              [] emptyWorld Hbus))
           eq_refl).
Defined.
